(** * API-Brasileirao: the temporal feature engine of [processing/features.py]

    A shallow embedding of the five feature stages
    ([compute_travel_distance], [compute_rest_days], [compute_rolling_stats],
    [compute_key_players], [compute_importance_score]) and of the helpers they
    call, followed by the properties of the stages.

    Conventions of the embedding.
    - A pandas table is the list of its rows, in row order.  A stage returns
      the rows of its output table: the input row together with the columns
      the stage appends, each a (column name, cell) pair.
    - A Python [str] is the [string] of its UTF-8 bytes.  Case mapping,
      white space and digit classes follow Python on U+0000..U+00FF (Basic
      Latin and Latin-1 Supplement, which cover the Portuguese team names);
      code points above U+00FF are caseless, non-space and non-digit here.
    - A timestamp ([pd.Timestamp]) is its number of nanoseconds, a [Z]; the
      [data] column is taken already parsed, so [pd.to_datetime] is the
      identity on it.
    - A Python [float] is the rational it denotes ([Qc]): sums, quotients and
      [round] are exact.  [haversine_distance_km], whose body is floating
      point trigonometry, is a parameter of the travel stage.
    - A nullable numeric column has a numeric dtype: a missing number is NaN,
      which the rolling mean skips.
    - [sort_values] on several keys is pandas' lexsort, a stable sort: rows
      with equal keys keep their input order.  On the one key [data] pandas
      sorts with its default quicksort, which is not stable: the order it
      gives to the rows of one date is not specified, and the positions it
      returns ([quicksort], numpy's [argsort]) are a parameter of the stages
      that sort by date.
    - An exception is a value: fallible functions return a [result]. *)

From Stdlib Require Import ZArith QArith Qcanon Lia List Bool Ascii.
From Stdlib Require String.
From stdpp Require Import gmap strings list pretty sorting.

Open Scope Z_scope.

(** ** Exceptions *)

Inductive exn : Type :=
  | KeyError (key : string)
  | ValueError (msg : string).

Inductive result (A : Type) : Type :=
  | Ok (a : A)
  | Raise (e : exn).

Arguments Ok {A} a.
Arguments Raise {A} e.

#[global] Instance result_ret : MRet result := fun _ a => Ok a.

#[global] Instance result_bind : MBind result := fun _ _ k r =>
  match r with
  | Ok a => k a
  | Raise e => Raise e
  end.

(** ** Python strings *)

Module PyStr.

Definition code (c : ascii) : N := N_of_ascii c.
Definition chr (n : N) : ascii := ascii_of_N n.

Definition between (lo hi : N) (c : ascii) : bool :=
  ((lo <=? code c) && (code c <=? hi))%N.

Definition is_byte (n : N) (c : ascii) : bool := (code c =? n)%N.

(** [str.lower]: A-Z, and U+00C0..U+00DE but the multiplication sign, whose
    UTF-8 form is the byte C3 followed by 80..9E. *)
Definition lower_byte (after_c3 : bool) (c : ascii) : ascii :=
  if between 65 90 c then chr (code c + 32)
  else if after_c3 && between 128 158 c && negb (is_byte 151 c)
       then chr (code c + 32)
  else c.

Fixpoint lower_from (after_c3 : bool) (s : string) : string :=
  match s with
  | EmptyString => EmptyString
  | String c r => String (lower_byte after_c3 c) (lower_from (is_byte 195 c) r)
  end.

Definition lower (s : string) : string := lower_from false s.

(** [str.upper]: a-z; U+00E0..U+00FE but the division sign; sharp s becomes
    "SS"; y with diaeresis and the micro sign leave Latin-1. *)
Fixpoint upper (s : string) : string :=
  match s with
  | EmptyString => EmptyString
  | String c r =>
    if between 97 122 c then String (chr (code c - 32)) (upper r)
    else
      match r with
      | String d r' =>
        if is_byte 195 c then
          if is_byte 159 d then String "S"%char (String "S"%char (upper r'))
          else if is_byte 191 d then String (chr 197) (String (chr 184) (upper r'))
          else if between 160 190 d && negb (is_byte 183 d)
               then String c (String (chr (code d - 32)) (upper r'))
          else String c (upper r)
        else if is_byte 194 c && is_byte 181 d
             then String (chr 206) (String (chr 156) (upper r'))
        else String c (upper r)
      | EmptyString => String c EmptyString
      end
  end.

(** White space of [str.strip]: the ASCII separators, and U+0085 and U+00A0
    (the byte C2 followed by 85 or A0). *)
Definition is_space (c : ascii) : bool :=
  between 9 13 c || between 28 32 c.

Definition is_space2 (c d : ascii) : bool :=
  is_byte 194 c && (is_byte 133 d || is_byte 160 d).

Fixpoint lstrip (s : string) : string :=
  match s with
  | EmptyString => EmptyString
  | String c r =>
    if is_space c then lstrip r
    else
      match r with
      | String d r' => if is_space2 c d then lstrip r' else s
      | EmptyString => s
      end
  end.

Definition is_empty (s : string) : bool :=
  match s with EmptyString => true | _ => false end.

Fixpoint rstrip (s : string) : string :=
  match s with
  | EmptyString => EmptyString
  | String c r =>
    if is_space c && is_empty (rstrip r) then EmptyString
    else
      match r with
      | String d r' =>
        if is_space2 c d && is_empty (rstrip r') then EmptyString
        else String c (rstrip r)
      | EmptyString => String c EmptyString
      end
  end.

Definition strip (s : string) : string := rstrip (lstrip s).

(** [s.replace(old, new)] for a non-empty [old]: the occurrences are taken
    from the left and do not overlap; [skip] counts the bytes of the
    occurrence being replaced that are still to be dropped. *)
Fixpoint replace_from (old new : string) (skip : nat) (s : string) : string :=
  match s with
  | EmptyString => EmptyString
  | String c r =>
    match skip with
    | S k => replace_from old new k r
    | O =>
      if String.prefix old s
      then new +:+ replace_from old new (Nat.pred (String.length old)) r
      else String c (replace_from old new O r)
    end
  end.

Definition replace (old new s : string) : string := replace_from old new O s.

(** [sub in s] *)
Fixpoint contains (sub s : string) : bool :=
  String.prefix sub s ||
  match s with
  | EmptyString => false
  | String _ r => contains sub r
  end.

(** [s.rsplit("-", 1)]: [None] when [s] has no "-", otherwise what is
    before and after the last one. *)
Fixpoint rsplit_dash (s : string) : option (string * string) :=
  match s with
  | EmptyString => None
  | String c r =>
    match rsplit_dash r with
    | Some (a, b) => Some (String c a, b)
    | None => if is_byte 45 c then Some (EmptyString, r) else None
    end
  end.

(** [ch.isdigit()]: 0-9, and the superscripts two, three and one
    (U+00B2, U+00B3, U+00B9: the byte C2 followed by B2, B3 or B9). *)
Definition is_decimal (c : ascii) : bool := between 48 57 c.

Definition is_superscript (c d : ascii) : bool :=
  is_byte 194 c && (is_byte 178 d || is_byte 179 d || is_byte 185 d).

(** ["".join(ch for ch in s if ch.isdigit())] *)
Fixpoint digits (s : string) : string :=
  match s with
  | EmptyString => EmptyString
  | String c r =>
    if is_decimal c then String c (digits r)
    else
      match r with
      | String d r' =>
        if is_superscript c d then String c (String d (digits r')) else digits r
      | EmptyString => EmptyString
      end
  end.

Fixpoint int_from (acc : Z) (s : string) : option Z :=
  match s with
  | EmptyString => Some acc
  | String c r =>
    if is_decimal c then int_from (10 * acc + Z.of_N (code c - 48)) r else None
  end.

(** The number of decimal digits a string starts with. *)
Fixpoint decimal_prefix (s : string) : nat :=
  match s with
  | EmptyString => O
  | String c r => if is_decimal c then S (decimal_prefix r) else O
  end.

(** [sys.get_int_max_str_digits()], where the limit has not been changed. *)
Definition max_str_digits : Z := 4300.

(** [int(s)] on a string of [isdigit] characters: [ValueError] when it is
    empty, when it starts with more decimal digits than [max_str_digits],
    leading zeros included, or when it holds a digit that is not a decimal
    one. *)
Definition int (s : string) : result Z :=
  match s with
  | EmptyString => Raise (ValueError "invalid literal for int()")
  | _ =>
    if max_str_digits <? Z.of_nat (decimal_prefix s)
    then Raise (ValueError "Exceeds the limit (4300 digits) for integer string conversion")
    else
      match int_from 0 s with
      | Some z => Ok z
      | None => Raise (ValueError "invalid literal for int()")
      end
  end.

End PyStr.

(** ** Data model *)

(** A round is an integer or a free-text token such as "Rodada 5". *)
Inductive round_token : Type :=
  | RoundInt (n : Z)
  | RoundStr (s : string).

(** A row of the [matches] table (the columns of [data_acquisition/db.py]). *)
Record Match : Type := {
  id_partida : Z;
  data : Z;
  campeonato : string;
  temporada : option Z;
  rodada : option round_token;
  time_casa : string;
  time_fora : string;
  gols_casa : option Z;
  gols_fora : option Z;
  xG_casa : option Qc;
  xG_fora : option Qc;
  cidade_jogo : option string
}.

(** A row of [player_stats]. *)
Record PlayerStat : Type := {
  ps_id_partida : Z;
  ps_id_jogador : Z;
  ps_time : string;
  ps_gols : Z;
  ps_assistencias : Z
}.

(** A row of [teams_info], the override table of team coordinates. *)
Record TeamInfo : Type := {
  nome_time : string;
  latitude : Qc;
  longitude : Qc
}.

(** A row of the standings snapshot. *)
Record Standing : Type := {
  st_rodada : Z;
  st_time : string;
  st_posicao : Z;
  st_pontos : Qc
}.

(** An entry of a [key_players] list. *)
Record KeyPlayer : Type := {
  kp_id_jogador : Z;
  kp_gols : Z;
  kp_assistencias : Z;
  kp_score : Z
}.

(** The value of a cell of an appended column; [CNone] is Python's [None]
    and pandas' missing value. *)
Inductive cell : Type :=
  | CNone
  | CInt (n : Z)
  | CFloat (q : Qc)
  | CPlayers (l : list KeyPlayer).

(** A row of a stage's output: the input row and the appended columns. *)
Record Row : Type := {
  base : Match;
  extra : list (string * cell)
}.

(** [row[name]] on an appended column. *)
Fixpoint assoc {V : Type} (name : string) (cols : list (string * V)) : option V :=
  match cols with
  | [] => None
  | (n, v) :: cols' => if String.eqb n name then Some v else assoc name cols'
  end.

Definition col (name : string) (r : Row) : option cell := assoc name (extra r).

(** The output row of the match [mid], when the table has one. *)
Definition row_of (mid : Z) (out : list Row) : option Row :=
  head (filter (fun r => id_partida (base r) = mid) out).

Inductive side : Type := Home | Away.

Definition team_of (s : side) (m : Match) : string :=
  match s with Home => time_casa m | Away => time_fora m end.

Definition side_name (s : side) : string :=
  match s with Home => "home" | Away => "away" end.

Definition side_eqb (a b : side) : bool :=
  match a, b with Home, Home | Away, Away => true | _, _ => false end.

(** ** TemporalOrderer: [sort_values] *)

Section Sorting.
Context {A : Type} (leb : A -> A -> bool).

Fixpoint insert_sorted (x : A) (l : list A) : list A :=
  match l with
  | [] => [x]
  | y :: l' => if leb x y then x :: l else y :: insert_sorted x l'
  end.

(** Rows are inserted from the last to the first, each before the first
    row that is not smaller: rows with equal keys keep their order. *)
Definition sort_values (l : list A) : list A := foldr insert_sorted [] l.
End Sorting.

Definition by_date (a b : Match) : bool := data a <=? data b.

(** [df.sort_values("data")]: the rows at the positions that
    [quicksort], numpy's [argsort(kind="quicksort")], returns for the column
    of the dates.  These are the positions of the rows in an ascending order
    of the dates; which one, among rows of the same date, is not
    specified. *)
Definition sort_values_data (quicksort : list Z -> list nat) (df : list Match)
  : list Match :=
  omap (fun i => df !! i) (quicksort (data <$> df)).

(** ** RestDaysStage *)

Definition ns_per_day : Z := 86400000000000.

(** [Timedelta.days] *)
Definition days (delta : Z) : Z := delta `div` ns_per_day.

Definition rest_of (last_played : gmap string Z) (team : string) (match_date : Z) : cell :=
  match last_played !! team with
  | Some d => CInt (days (match_date - d))
  | None => CNone
  end.

(** One iteration of the loop: the two cells of the row, then the two
    updates of [last_played]. *)
Definition rest_step (last_played : gmap string Z) (m : Match) : Row * gmap string Z :=
  let match_date := data m in
  let home := time_casa m in
  let away := time_fora m in
  ({| base := m;
      extra := [("rest_days_home", rest_of last_played home match_date);
                ("rest_days_away", rest_of last_played away match_date)] |},
   <[away := match_date]> (<[home := match_date]> last_played)).

Fixpoint rest_scan (last_played : gmap string Z) (l : list Match) : list Row :=
  match l with
  | [] => []
  | m :: l' =>
    let (r, last_played') := rest_step last_played m in
    r :: rest_scan last_played' l'
  end.

Section RestDays.
(** [np.argsort(keys, kind="quicksort")] *)
Variable quicksort : list Z -> list nat.

Definition compute_rest_days (matches_df : list Match) : list Row :=
  rest_scan ∅ (sort_values_data quicksort matches_df).
End RestDays.

(** ** RollingStatsStage *)

(** A row of [long_df]: one observation per match and side. *)
Record LongRow : Type := {
  lr_id_partida : Z;
  lr_team : string;
  lr_goals_for : option Qc;
  lr_goals_against : option Qc;
  lr_xg_for : option Qc;
  lr_xg_against : option Qc;
  lr_data : Z;
  lr_side : side
}.

Definition of_int (g : option Z) : option Qc := (fun z => Q2Qc (inject_Z z)) <$> g.

Definition home_obs (m : Match) : LongRow :=
  {| lr_id_partida := id_partida m;
     lr_team := time_casa m;
     lr_goals_for := of_int (gols_casa m);
     lr_goals_against := of_int (gols_fora m);
     lr_xg_for := xG_casa m;
     lr_xg_against := xG_fora m;
     lr_data := data m;
     lr_side := Home |}.

Definition away_obs (m : Match) : LongRow :=
  {| lr_id_partida := id_partida m;
     lr_team := time_fora m;
     lr_goals_for := of_int (gols_fora m);
     lr_goals_against := of_int (gols_casa m);
     lr_xg_for := xG_fora m;
     lr_xg_against := xG_casa m;
     lr_data := data m;
     lr_side := Away |}.

Definition long_rows (df : list Match) : list LongRow :=
  flat_map (fun m => [home_obs m; away_obs m]) df.

(** The order of [sort_values(["team", "data"])]. *)
Definition by_team_date (a b : LongRow) : bool :=
  match String.compare (lr_team a) (lr_team b) with
  | Lt => true
  | Eq => lr_data a <=? lr_data b
  | Gt => false
  end.

(** [series.shift(1)]: a missing value enters at the front and the last
    value leaves. *)
Definition shift1 {A : Type} (series : list (option A)) : list (option A) :=
  take (length series) (None :: series).

Definition sum_Qc (l : list Qc) : Qc := foldr Qcplus (Q2Qc 0) l.

(** The mean of the values present in a window: missing with none
    ([min_periods=1]). *)
Definition window_mean (vals : list (option Qc)) : option Qc :=
  match omap id vals with
  | [] => None
  | present => Some (sum_Qc present / Q2Qc (inject_Z (Z.of_nat (length present))))%Qc
  end.

(** The window that ends at position [i]: positions [i - w + 1] to [i]. *)
Definition window_at {A : Type} (w i : nat) (series : list A) : list A :=
  drop (S i - w)%nat (take (S i) series).

(** [series.rolling(window=w, min_periods=1).mean()] *)
Definition rolling_mean (w : nat) (series : list (option Qc)) : list (option Qc) :=
  (fun i => window_mean (window_at w i series)) <$> seq 0 (length series).

(** [rolling] refuses a window below [min_periods=1], a negative one
    included. *)
Definition _rolling_mean_shifted (series : list (option Qc)) (window : Z)
  : result (list (option Qc)) :=
  if window <? 1
  then Raise (ValueError ("min_periods 1 must be <= window " +:+ pretty window))
  else Ok (rolling_mean (Z.to_nat window) (shift1 series)).

Definition same_team (team : string) (r : LongRow) : bool :=
  String.eqb (lr_team r) team.

(** [long_df.groupby("team")[metric].transform(f)]: [f] is applied to the
    series of each team, in the row order of [long_df], and a row receives
    the value at its position in its team's series. *)
Definition transform (f : list (option Qc) -> result (list (option Qc)))
    (metric : LongRow -> option Qc) (long_df : list LongRow)
  : result (list (option Qc)) :=
  mapM (fun ir : nat * LongRow =>
          let (i, r) := ir in
          let group := filter (same_team (lr_team r)) long_df in
          let pos := length (filter (same_team (lr_team r)) (take i long_df)) in
          rolled ← f (metric <$> group);
          Ok (default None (rolled !! pos)))
       (imap pair long_df).

Definition metrics : list (string * (LongRow -> option Qc)) :=
  [("goals_for", lr_goals_for); ("goals_against", lr_goals_against);
   ("xg_for", lr_xg_for); ("xg_against", lr_xg_against)].

Definition roll_columns : list string :=
  (fun m => fst m +:+ "_roll") <$> metrics.

Definition float_cell (v : option Qc) : cell :=
  match v with Some q => CFloat q | None => CNone end.

(** [long_df] with its four [_roll] columns: the observation and the cells
    of the columns, by name. *)
Definition with_rolls (window : Z) (long_df : list LongRow)
  : result (list (LongRow * list (string * cell))) :=
  cols ← mapM (fun m : string * (LongRow -> option Qc) =>
                  vals ← transform (fun s => _rolling_mean_shifted s window) (snd m) long_df;
                  Ok (fst m +:+ "_roll", vals)) metrics;
  Ok (imap (fun i r =>
              (r, (fun c : string * list (option Qc) =>
                     (fst c, float_cell (default None (snd c !! i)))) <$> cols))
           long_df).

(** [long_df[long_df["side"] == s].set_index("id_partida")[roll_columns]
    .add_suffix(suffix)] *)
Definition side_stats (s : side) (suffix : string)
    (rolled : list (LongRow * list (string * cell)))
  : list (Z * list (string * cell)) :=
  (fun rc : LongRow * list (string * cell) =>
     (lr_id_partida (fst rc),
      (fun c : string * cell => (fst c +:+ suffix, snd c)) <$> snd rc))
  <$> filter (fun rc => side_eqb (lr_side (fst rc)) s) rolled.

Definition add_columns (r : Row) (cols : list (string * cell)) : Row :=
  {| base := base r; extra := extra r ++ cols |}.

(** [left.join(right)] on the index [id_partida]: a left row is repeated
    for every right row of its id, and has missing cells when there is
    none. *)
Definition join (left : list Row) (names : list string)
    (right : list (Z * list (string * cell))) : list Row :=
  flat_map (fun r =>
    match filter (fun s => fst s = id_partida (base r)) right with
    | [] => [add_columns r ((fun n => (n, CNone)) <$> names)]
    | found => (fun s => add_columns r (snd s)) <$> found
    end) left.

Definition suffix_of (window : Z) (s : side) : string :=
  "_last" +:+ pretty window +:+ "_" +:+ side_name s.

Definition compute_rolling_stats (matches_df : list Match) (window : Z)
  : result (list Row) :=
  match long_rows matches_df with
  | [] =>
    (* pd.DataFrame([]) has no column to sort by *)
    Raise (KeyError "team")
  | rows =>
    let long_df := sort_values by_team_date rows in
    rolled ← with_rolls window long_df;
    let home_stats := side_stats Home (suffix_of window Home) rolled in
    let away_stats := side_stats Away (suffix_of window Away) rolled in
    let df := (fun m => {| base := m; extra := [] |}) <$> matches_df in
    Ok (join (join df ((fun c => c +:+ suffix_of window Home) <$> roll_columns) home_stats)
             ((fun c => c +:+ suffix_of window Away) <$> roll_columns) away_stats)
  end.

(** ** KeyPlayersStage *)

(** [dict(pairs)]: a later pair of a key replaces an earlier one. *)
Definition to_dict (pairs : list (Z * Z)) : gmap Z Z :=
  foldl (fun d kv => <[fst kv := snd kv]> d) ∅ pairs.

(** [df.set_index("id_partida")["data"].to_dict()] *)
Definition match_date_map (df : list Match) : gmap Z Z :=
  to_dict ((fun m => (id_partida m, data m)) <$> df).

(** [team_matches[team].append(mid)] on a [defaultdict(list)] *)
Definition append_match (team_matches : gmap string (list Z)) (team : string) (mid : Z)
  : gmap string (list Z) :=
  <[team := default [] (team_matches !! team) ++ [mid]]> team_matches.

Section KeyPlayers.
(** [np.argsort(keys, kind="quicksort")] *)
Variable quicksort : list Z -> list nat.

Definition team_matches (df : list Match) : gmap string (list Z) :=
  foldl (fun tm m =>
           append_match (append_match tm (time_casa m) (id_partida m))
                        (time_fora m) (id_partida m))
        ∅ (sort_values_data quicksort df).

(** [l[start:]], with Python's negative indices *)
Definition slice_from {A : Type} (start : Z) (l : list A) : list A :=
  if start <? 0 then drop (Z.to_nat (Z.of_nat (length l) + start)) l
  else drop (Z.to_nat start) l.

(** [df.head(n)]: the first [n] rows, all but the last [-n] for a
    negative [n] *)
Definition head_n {A : Type} (n : Z) (l : list A) : list A :=
  if n <? 0 then take (Z.to_nat (Z.of_nat (length l) + n)) l
  else take (Z.to_nat n) l.

(** The ids of [team]'s matches dated before [match_date], oldest first.
    [dates !!! mid] is [match_date_map[mid]]: every id of [team_matches] is
    a key of [match_date_map]. *)
Definition history_ids (tm : gmap string (list Z)) (dates : gmap Z Z)
    (team : string) (match_date : Z) : list Z :=
  filter (fun mid => dates !!! mid < match_date) (default [] (tm !! team)).

Definition recent_ids (tm : gmap string (list Z)) (dates : gmap Z Z)
    (window : Z) (team : string) (match_date : Z) : list Z :=
  slice_from (- window) (history_ids tm dates team match_date).

Definition sum_Z (l : list Z) : Z := foldr Z.add 0 l.

(** [recent.groupby("id_jogador")[["gols", "assistencias"]].sum()
    .reset_index()] with the [score] column: one row per player, by
    ascending id. *)
Definition grouped (recent : list PlayerStat) : list KeyPlayer :=
  (fun p =>
     let rows := filter (fun r => ps_id_jogador r = p) recent in
     let gols := sum_Z (ps_gols <$> rows) in
     let assistencias := sum_Z (ps_assistencias <$> rows) in
     {| kp_id_jogador := p; kp_gols := gols; kp_assistencias := assistencias;
        kp_score := gols + assistencias |})
  <$> sort_values Z.leb (remove_dups (ps_id_jogador <$> recent)).

(** The order of [sort_values(["score", "gols"], ascending=False)] *)
Definition by_score_gols_desc (a b : KeyPlayer) : bool :=
  (kp_score b <? kp_score a) ||
  ((kp_score a =? kp_score b) && (kp_gols b <=? kp_gols a)).

(** The body of the inner loop: the list stored in [target[match_id]]. *)
Definition key_players_of (player_stats_df : list PlayerStat)
    (tm : gmap string (list Z)) (dates : gmap Z Z)
    (window top_n : Z) (team : string) (match_date : Z) : list KeyPlayer :=
  let recent_ids := recent_ids tm dates window team match_date in
  let recent :=
    filter (fun r => ps_time r = team ∧ ps_id_partida r ∈ recent_ids) player_stats_df in
  match recent with
  | [] => []
  | _ => head_n top_n (sort_values by_score_gols_desc (grouped recent))
  end.

(** The dictionary [key_home] or [key_away] after the second loop. *)
Definition key_dict (player_stats_df : list PlayerStat) (df : list Match)
    (window top_n : Z) (s : side) : gmap Z (list KeyPlayer) :=
  let dates := match_date_map df in
  let tm := team_matches df in
  foldl (fun d m =>
           let match_id := id_partida m in
           let match_date := dates !!! match_id in
           <[match_id :=
               key_players_of player_stats_df tm dates window top_n (team_of s m) match_date]> d)
        ∅ df.

(** [df["id_partida"].map(d)] *)
Definition map_cell (d : gmap Z (list KeyPlayer)) (mid : Z) : cell :=
  match d !! mid with
  | Some l => CPlayers l
  | None => CNone
  end.

Definition compute_key_players (matches_df : list Match)
    (player_stats_df : list PlayerStat) (window top_n : Z) : list Row :=
  let key_home := key_dict player_stats_df matches_df window top_n Home in
  let key_away := key_dict player_stats_df matches_df window top_n Away in
  (fun m =>
     {| base := m;
        extra := [("key_players_home", map_cell key_home (id_partida m));
                  ("key_players_away", map_cell key_away (id_partida m))] |})
  <$> matches_df.
End KeyPlayers.

(** ** ImportanceScoreStage *)

Record ImportanceParams : Type := {
  high_round_threshold : Z;
  g4_cutoff : Z;
  z4_cutoff : Z
}.

Definition default_params : ImportanceParams :=
  {| high_round_threshold := 28; g4_cutoff := 4; z4_cutoff := 17 |}.

(** The integer nearest to [q], the even one of the two at a tie. *)
Definition round_half_even (q : Q) : Z :=
  let d := Z.pos (Qden q) in
  let f := Qnum q `div` d in
  let r := Qnum q `mod` d in
  if 2 * r <? d then f
  else if d <? 2 * r then f + 1
  else if Z.even f then f else f + 1.

(** [round(x, ndigits)] *)
Definition py_round (x : Qc) (ndigits : N) : Qc :=
  let scale := 10 ^ Z.of_N ndigits in
  Q2Qc (Qmake (round_half_even (Qmult (this x) (inject_Z scale))) (Z.to_pos scale)).

(** [max(x, 0)] *)
Definition max0 (x : Qc) : Qc := if Qle_bool (this x) 0 then Q2Qc 0 else x.

(** The round number of a match: [None] for a token without digits,
    [ValueError] when [int] rejects the digits. *)
Definition parse_round (r : round_token) : result (option Z) :=
  match r with
  | RoundInt n => Ok (Some n)
  | RoundStr s =>
    let digits := PyStr.digits s in
    if PyStr.is_empty digits then Ok None
    else n ← PyStr.int digits; Ok (Some n)
  end.

Definition stage_factor_of (params : ImportanceParams) (rodada : Z) : Qc :=
  if high_round_threshold params <=? rodada then Q2Qc 1 else Q2Qc (1 # 2).

(** The value of a row that has a round, a team row and both cutoff rows. *)
Definition importance (stage_factor pontos g4_pontos z4_pontos : Qc) : Qc :=
  let gap_g4 := (g4_pontos - pontos)%Qc in
  let gap_z4 := (pontos - z4_pontos)%Qc in
  let tension := (Q2Qc 1 / (Q2Qc 1 + max0 gap_g4 + max0 gap_z4))%Qc in
  py_round (tension * stage_factor)%Qc 3.

Definition team_score (standings_df : list Standing) (params : ImportanceParams)
    (team : string) (rodada : option round_token) : result (option Qc) :=
  match rodada with
  | None => Ok None
  | Some token =>
    parsed ← parse_round token;
    match parsed with
    | None =>
      (* no row of the standings has the round None *)
      Ok None
    | Some rodada =>
      let table := filter (fun s => st_rodada s = rodada) standings_df in
      match table with
      | [] => Ok None
      | _ =>
        let team_row :=
          filter (fun s => PyStr.lower (st_time s) = PyStr.lower team) table in
        let g4_row := filter (fun s => st_posicao s = g4_cutoff params) table in
        let z4_row := filter (fun s => st_posicao s = z4_cutoff params) table in
        match team_row, g4_row, z4_row with
        | t :: _, g :: _, z :: _ =>
          Ok (Some (importance (stage_factor_of params rodada)
                               (st_pontos t) (st_pontos g) (st_pontos z)))
        | _, _, _ => Ok None
        end
      end
    end
  end.

Definition compute_importance_score (matches_df : list Match)
    (standings_df : option (list Standing)) (params : ImportanceParams)
  : result (list Row) :=
  let null_columns :=
    (fun m => {| base := m;
                 extra := [("importance_home", CNone); ("importance_away", CNone)] |})
    <$> matches_df in
  match standings_df with
  | None | Some [] => Ok null_columns
  | Some standings =>
    home ← mapM (fun m => team_score standings params (time_casa m) (rodada m)) matches_df;
    away ← mapM (fun m => team_score standings params (time_fora m) (rodada m)) matches_df;
    Ok (zip_with (fun m ha =>
                    {| base := m;
                       extra := [("importance_home", float_cell (fst ha));
                                 ("importance_away", float_cell (snd ha))] |})
                 matches_df (zip home away))
  end.

(** ** CoordinateResolver *)

(** A coordinate given in millionths of a degree. *)
Definition coords (lat lon : Z) : Qc * Qc :=
  (Q2Qc (lat # 1000000), Q2Qc (lon # 1000000)).

Definition TEAM_COORDINATES : list (string * (Qc * Qc)) :=
  [
    ("Flamengo", coords (-22906800) (-43172900));
    ("Fluminense", coords (-22906800) (-43172900));
    ("Botafogo", coords (-22906800) (-43172900));
    ("Vasco", coords (-22906800) (-43172900));
    ("Palmeiras", coords (-23550500) (-46633300));
    ("Corinthians", coords (-23550500) (-46633300));
    ("São Paulo", coords (-23550500) (-46633300));
    ("Santos", coords (-23960800) (-46333900));
    ("Red Bull Bragantino", coords (-22951900) (-46541900));
    ("Grêmio", coords (-30034600) (-51217700));
    ("Internacional", coords (-30034600) (-51217700));
    ("Atlético-MG", coords (-19916700) (-43934500));
    ("Cruzeiro", coords (-19916700) (-43934500));
    ("América-MG", coords (-19916700) (-43934500));
    ("Athletico-PR", coords (-25429000) (-49267100));
    ("Coritiba", coords (-25429000) (-49267100));
    ("Bahia", coords (-12971400) (-38501400));
    ("Vitória", coords (-12971400) (-38501400));
    ("Fortaleza", coords (-3717200) (-38543300));
    ("Ceará", coords (-3717200) (-38543300));
    ("Cuiabá", coords (-15601400) (-56097800));
    ("Goiás", coords (-16686900) (-49264800));
    ("Atlético-GO", coords (-16686900) (-49264800));
    ("Sport", coords (-8057800) (-34877800));
    ("Juventude", coords (-29167800) (-51179400));
    ("Criciúma", coords (-28677500) (-49370300));
    ("Avaí", coords (-27595400) (-48548000));
    ("Chapecoense", coords (-27100400) (-52615200))
  ].

Definition CAPITAL_COORDINATES : list (string * (Qc * Qc)) :=
  [
    ("AC", coords (-9974990) (-67807600));
    ("AL", coords (-9665990) (-35735000));
    ("AP", coords (34934) (-51069400));
    ("AM", coords (-3118660) (-60021200));
    ("BA", coords (-12971100) (-38510800));
    ("CE", coords (-3717220) (-38543100));
    ("DF", coords (-15779700) (-47929700));
    ("ES", coords (-20315500) (-40312800));
    ("GO", coords (-16686900) (-49264800));
    ("MA", coords (-2529720) (-44302800));
    ("MT", coords (-15601000) (-56097400));
    ("MS", coords (-20442800) (-54646400));
    ("MG", coords (-19920900) (-43937800));
    ("PA", coords (-1455020) (-48502400));
    ("PB", coords (-7115320) (-34861000));
    ("PR", coords (-25428400) (-49273300));
    ("PE", coords (-8054280) (-34881300));
    ("PI", coords (-5089210) (-42801600));
    ("RJ", coords (-22906800) (-43172900));
    ("RN", coords (-5795000) (-35209400));
    ("RS", coords (-30033100) (-51230000));
    ("RO", coords (-8761160) (-63903900));
    ("RR", coords (2819540) (-60673300));
    ("SC", coords (-27594500) (-48547700));
    ("SP", coords (-23550500) (-46633300));
    ("SE", coords (-10911100) (-37071700));
    ("TO", coords (-10184400) (-48333600))
  ].

Definition normalize_team_name (name : string) : string :=
  PyStr.lower
    (PyStr.strip
       (PyStr.replace "F.C." ""
          (PyStr.replace "FC" ""
             (PyStr.replace "." ""
                (PyStr.replace "-" " " name))))).

Definition _resolve_team_coords (team : string) (teams_info : option (list TeamInfo))
  : option (Qc * Qc) :=
  let override :=
    match teams_info with
    | Some info =>
      head (filter (fun r => PyStr.lower (nome_time r) = PyStr.lower team) info)
    | None => None
    end in
  match override with
  | Some r => Some (latitude r, longitude r)
  | None => assoc team TEAM_COORDINATES
  end.

Definition _resolve_city_coords (city : string) (capital_hint : option string)
  : option (Qc * Qc) :=
  match capital_hint with
  | None => None
  | Some hint =>
    if PyStr.is_empty hint then None
    else assoc (PyStr.upper hint) CAPITAL_COORDINATES
  end.

(** ** TravelDistanceStage *)

Section Travel.
(** [haversine_distance_km lat1 lon1 lat2 lon2] *)
Variable haversine_distance_km : Qc -> Qc -> Qc -> Qc -> Qc.

(** [city_hint] and [state_hint] of a row *)
Definition hints (city_state_map : option (gmap string string)) (city_field : string)
  : option string * option string :=
  match PyStr.rsplit_dash city_field with
  | Some (city, state) => (Some (PyStr.strip city), Some (PyStr.strip state))
  | None => (None, city_state_map ≫= (fun d => d !! city_field))
  end.

(** [city_hint and normalize_team_name(team) in normalize_team_name(city_hint)] *)
Definition plays_at_home (team : string) (city_hint : option string) : bool :=
  match city_hint with
  | None => false
  | Some hint =>
    negb (PyStr.is_empty hint) &&
    PyStr.contains (normalize_team_name team) (normalize_team_name hint)
  end.

(** The body of the inner loop: the cell written at [df.at[idx, col]]. *)
Definition travel_cell (teams_info_df : option (list TeamInfo))
    (match_coords : option (Qc * Qc)) (city_hint : option string) (team : string) : cell :=
  match _resolve_team_coords team teams_info_df, match_coords with
  | Some base_coords, Some match_coords =>
    if plays_at_home team city_hint then CFloat (Q2Qc 0)
    else CFloat (haversine_distance_km (fst base_coords) (snd base_coords)
                                       (fst match_coords) (snd match_coords))
  | _, _ => CNone
  end.

Definition travel_row (teams_info_df : option (list TeamInfo))
    (city_state_map : option (gmap string string)) (m : Match) : Row :=
  let city_field := default "" (cidade_jogo m) in
  let '(city_hint, state_hint) := hints city_state_map city_field in
  let city :=
    match city_hint with
    | Some hint => if PyStr.is_empty hint then city_field else hint
    | None => city_field
    end in
  let match_coords := _resolve_city_coords city state_hint in
  {| base := m;
     extra := [("travel_km_home", travel_cell teams_info_df match_coords city_hint (time_casa m));
               ("travel_km_away", travel_cell teams_info_df match_coords city_hint (time_fora m))] |}.

Definition compute_travel_distance (matches_df : list Match)
    (teams_info_df : option (list TeamInfo))
    (city_state_map : option (gmap string string)) : list Row :=
  travel_row teams_info_df city_state_map <$> matches_df.
End Travel.

(** ** Vocabulary of the properties *)

#[global] Instance side_eq_dec : EqDecision side.
Proof. solve_decision. Defined.

Definition ids (df : list Match) : list Z := id_partida <$> df.

(** [team] is one of the two sides of [m]. *)
Definition plays (team : string) (m : Match) : Prop :=
  time_casa m = team ∨ time_fora m = team.

#[global] Instance plays_dec team m : Decision (plays team m).
Proof. unfold plays. apply _. Defined.

(** The last match of [team] among [earlier], the matches already scanned. *)
Definition previous_match (team : string) (earlier : list Match) : option Match :=
  last (filter (plays team) earlier).

(** [last_played] after the scan of [earlier]. *)
Definition last_played_after (earlier : list Match) : gmap string Z :=
  foldl (fun lp m => snd (rest_step lp m)) ∅ earlier.

(** The matches of a table dated before, and not after, a date. *)
Definition dated_before (d : Z) (df : list Match) : list Match :=
  filter (fun m => data m < d) df.

Definition dated_upto (d : Z) (df : list Match) : list Match :=
  filter (fun m => data m <= d) df.

(** The observations of a team in chronological order, those of one date in
    the order of [long_rows]. *)
Definition by_obs_date (a b : LongRow) : bool := lr_data a <=? lr_data b.

Definition team_observations (team : string) (df : list Match) : list LongRow :=
  sort_values by_obs_date (filter (same_team team) (long_rows df)).

Definition obs (s : side) (m : Match) : LongRow :=
  match s with Home => home_obs m | Away => away_obs m end.

Definition obs_key (r : LongRow) : Z * side := (lr_id_partida r, lr_side r).

(** The rows of [l] before the observation [k]. *)
Fixpoint rows_before (k : Z * side) (l : list LongRow) : list LongRow :=
  match l with
  | [] => []
  | r :: l' => if decide (obs_key r = k) then [] else r :: rows_before k l'
  end.

(** The observations of the team of [r] that precede [r]. *)
Definition prior_observations (df : list Match) (r : LongRow) : list LongRow :=
  rows_before (obs_key r) (team_observations (lr_team r) df).

(** The last [w] elements of a list. *)
Definition trailing {A : Type} (w : nat) (l : list A) : list A :=
  drop (length l - w)%nat l.

(** The mean of the last [w] prior values of a metric. *)
Definition prior_mean (w : nat) (metric : LongRow -> option Qc) (prior : list LongRow)
  : option Qc :=
  window_mean (trailing w (metric <$> prior)).

(** The four cells a side of a match receives. *)
Definition roll_cells (df : list Match) (window : Z) (s : side) (m : Match)
  : list (string * cell) :=
  (fun mt : string * (LongRow -> option Qc) =>
     (fst mt +:+ "_roll" +:+ suffix_of window s,
      float_cell (prior_mean (Z.to_nat window) (snd mt) (prior_observations df (obs s m)))))
  <$> metrics.

(** The cell of the column of [metric] and [s] in the row of match [mid]. *)
Definition rolling_cell (out : list Row) (mid : Z) (metric : string) (window : Z) (s : side)
  : option cell :=
  row_of mid out ≫= col (metric +:+ "_roll" +:+ suffix_of window s).

(** The id of a match, once per side [team] has in it. *)
Definition appearances (team : string) (m : Match) : list Z :=
  ((if decide (time_casa m = team) then [id_partida m] else []) ++
   (if decide (time_fora m = team) then [id_partida m] else [])).

(** The ids of the matches of [team] dated before [match_date], in the
    order [sort_values("data")] gives the table. *)
Definition team_history (quicksort : list Z -> list nat) (df : list Match)
    (team : string) (match_date : Z) : list Z :=
  flat_map (appearances team) (dated_before match_date (sort_values_data quicksort df)).

(** The rows of [player_stats_df] that count for a team and a set of
    matches. *)
Definition recent_rows (player_stats_df : list PlayerStat) (team : string) (recent : list Z)
  : list PlayerStat :=
  filter (fun r => ps_time r = team ∧ ps_id_partida r ∈ recent) player_stats_df.

(** [a] is ranked before [b]: a greater score, or the same score and at
    least as many goals. *)
Definition ranked_before (a b : KeyPlayer) : Prop :=
  kp_score b < kp_score a ∨ (kp_score a = kp_score b ∧ kp_gols b <= kp_gols a).

(** The first row of the override table whose name is that of [team] but
    for case. *)
Definition override_row (team : string) (teams_info : option (list TeamInfo))
  : option TeamInfo :=
  teams_info ≫= (fun info =>
    head (filter (fun r => PyStr.lower (nome_time r) = PyStr.lower team) info)).

(** The three feature rows of a match, by its id. *)
Definition rest_row (quicksort : list Z -> list nat) (df : list Match) (mid : Z)
  : option Row :=
  row_of mid (compute_rest_days quicksort df).

Definition rolling_row (df : list Match) (window : Z) (mid : Z) : result (option Row) :=
  out ← compute_rolling_stats df window; Ok (row_of mid out).

Definition key_players_row (quicksort : list Z -> list nat) (df : list Match)
    (player_stats_df : list PlayerStat) (window top_n : Z) (mid : Z) : option Row :=
  row_of mid (compute_key_players quicksort df player_stats_df window top_n).

(** The relation of a boolean order, and the lists it sorts. *)
Definition le_of {A : Type} (leb : A -> A -> bool) (a b : A) : Prop := leb a b = true.

Definition sorted_by {A : Type} (leb : A -> A -> bool) (l : list A) : Prop :=
  StronglySorted (le_of leb) l.

(** The value [transform] gives the row [r] of [long_df]: the mean over the
    rows of its team before it. *)
Definition rolled_value (long_df : list LongRow) (w : nat)
    (metric : LongRow -> option Qc) (r : LongRow) : option Qc :=
  prior_mean w metric (filter (same_team (lr_team r)) (rows_before (obs_key r) long_df)).

Definition rolled_cells (long_df : list LongRow) (window : Z) (suffix : string)
    (r : LongRow) : list (string * cell) :=
  (fun mt : string * (LongRow -> option Qc) =>
     (fst mt +:+ "_roll" +:+ suffix,
      float_cell (rolled_value long_df (Z.to_nat window) (snd mt) r)))
  <$> metrics.

(** The city hint and the coordinates of the city of a match, as the travel
    stage derives them from [cidade_jogo]. *)
Definition city_hint_of (city_state_map : option (gmap string string)) (m : Match)
  : option string :=
  fst (hints city_state_map (default "" (cidade_jogo m))).

Definition match_coords_of (city_state_map : option (gmap string string)) (m : Match)
  : option (Qc * Qc) :=
  _resolve_city_coords (default "" (cidade_jogo m))
    (snd (hints city_state_map (default "" (cidade_jogo m)))).

(** The output of ImportanceScoreStage without standings. *)
Definition null_importance (df : list Match) : list Row :=
  (fun m => {| base := m;
               extra := [("importance_home", CNone); ("importance_away", CNone)] |})
  <$> df.

(** ** Example tables *)

Definition example_match (mid day : Z) (home away : string) (gols_home gols_away : Z)
  : Match :=
  {| id_partida := mid;
     data := day * ns_per_day;
     campeonato := "Série A";
     temporada := Some 2023;
     rodada := Some (RoundInt 1);
     time_casa := home;
     time_fora := away;
     gols_casa := Some gols_home;
     gols_fora := Some gols_away;
     xG_casa := Some (Q2Qc (3 # 2));
     xG_fora := Some (Q2Qc (1 # 2));
     cidade_jogo := None |}.

(** The three matches of the end-to-end example of the specification. *)
Definition flamengo_1 : Match := example_match 1 1 "Flamengo" "Vasco" 2 0.
Definition flamengo_2 : Match := example_match 2 8 "Flamengo" "Santos" 1 1.
Definition flamengo_3 : Match := example_match 3 15 "Flamengo" "Bahia" 3 0.
Definition flamengo_table : list Match := [flamengo_3; flamengo_1; flamengo_2].

(** Two matches of one team with the same timestamp. *)
Definition same_day_1 : Match := example_match 1 10 "Flamengo" "Vasco" 2 0.
Definition same_day_2 : Match := example_match 2 10 "Flamengo" "Botafogo" 1 1.

(** The names of the eight columns of RollingStatsStage, in their order. *)
Definition rolling_column_names (window : Z) : list string :=
  ["goals_for_roll_last" +:+ pretty window +:+ "_home";
   "goals_against_roll_last" +:+ pretty window +:+ "_home";
   "xg_for_roll_last" +:+ pretty window +:+ "_home";
   "xg_against_roll_last" +:+ pretty window +:+ "_home";
   "goals_for_roll_last" +:+ pretty window +:+ "_away";
   "goals_against_roll_last" +:+ pretty window +:+ "_away";
   "xg_for_roll_last" +:+ pretty window +:+ "_away";
   "xg_against_roll_last" +:+ pretty window +:+ "_away"].

(** A team that is not in the built-in table, playing in its own city. *)
Definition mirassol_at_home : Match :=
  {| id_partida := 7;
     data := 20 * ns_per_day;
     campeonato := "Série A";
     temporada := Some 2025;
     rodada := Some (RoundStr "Regular Season - 3");
     time_casa := "Mirassol";
     time_fora := "Santos";
     gols_casa := Some 1;
     gols_fora := Some 1;
     xG_casa := Some (Q2Qc (6 # 5));
     xG_fora := Some (Q2Qc (4 # 5));
     cidade_jogo := Some "Mirassol-SP" |}.

(** A match whose round token holds a superscript digit. *)
Definition superscript_round : Match :=
  {| id_partida := 8;
     data := 21 * ns_per_day;
     campeonato := "Série A";
     temporada := Some 2025;
     rodada := Some (RoundStr "Rodada ²");
     time_casa := "Flamengo";
     time_fora := "Santos";
     gols_casa := None;
     gols_fora := None;
     xG_casa := None;
     xG_fora := None;
     cidade_jogo := None |}.

Definition example_standings : list Standing :=
  [{| st_rodada := 2; st_time := "Flamengo"; st_posicao := 4; st_pontos := Q2Qc 4 |};
   {| st_rodada := 2; st_time := "Santos"; st_posicao := 17; st_pontos := Q2Qc 1 |}].

Definition example_stats : list PlayerStat :=
  [{| ps_id_partida := 1; ps_id_jogador := 10; ps_time := "Flamengo";
      ps_gols := 1; ps_assistencias := 0 |};
   {| ps_id_partida := 1; ps_id_jogador := 11; ps_time := "Flamengo";
      ps_gols := 1; ps_assistencias := 1 |};
   {| ps_id_partida := 2; ps_id_jogador := 10; ps_time := "Flamengo";
      ps_gols := 1; ps_assistencias := 0 |}].

(** ** Vocabulary of the sort by date *)

(** What numpy promises of [argsort]: the positions of the keys, each once,
    in an order in which the keys ascend. *)
Definition argsort_spec (argsort : list Z -> list nat) : Prop :=
  forall keys : list Z,
    argsort keys ≡ₚ seq 0 (length keys) /\
    StronglySorted Z.le (omap (fun i => keys !! i) (argsort keys)).

(** The stable [argsort]: equal keys keep their order. *)
Definition stable_argsort (keys : list Z) : list nat :=
  snd <$> sort_values (fun a b : Z * nat => fst a <=? fst b)
                      (zip keys (seq 0 (length keys))).

(** No team has two observations of one date: it plays at most one match
    on a date, and never itself. *)
Definition one_match_a_day (df : list Match) : Prop :=
  NoDup ((fun r => (lr_team r, lr_data r)) <$> long_rows df).

(** ** Vocabulary of the further properties *)

(** The row [m] with another [cidade_jogo]. *)
Definition played_in (city_field : option string) (m : Match) : Match :=
  {| id_partida := id_partida m;
     data := data m;
     campeonato := campeonato m;
     temporada := temporada m;
     rodada := rodada m;
     time_casa := time_casa m;
     time_fora := time_fora m;
     gols_casa := gols_casa m;
     gols_fora := gols_fora m;
     xG_casa := xG_casa m;
     xG_fora := xG_fora m;
     cidade_jogo := city_field |}.

(** A row of [player_stats_df] of a match of the table and of one of its
    two teams. *)
Definition of_table (df : list Match) (r : PlayerStat) : Prop :=
  Exists (fun m => id_partida m = ps_id_partida r /\ plays (ps_time r) m) df.

#[global] Instance of_table_dec df r : Decision (of_table df r).
Proof. unfold of_table. apply _. Defined.

(** Every byte of a string satisfies [P]. *)
Fixpoint str_forall (P : ascii -> bool) (s : string) : bool :=
  match s with
  | EmptyString => true
  | String c r => P c && str_forall P r
  end.

(** An ASCII character, and one that is not a digit. *)
Definition is_ascii (c : ascii) : bool := (PyStr.code c <? 128)%N.

Definition is_plain (c : ascii) : bool := is_ascii c && negb (PyStr.is_decimal c).

(** A text round of ASCII characters whose digits are no more than [int]
    converts. *)
Definition short_round (s : string) : Prop :=
  str_forall is_ascii s = true /\
  Z.of_nat (String.length (PyStr.digits s)) <= PyStr.max_str_digits.

(** A byte that a normalised team name can hold: no "-", no "." and no
    ASCII capital. *)
Definition is_normal (c : ascii) : bool :=
  negb (PyStr.is_byte 45 c) && negb (PyStr.is_byte 46 c) && negb (PyStr.between 65 90 c).

(** ** data_acquisition/harvester.py: the rounds of the cup *)

Definition CUP_PHASE_ORDER : list string :=
  ["1st"; "2nd"; "3rd"; "Round of 32"; "Round of 16"; "Quarter"; "Semi"; "Final"].

(** The loop of [allowed_copa_round] over [enumerate(CUP_PHASE_ORDER)], from
    the index [idx]: the index of the first label that [text] holds. *)
Fixpoint first_phase (text : string) (idx : nat) (labels : list string) : option nat :=
  match labels with
  | [] => None
  | label :: rest =>
    if PyStr.contains (PyStr.lower label) text then Some idx
    else first_phase text (S idx) rest
  end.

Definition allowed_copa_round (round_str : string) : bool :=
  let text := PyStr.lower round_str in
  match first_phase text 0 CUP_PHASE_ORDER with
  | Some idx => bool_decide (2 <= idx)%nat
  | None => false
  end.

(** What [allowed_competition] reads in a fixture: the round of the league,
    missing or null, and the names of the two teams, [""] when missing. *)
Record Fixture : Type := {
  fx_round : option string;
  fx_home_name : string;
  fx_away_name : string
}.

Section Competition.
(** [is_serie_a_team team_name] *)
Variable is_serie_a_team : string -> bool.

Definition allowed_competition (campeonato : string) (fixture : Fixture) : bool :=
  let round_str := default "" (fx_round fixture) in
  let home_name := fx_home_name fixture in
  let away_name := fx_away_name fixture in
  if String.eqb campeonato "Série A" then true
  else if String.eqb campeonato "Copa do Brasil" then
    if negb (allowed_copa_round round_str) then false
    else is_serie_a_team home_name || is_serie_a_team away_name
  else if String.eqb campeonato "Libertadores" then
    is_serie_a_team home_name || is_serie_a_team away_name
  else false.
End Competition.

(** ** data_acquisition/harvester.py: the daily quota of requests *)

(** The file at [log_path]: missing, a text that [json.loads] rejects, or
    the object [_save] writes. *)
Inductive log_file : Type :=
  | NoFile
  | NotJson
  | Saved (date : string) (count : Z).

(** A [RequestQuota] with the file at its [log_path]. *)
Record RequestQuota : Type := {
  daily_limit : Z;
  state_date : string;
  state_count : Z;
  log : log_file
}.

(** [_save]: the state is written to the file. *)
Definition _save (q : RequestQuota) : RequestQuota :=
  {| daily_limit := daily_limit q;
     state_date := state_date q;
     state_count := state_count q;
     log := Saved (state_date q) (state_count q) |}.

Definition with_state (q : RequestQuota) (date : string) (count : Z) : RequestQuota :=
  {| daily_limit := daily_limit q;
     state_date := date;
     state_count := count;
     log := log q |}.

(** [_load], on the day [today]: the state of the file when it is of
    today, a new one when it is not or cannot be read; then [_save]. *)
Definition _load (today : string) (q : RequestQuota) : RequestQuota :=
  _save
    match log q with
    | NoFile => q
    | NotJson => with_state q today 0
    | Saved date count =>
      if String.eqb date today then with_state q date count
      else with_state q today 0
    end.

(** [RequestQuota(log_path, daily_limit)] on the day [today], with
    [__post_init__]. *)
Definition new_quota (today : string) (file : log_file) (limit : Z) : RequestQuota :=
  _load today
    {| daily_limit := limit; state_date := today; state_count := 0; log := file |}.

Definition remaining (q : RequestQuota) : Z := Z.max (daily_limit q - state_count q) 0.

Definition used_today (q : RequestQuota) : Z := state_count q.

(** [consume(amount)]: the answer and the quota after the call. *)
Definition consume (amount : Z) (q : RequestQuota) : bool * RequestQuota :=
  if remaining q <? amount then (false, q)
  else (true, _save (with_state q (state_date q) (state_count q + amount))).

(** The quota after the calls [consume(a)] for the [a] of a list, in their
    order, whatever they answer. *)
Definition consume_all (amounts : list Z) (q : RequestQuota) : RequestQuota :=
  foldl (fun q a => snd (consume a q)) q amounts.

(** The number of rows of a table that have the id of [m]. *)
Definition copies (df : list Match) (m : Match) : nat :=
  length (filter (fun x => id_partida x = id_partida m) df).

(** * Properties *)

(** ** Sorting *)

Lemma Forall_filter_keep {A : Type} (P Q : A -> Prop) `{!forall x, Decision (Q x)} (l : list A) :
  Forall P l -> Forall P (filter Q l).
Proof.
  rewrite !Forall_forall. intros HP x Hx.
  apply list_elem_of_filter in Hx as [_ Hx]. by apply HP.
Qed.

Lemma filter_none {A : Type} (P : A -> Prop) `{!forall x, Decision (P x)} (l : list A) :
  Forall (fun x => ~ P x) l -> filter P l = [].
Proof.
  induction 1 as [|x l Hx Hl IH]; [done|]. by rewrite filter_cons_False.
Qed.

Lemma NoDup_fmap_elem_inj {A B : Type} (f : A -> B) (l : list A) (x y : A) :
  NoDup (f <$> l) -> x ∈ l -> y ∈ l -> f x = f y -> x = y.
Proof.
  induction l as [|a l IH]; intros Hnd Hx Hy E; [by apply elem_of_nil in Hx|].
  rewrite fmap_cons in Hnd. apply NoDup_cons in Hnd as [Ha Hnd].
  apply elem_of_cons in Hx as [->|Hx]; apply elem_of_cons in Hy as [->|Hy].
  - done.
  - destruct Ha. rewrite E. by apply list_elem_of_fmap_2.
  - destruct Ha. rewrite <- E. by apply list_elem_of_fmap_2.
  - by apply IH.
Qed.

Lemma filter_ext_elem {A : Type} (P Q : A -> Prop) `{!forall x, Decision (P x)}
    `{!forall x, Decision (Q x)} (l : list A) :
  (forall x, x ∈ l -> P x <-> Q x) -> filter P l = filter Q l.
Proof.
  induction l as [|x l IH]; intros Hext; [done|].
  rewrite !filter_cons, IH by (intros y Hy; apply Hext; by right).
  destruct (decide (P x)) as [Hp|Hp].
  - rewrite decide_True; [done|]. apply Hext; [by left|done].
  - rewrite decide_False; [done|]. intros Hq. apply Hp. apply Hext; [by left|done].
Qed.

Lemma filter_all {A : Type} (P : A -> Prop) `{!forall x, Decision (P x)} (l : list A) :
  Forall P l -> filter P l = l.
Proof.
  induction 1 as [|x l Hx Hl IH]; [done|]. by rewrite filter_cons_True, IH.
Qed.

Section SortFacts.
Context {A : Type} (leb : A -> A -> bool).
Hypothesis leb_total : forall a b, leb a b = true \/ leb b a = true.
Hypothesis leb_trans : forall a b c, leb a b = true -> leb b c = true -> leb a c = true.

Lemma insert_sorted_perm (x : A) (l : list A) : insert_sorted leb x l ≡ₚ x :: l.
Proof.
  induction l as [|y l IH]; simpl; [done|].
  destruct (leb x y); [done|].
  rewrite IH. apply Permutation_swap.
Qed.

Lemma sort_values_perm (l : list A) : sort_values leb l ≡ₚ l.
Proof.
  induction l as [|x l IH]; simpl; [done|].
  rewrite insert_sorted_perm. by f_equiv.
Qed.

Lemma sort_values_length (l : list A) : length (sort_values leb l) = length l.
Proof. by rewrite sort_values_perm. Qed.

Lemma insert_sorted_head (x : A) (l : list A) :
  Forall (le_of leb x) l -> insert_sorted leb x l = x :: l.
Proof.
  destruct l as [|y l]; simpl; [done|].
  intros H. apply Forall_cons in H as [Hy _]. unfold le_of in Hy. by rewrite Hy.
Qed.

Lemma insert_sorted_sorted (x : A) (l : list A) :
  sorted_by leb l -> sorted_by leb (insert_sorted leb x l).
Proof.
  induction 1 as [|y l Hl IH Hy]; simpl.
  - repeat constructor.
  - destruct (leb x y) eqn:E.
    + constructor; [by constructor|].
      constructor; [done|].
      eapply Forall_impl; [exact Hy|]. intros z Hz. by eapply leb_trans.
    + constructor; [done|].
      rewrite insert_sorted_perm. constructor; [|done].
      destruct (leb_total x y) as [H|H]; [congruence|done].
Qed.

Lemma sort_values_sorted (l : list A) : sorted_by leb (sort_values leb l).
Proof.
  induction l as [|x l IH]; simpl; [constructor|].
  by apply insert_sorted_sorted.
Qed.

Lemma filter_insert_sorted (P : A -> Prop) `{!forall x, Decision (P x)} (x : A) (l : list A) :
  sorted_by leb l ->
  filter P (insert_sorted leb x l) =
  if decide (P x) then insert_sorted leb x (filter P l) else filter P l.
Proof.
  induction 1 as [|y l Hl IH Hy]; simpl.
  - rewrite filter_cons, filter_nil. by destruct (decide (P x)).
  - destruct (leb x y) eqn:E.
    + rewrite filter_cons. destruct (decide (P x)); [|done].
      symmetry. apply insert_sorted_head.
      apply Forall_filter_keep, Forall_cons. split; [done|].
      eapply Forall_impl; [exact Hy|]. intros z Hz. by eapply leb_trans.
    + rewrite !filter_cons, IH.
      destruct (decide (P y)), (decide (P x)); simpl; by rewrite ?E.
Qed.

Lemma filter_sort_values (P : A -> Prop) `{!forall x, Decision (P x)} (l : list A) :
  filter P (sort_values leb l) = sort_values leb (filter P l).
Proof.
  induction l as [|x l IH]; simpl; [done|].
  rewrite filter_insert_sorted by apply sort_values_sorted.
  rewrite filter_cons, IH. by destruct (decide (P x)).
Qed.

(** Where a list is sorted, what precedes an element is not greater. *)
Lemma sorted_app_le (l1 l2 : list A) (x y : A) :
  sorted_by leb (l1 ++ y :: l2) -> x ∈ l1 -> leb x y = true.
Proof.
  induction l1 as [|z l1 IH]; simpl; intros Hs Hx; [by apply elem_of_nil in Hx|].
  apply StronglySorted_inv in Hs as [Hs Hz].
  apply elem_of_cons in Hx as [->|Hx]; [|by apply IH].
  rewrite Forall_app, Forall_cons in Hz. tauto.
Qed.

(** Sorting the rows that satisfy a downward closed [P] keeps what precedes
    a row that satisfies it. *)
Lemma sort_values_filter_prefix (P : A -> Prop) `{!forall x, Decision (P x)}
    (l before after : list A) (x : A) :
  (forall a b, leb a b = true -> P b -> P a) ->
  sort_values leb l = before ++ x :: after -> P x ->
  sort_values leb (filter P l) = before ++ x :: filter P after.
Proof.
  intros Hdown Hsort Hx.
  rewrite <- filter_sort_values, Hsort.
  rewrite filter_app, filter_cons_True by done. f_equal.
  pose proof (sort_values_sorted l) as Hs. rewrite Hsort in Hs.
  assert (Forall P before) as Hall.
  { rewrite Forall_forall. intros a Ha.
    eapply Hdown; [|exact Hx]. by eapply sorted_app_le. }
  clear -Hall. induction Hall as [|a l' Ha Hl IH]; [done|].
  by rewrite filter_cons_True, IH.
Qed.
End SortFacts.

(** ** The orders of the stages *)

Lemma ascii_compare_refl (c : ascii) : Ascii.compare c c = Eq.
Proof. unfold Ascii.compare. apply N.compare_refl. Qed.

Lemma ascii_compare_lt_trans (a b c : ascii) :
  Ascii.compare a b = Lt -> Ascii.compare b c = Lt -> Ascii.compare a c = Lt.
Proof. unfold Ascii.compare. rewrite !N.compare_lt_iff. lia. Qed.

Lemma string_compare_refl (s : string) : String.compare s s = Eq.
Proof. induction s as [|c s IH]; simpl; [done|]. by rewrite ascii_compare_refl. Qed.

Lemma string_compare_lt_trans (a b c : string) :
  String.compare a b = Lt -> String.compare b c = Lt -> String.compare a c = Lt.
Proof.
  revert b c. induction a as [|x a IH]; intros [|y b] [|z c]; simpl; try done.
  destruct (Ascii.compare x y) eqn:Exy; try done;
    destruct (Ascii.compare y z) eqn:Eyz; try done; intros Hab Hbc.
  - apply Ascii.compare_eq_iff in Exy, Eyz. subst.
    rewrite ascii_compare_refl. by eapply IH.
  - apply Ascii.compare_eq_iff in Exy. subst. by rewrite Eyz.
  - apply Ascii.compare_eq_iff in Eyz. subst. by rewrite Exy.
  - by rewrite (ascii_compare_lt_trans x y z).
Qed.

Lemma by_date_total (a b : Match) : by_date a b = true \/ by_date b a = true.
Proof. unfold by_date. rewrite !Z.leb_le. lia. Qed.

Lemma by_date_trans (a b c : Match) :
  by_date a b = true -> by_date b c = true -> by_date a c = true.
Proof. unfold by_date. rewrite !Z.leb_le. lia. Qed.

Lemma by_obs_date_total (a b : LongRow) : by_obs_date a b = true \/ by_obs_date b a = true.
Proof. unfold by_obs_date. rewrite !Z.leb_le. lia. Qed.

Lemma by_obs_date_trans (a b c : LongRow) :
  by_obs_date a b = true -> by_obs_date b c = true -> by_obs_date a c = true.
Proof. unfold by_obs_date. rewrite !Z.leb_le. lia. Qed.

Lemma by_team_date_total (a b : LongRow) :
  by_team_date a b = true \/ by_team_date b a = true.
Proof.
  unfold by_team_date. rewrite (String.compare_antisym (lr_team a) (lr_team b)).
  destruct (String.compare (lr_team b) (lr_team a)); simpl; auto.
  rewrite !Z.leb_le. lia.
Qed.

Lemma by_team_date_trans (a b c : LongRow) :
  by_team_date a b = true -> by_team_date b c = true -> by_team_date a c = true.
Proof.
  unfold by_team_date.
  destruct (String.compare (lr_team a) (lr_team b)) eqn:Eab; try done;
    destruct (String.compare (lr_team b) (lr_team c)) eqn:Ebc; try done; intros Hab Hbc.
  - apply String.compare_eq_iff in Eab, Ebc.
    rewrite Eab, Ebc, string_compare_refl. rewrite !Z.leb_le in *. lia.
  - apply String.compare_eq_iff in Eab. by rewrite Eab, Ebc.
  - apply String.compare_eq_iff in Ebc. by rewrite <- Ebc, Eab.
  - by rewrite (string_compare_lt_trans _ _ _ Eab Ebc).
Qed.

(** Among the rows of one team, the order of [long_df] is that of the dates. *)
Lemma by_team_date_same_team (a b : LongRow) :
  lr_team a = lr_team b -> by_team_date a b = by_obs_date a b.
Proof.
  intros E. unfold by_team_date, by_obs_date. by rewrite E, string_compare_refl.
Qed.

Lemma same_team_iff (team : string) (r : LongRow) : same_team team r <-> lr_team r = team.
Proof. unfold same_team. rewrite Is_true_true. apply String.eqb_eq. Qed.

Lemma insert_sorted_same_team (team : string) (x : LongRow) (l : list LongRow) :
  lr_team x = team -> Forall (fun r => lr_team r = team) l ->
  insert_sorted by_team_date x l = insert_sorted by_obs_date x l.
Proof.
  intros Hx. induction 1 as [|y l Hy Hl IH]; simpl; [done|].
  rewrite by_team_date_same_team by congruence. by rewrite IH.
Qed.

Lemma sort_values_same_team (team : string) (l : list LongRow) :
  Forall (fun r => lr_team r = team) l ->
  sort_values by_team_date l = sort_values by_obs_date l.
Proof.
  induction 1 as [|x l Hx Hl IH]; simpl; [done|].
  rewrite IH. apply (insert_sorted_same_team team); [done|].
  rewrite Forall_forall in *. intros r Hr. apply Hl.
  by rewrite <- (sort_values_perm by_obs_date l).
Qed.

(** The series of a team in [long_df] is its chronological list of
    observations. *)
Lemma group_is_team_observations (team : string) (df : list Match) :
  filter (same_team team) (sort_values by_team_date (long_rows df)) =
  team_observations team df.
Proof.
  rewrite (filter_sort_values _ by_team_date_total by_team_date_trans).
  apply (sort_values_same_team team).
  rewrite Forall_forall. intros r Hr.
  apply list_elem_of_filter in Hr as [Hr _]. by apply same_team_iff.
Qed.

(** ** [sort_values("data")] *)

Lemma omap_fmap {A B C : Type} (f : B -> option C) (g : A -> B) (l : list A) :
  omap f (g <$> l) = omap (fun x => f (g x)) l.
Proof.
  induction l as [|x l IH]; [done|]. csimpl. by rewrite IH.
Qed.

(** The rows at all the positions, in their order, are the table. *)
Lemma omap_lookup_seq {A : Type} (l : list A) :
  omap (fun i => l !! i) (seq 0 (length l)) = l.
Proof.
  induction l as [|x l IH]; [done|].
  cbn [length seq]. csimpl. rewrite <- fmap_S_seq, omap_fmap.
  f_equal. exact IH.
Qed.

Lemma StronglySorted_of_fmap {A B : Type} (f : A -> B) (R1 : relation A) (R2 : relation B)
    (l : list A) :
  (forall x y, R2 (f x) (f y) -> R1 x y) ->
  StronglySorted R2 (f <$> l) -> StronglySorted R1 l.
Proof.
  intros H. induction l as [|x l IH]; [constructor|].
  rewrite fmap_cons. intros Hs. apply StronglySorted_inv in Hs as [Hs Hx].
  constructor; [by apply IH|].
  rewrite Forall_fmap in Hx. eapply Forall_impl; [exact Hx|]. intros y. apply H.
Qed.

Lemma StronglySorted_filter {A : Type} (R : relation A) (P : A -> Prop)
    `{!forall x, Decision (P x)} (l : list A) :
  StronglySorted R l -> StronglySorted R (filter P l).
Proof.
  induction 1 as [|x l Hl IH Hx]; [constructor|].
  rewrite filter_cons. destruct (decide (P x)); [|done].
  constructor; [done|]. by apply Forall_filter_keep.
Qed.

(** Whatever [quicksort] returns, the sorted table holds rows of the table
    only, and a table without rows stays so. *)
Lemma sort_values_data_subseteq (quicksort : list Z -> list nat) (df : list Match) :
  sort_values_data quicksort df ⊆ df.
Proof.
  intros x (i & _ & Hi)%list_elem_of_omap. by eapply list_elem_of_lookup_2.
Qed.

Lemma sort_values_data_nil (quicksort : list Z -> list nat) :
  sort_values_data quicksort [] = [].
Proof.
  pose proof (sort_values_data_subseteq quicksort []) as H.
  destruct (sort_values_data quicksort []) as [|x l]; [done|].
  exfalso. eapply not_elem_of_nil, H. by left.
Qed.

Section DateOrder.
Variable quicksort : list Z -> list nat.
Hypothesis quicksort_spec : argsort_spec quicksort.

Lemma sort_values_data_perm (df : list Match) : sort_values_data quicksort df ≡ₚ df.
Proof.
  unfold sort_values_data.
  destruct (quicksort_spec (data <$> df)) as [Hperm _].
  rewrite Hperm, length_fmap. by rewrite omap_lookup_seq.
Qed.

Lemma sort_values_data_sorted (df : list Match) :
  sorted_by by_date (sort_values_data quicksort df).
Proof.
  destruct (quicksort_spec (data <$> df)) as [_ Hsorted].
  apply (StronglySorted_of_fmap data _ Z.le).
  { intros x y Hxy. unfold le_of, by_date. by apply Z.leb_le. }
  unfold sort_values_data. rewrite list_fmap_omap.
  erewrite list_omap_ext; [exact Hsorted|].
  apply Forall2_same_length_lookup. split; [done|].
  intros i x y Hx Hy. rewrite Hx in Hy. injection Hy as <-.
  by rewrite list_lookup_fmap.
Qed.

Lemma sort_values_data_length (df : list Match) :
  length (sort_values_data quicksort df) = length df.
Proof. by rewrite sort_values_data_perm. Qed.

(** The chronological order: the rows of the input, each as often as it is
    there, by ascending date. *)
Lemma chronological_order (df : list Match) :
  sorted_by by_date (sort_values_data quicksort df) /\
  (sort_values_data quicksort df ≡ₚ df).
Proof. split; [apply sort_values_data_sorted|apply sort_values_data_perm]. Qed.

(** Where a table is sorted, the rows dated before a row come before it. *)
Lemma sorted_dated_before (earlier later : list Match) (m : Match) :
  sorted_by by_date (earlier ++ m :: later) ->
  dated_before (data m) (earlier ++ m :: later) = dated_before (data m) earlier.
Proof.
  intros Hs. unfold dated_before.
  rewrite filter_app, filter_cons_False by lia.
  rewrite (filter_none _ later); [by rewrite app_nil_r|].
  apply StronglySorted_app in Hs as (_ & _ & Hs).
  apply StronglySorted_inv in Hs as [_ Hm].
  eapply Forall_impl; [exact Hm|]. intros x Hx.
  unfold le_of, by_date in Hx. apply Z.leb_le in Hx. lia.
Qed.
End DateOrder.

(** The stable [argsort] is one of those numpy may return. *)
Lemma stable_argsort_spec : argsort_spec stable_argsort.
Proof.
  intros keys. unfold stable_argsort.
  set (leb := fun a b : Z * nat => fst a <=? fst b).
  assert (forall a b, leb a b = true \/ leb b a = true) as Htotal.
  { intros a b. unfold leb. rewrite !Z.leb_le. lia. }
  assert (forall a b c, leb a b = true -> leb b c = true -> leb a c = true) as Htrans.
  { intros a b c. unfold leb. rewrite !Z.leb_le. lia. }
  split.
  - rewrite sort_values_perm, snd_zip; [done|]. by rewrite length_seq.
  - assert (omap (fun i => keys !! i)
                 (snd <$> sort_values leb (zip keys (seq 0 (length keys)))) =
            fst <$> sort_values leb (zip keys (seq 0 (length keys)))) as ->.
    { rewrite omap_fmap.
      assert (Forall (fun ki : Z * nat => keys !! snd ki = Some (fst ki))
                (sort_values leb (zip keys (seq 0 (length keys))))) as Hall.
      { rewrite Forall_forall. intros [k i] Hki. rewrite sort_values_perm in Hki.
        apply list_elem_of_lookup in Hki as (j & Hj).
        apply lookup_zip_with_Some in Hj as (k' & i' & [= <- <-] & Hk & Hi).
        apply lookup_seq in Hi as [-> _]. done. }
      induction Hall as [|[k i] l Hki Hl IH]; [done|].
      csimpl. simpl in Hki. by rewrite Hki, IH. }
    apply (StronglySorted_fmap _ (le_of leb)).
    + intros x y Hxy. unfold le_of, leb in Hxy. by apply Z.leb_le.
    + by apply sort_values_sorted.
Qed.

(** The observations of a team are its rows of [long_rows], by date. *)
Lemma team_observations_chronological (team : string) (df : list Match) :
  sorted_by by_obs_date (team_observations team df) /\
  (team_observations team df ≡ₚ filter (same_team team) (long_rows df)).
Proof.
  split; [|apply sort_values_perm].
  apply sort_values_sorted; [apply by_obs_date_total|apply by_obs_date_trans].
Qed.

(** ** RestDaysStage *)

Lemma rest_scan_app (lp : gmap string Z) (l1 l2 : list Match) :
  rest_scan lp (l1 ++ l2) =
  rest_scan lp l1 ++ rest_scan (foldl (fun lp m => snd (rest_step lp m)) lp l1) l2.
Proof.
  revert lp. induction l1 as [|m l1 IH]; intros lp; simpl; [done|].
  by rewrite IH.
Qed.

Lemma rest_scan_base (lp : gmap string Z) (l : list Match) :
  base <$> rest_scan lp l = l.
Proof.
  revert lp. induction l as [|m l IH]; intros lp; simpl; [done|].
  by rewrite IH.
Qed.

Lemma rest_scan_length (lp : gmap string Z) (l : list Match) :
  length (rest_scan lp l) = length l.
Proof. by rewrite <- (rest_scan_base lp l) at 2; rewrite length_fmap. Qed.

(** The invariant of the scan: [last_played] holds, for every team, the
    date of its last match among those scanned. *)
Lemma last_played_after_lookup (earlier : list Match) (team : string) :
  last_played_after earlier !! team = data <$> previous_match team earlier.
Proof.
  unfold last_played_after, previous_match.
  induction earlier as [|m l IH] using rev_ind; [done|].
  rewrite foldl_app, filter_app. simpl.
  rewrite filter_cons, filter_nil.
  destruct (decide (plays team m)) as [Hp|Hp].
  - rewrite last_snoc. simpl.
    destruct (decide (time_fora m = team)) as [<-|Hf]; [by rewrite lookup_insert_eq|].
    rewrite lookup_insert_ne by done.
    destruct Hp as [<-|?]; [|done]. by rewrite lookup_insert_eq.
  - rewrite app_nil_r, <- IH. unfold plays in Hp.
    rewrite !lookup_insert_ne by tauto. done.
Qed.


Lemma rest_of_previous (earlier : list Match) (team : string) (d : Z) :
  rest_of (last_played_after earlier) team d =
  match previous_match team earlier with
  | Some p => CInt (days (d - data p))
  | None => CNone
  end.
Proof.
  unfold rest_of. rewrite last_played_after_lookup.
  by destruct (previous_match team earlier).
Qed.





Section RestDaysScan.
Variable quicksort : list Z -> list nat.
Hypothesis quicksort_spec : argsort_spec quicksort.


End RestDaysScan.

(** ** Rows by match id *)

Lemma app_pivot_inj {A : Type} (l1 l2 r1 r2 : list A) (x : A) :
  l1 ++ x :: r1 = l2 ++ x :: r2 -> x ∉ l1 -> x ∉ l2 -> l1 = l2.
Proof.
  revert l2. induction l1 as [|a l1 IH]; intros [|b l2]; simpl; intros E H1 H2.
  - done.
  - injection E as -> _. exfalso. apply H2. by left.
  - injection E as -> _. exfalso. apply H1. by left.
  - injection E as -> E. f_equal. apply IH; [done| |].
    + intros H. apply H1. by right.
    + intros H. apply H2. by right.
Qed.

Section RowsOfTheScan.
Variable quicksort : list Z -> list nat.
Hypothesis quicksort_spec : argsort_spec quicksort.

Lemma ids_sort_values (df : list Match) :
  ids (sort_values_data quicksort df) ≡ₚ ids df.
Proof. unfold ids. by rewrite (sort_values_data_perm quicksort quicksort_spec). Qed.

Lemma NoDup_ids_eq (df : list Match) (a b : Match) :
  NoDup (ids df) -> a ∈ df -> b ∈ df -> id_partida a = id_partida b -> a = b.
Proof.
  unfold ids. induction df as [|m df IH]; simpl; intros Hnd Ha Hb E.
  - by apply elem_of_nil in Ha.
  - apply NoDup_cons in Hnd as [Hm Hnd].
    apply elem_of_cons in Ha as [->|Ha]; apply elem_of_cons in Hb as [->|Hb]; auto.
    + exfalso. apply Hm. rewrite E. by apply list_elem_of_fmap_2.
    + exfalso. apply Hm. rewrite <- E. by apply list_elem_of_fmap_2.
Qed.

Lemma sorted_split (df : list Match) (m : Match) :
  m ∈ df -> exists earlier later, sort_values_data quicksort df = earlier ++ m :: later.
Proof.
  intros Hm. apply list_elem_of_split.
  by rewrite (sort_values_data_perm quicksort quicksort_spec).
Qed.

(** The row of a match in a table that has its id once. *)
Lemma row_of_pivot (out1 out2 : list Row) (r : Row) :
  Forall (fun x => id_partida (base x) ≠ id_partida (base r)) out1 ->
  row_of (id_partida (base r)) (out1 ++ r :: out2) = Some r.
Proof.
  intros H. unfold row_of. rewrite filter_app, filter_cons_True by done.
  replace (filter _ out1) with (@nil Row); [done|].
  symmetry. induction H as [|x l Hx Hl IH]; [done|].
  by rewrite filter_cons_False.
Qed.

Lemma row_of_fmap (f : Match -> Row) (df : list Match) (m : Match) :
  (forall x, base (f x) = x) -> NoDup (ids df) -> m ∈ df ->
  row_of (id_partida m) (f <$> df) = Some (f m).
Proof.
  intros Hf Hnd Hm. apply list_elem_of_split in Hm as (l1 & l2 & ->).
  rewrite fmap_app, fmap_cons.
  rewrite <- (Hf m) at 1. apply row_of_pivot.
  rewrite Forall_fmap, Forall_forall. intros x Hx. simpl. rewrite !Hf.
  unfold ids in Hnd. rewrite fmap_app, fmap_cons in Hnd.
  apply NoDup_app in Hnd as (_ & Hnd & _). intros E.
  apply (Hnd (id_partida x)); [by apply list_elem_of_fmap_2|]. rewrite E. by left.
Qed.

Lemma not_elem_of_earlier (earlier later : list Match) (m : Match) :
  NoDup (ids (earlier ++ m :: later)) -> m ∉ earlier.
Proof.
  unfold ids. rewrite fmap_app, fmap_cons. intros Hnd Hm.
  apply NoDup_app in Hnd as (_ & Hnd & _).
  apply (Hnd (id_partida m)); [by apply list_elem_of_fmap_2|]. by left.
Qed.

Lemma NoDup_ids_sorted (df : list Match) :
  NoDup (ids df) -> NoDup (ids (sort_values_data quicksort df)).
Proof. intros H. by rewrite ids_sort_values. Qed.

(** ** RestDaysStage: what the row of a match depends on *)

Lemma rest_row_scan (df earlier later : list Match) (m : Match) :
  NoDup (ids df) -> sort_values_data quicksort df = earlier ++ m :: later ->
  rest_row quicksort df (id_partida m) =
  Some (fst (rest_step (last_played_after earlier) m)).
Proof.
  intros Hnd Hsort. unfold rest_row, compute_rest_days. rewrite Hsort, rest_scan_app.
  simpl. apply (row_of_pivot _ _ (fst (rest_step _ m))).
  apply NoDup_ids_sorted in Hnd. rewrite Hsort in Hnd.
  rewrite Forall_forall. intros x Hx. simpl.
  apply (list_elem_of_fmap_2 base) in Hx. rewrite rest_scan_base in Hx.
  unfold ids in Hnd. rewrite fmap_app, fmap_cons in Hnd.
  apply NoDup_app in Hnd as (_ & Hnd & _). intros E.
  apply (Hnd (id_partida (base x))); [by apply list_elem_of_fmap_2|]. rewrite E. by left.
Qed.
End RowsOfTheScan.

(** ** KeyPlayersStage: the dictionaries of the stage *)

Lemma to_dict_lookup (pairs : list (Z * Z)) (k v : Z) :
  NoDup (fst <$> pairs) -> (k, v) ∈ pairs -> to_dict pairs !! k = Some v.
Proof.
  unfold to_dict. induction pairs as [|[k' v'] l IH] using rev_ind; intros Hnd Hin.
  - by apply elem_of_nil in Hin.
  - rewrite foldl_app. simpl. rewrite fmap_app in Hnd. simpl in Hnd.
    apply NoDup_app in Hnd as (Hnd & Hk & _).
    apply elem_of_app in Hin as [Hin|Hin].
    + rewrite lookup_insert_ne; [by apply IH|].
      intros ->. apply (Hk k); [|by left].
      by apply (list_elem_of_fmap_2 fst) in Hin.
    + apply list_elem_of_singleton in Hin. injection Hin as -> ->.
      by rewrite lookup_insert_eq.
Qed.

(** [match_date_map[mid]] is the date of the match [mid]. *)
Lemma match_date_map_lookup (df : list Match) (m : Match) :
  NoDup (ids df) -> m ∈ df -> match_date_map df !!! id_partida m = data m.
Proof.
  intros Hnd Hm. unfold match_date_map.
  rewrite (lookup_total_correct _ _ (data m)); [done|].
  apply to_dict_lookup.
  - by rewrite <- list_fmap_compose.
  - by apply (list_elem_of_fmap_2 (fun m => (id_partida m, data m))).
Qed.

Lemma append_match_lookup (tm : gmap string (list Z)) (team team' : string) (mid : Z) :
  default [] (append_match tm team' mid !! team) =
  default [] (tm !! team) ++ (if decide (team' = team) then [mid] else []).
Proof.
  unfold append_match. destruct (decide (team' = team)) as [->|Hne].
  - by rewrite lookup_insert_eq.
  - by rewrite lookup_insert_ne, app_nil_r.
Qed.

Section KeyPlayersRows.
Variable quicksort : list Z -> list nat.

(** [team_matches[team]] lists the matches of the team in the order of the
    sorted table. *)
Lemma team_matches_lookup (df : list Match) (team : string) :
  default [] (team_matches quicksort df !! team) =
  flat_map (appearances team) (sort_values_data quicksort df).
Proof.
  unfold team_matches. generalize (sort_values_data quicksort df). intros l.
  induction l as [|m l IH] using rev_ind; [done|].
  rewrite foldl_app, flat_map_app. simpl.
  rewrite !append_match_lookup, IH, app_nil_r. unfold appearances.
  by rewrite <- app_assoc.
Qed.

Lemma filter_appearances (P : Z -> Prop) `{!forall x, Decision (P x)}
    (Q : Match -> Prop) `{!forall x, Decision (Q x)} (team : string) (l : list Match) :
  Forall (fun m => P (id_partida m) <-> Q m) l ->
  filter P (flat_map (appearances team) l) = flat_map (appearances team) (filter Q l).
Proof.
  induction 1 as [|m l Hm Hl IH]; [done|].
  simpl. rewrite filter_app, IH, filter_cons.
  assert (filter P (appearances team m) =
          if decide (Q m) then appearances team m else []) as ->.
  { unfold appearances.
    destruct (decide (Q m)) as [HQ|HQ];
      destruct (decide (time_casa m = team)), (decide (time_fora m = team)); simpl;
      rewrite ?filter_cons, ?filter_nil;
      try (rewrite !decide_True by tauto); try (rewrite !decide_False by tauto); done. }
  by destruct (decide (Q m)).
Qed.

(** The history of a team before a date is made of the matches dated before
    it, and of nothing else. *)
Lemma history_ids_dated_before (df : list Match) (team : string) (match_date : Z) :
  NoDup (ids df) ->
  history_ids (team_matches quicksort df) (match_date_map df) team match_date =
  team_history quicksort df team match_date.
Proof.
  intros Hnd. unfold history_ids, team_history, dated_before.
  rewrite team_matches_lookup.
  apply filter_appearances. rewrite Forall_forall. intros m Hm.
  apply sort_values_data_subseteq in Hm. by rewrite match_date_map_lookup.
Qed.

Lemma key_dict_lookup (ps : list PlayerStat) (df : list Match) (window top_n : Z)
    (s : side) (m : Match) :
  NoDup (ids df) -> m ∈ df ->
  key_dict quicksort ps df window top_n s !! id_partida m =
  Some (key_players_of ps (team_matches quicksort df) (match_date_map df) window top_n
          (team_of s m) (data m)).
Proof.
  intros Hnd Hm. unfold key_dict.
  rewrite <- (match_date_map_lookup df m Hnd Hm).
  generalize (team_matches quicksort df) (match_date_map df). intros tm dates.
  clear -Hnd Hm. unfold ids in Hnd.
  induction df as [|x l IH] using rev_ind; [by apply elem_of_nil in Hm|].
  rewrite foldl_app. simpl. rewrite fmap_app in Hnd. simpl in Hnd.
  apply NoDup_app in Hnd as (Hnd & Hx & _).
  apply elem_of_app in Hm as [Hm|Hm].
  - rewrite lookup_insert_ne; [by apply IH|].
    intros E. apply (Hx (id_partida m)); [by apply list_elem_of_fmap_2|].
    rewrite E. by left.
  - apply list_elem_of_singleton in Hm as ->. by rewrite lookup_insert_eq.
Qed.

(** The row of a match in the output of the stage. *)
Lemma key_players_row_eq (df : list Match) (ps : list PlayerStat) (window top_n : Z)
    (m : Match) :
  NoDup (ids df) -> m ∈ df ->
  key_players_row quicksort df ps window top_n (id_partida m) =
  Some {| base := m;
          extra :=
            [("key_players_home",
              CPlayers (key_players_of ps (team_matches quicksort df) (match_date_map df)
                          window top_n (time_casa m) (data m)));
             ("key_players_away",
              CPlayers (key_players_of ps (team_matches quicksort df) (match_date_map df)
                          window top_n (time_fora m) (data m)))] |}.
Proof.
  intros Hnd Hm. unfold key_players_row, compute_key_players.
  rewrite (row_of_fmap _ df m) by done.
  unfold map_cell.
  by rewrite (key_dict_lookup ps df window top_n Home m),
             (key_dict_lookup ps df window top_n Away m).
Qed.

End KeyPlayersRows.

Lemma key_players_of_history (ps : list PlayerStat) (tm tm' : gmap string (list Z))
    (dates dates' : gmap Z Z) (window top_n : Z) (team : string) (d : Z) :
  history_ids tm dates team d = history_ids tm' dates' team d ->
  key_players_of ps tm dates window top_n team d =
  key_players_of ps tm' dates' window top_n team d.
Proof. intros E. unfold key_players_of, recent_ids. by rewrite E. Qed.

(** ** RollingStatsStage: the rolled value of an observation *)

Lemma mapM_Ok {A B : Type} (f : A -> result B) (g : A -> B) (l : list A) :
  Forall (fun x => f x = Ok (g x)) l -> mapM f l = Ok (g <$> l).
Proof.
  induction 1 as [|x l Hx Hl IH]; [done|].
  cbn. rewrite Hx. cbn. unfold fmap in IH. by rewrite IH.
Qed.

Lemma bind_Ok {A B : Type} (a : A) (k : A -> result B) : Ok a ≫= k = k a.
Proof. done. Qed.

Lemma Ok_inj {A : Type} (a b : A) : Ok a = Ok b -> a = b.
Proof. by intros [= ->]. Qed.

Lemma mapM_Raise {A B : Type} (f : A -> result B) (e : exn) (x : A) (l : list A) :
  f x = Raise e -> mapM f (x :: l) = Raise e.
Proof. intros H. cbn. by rewrite H. Qed.

Lemma imap_lookup_fmap {A B : Type} (f : nat -> A -> B) (g : A -> B) (l : list A) :
  (forall i x, l !! i = Some x -> f i x = g x) -> imap f l = g <$> l.
Proof.
  intros H. rewrite <- (imap_const g). apply imap_ext. exact H.
Qed.

Lemma rolling_mean_lookup (w p : nat) (series : list (option Qc)) :
  (p < length series)%nat ->
  rolling_mean w series !! p = Some (window_mean (window_at w p series)).
Proof.
  intros Hp. unfold rolling_mean.
  by rewrite list_lookup_fmap, lookup_seq_lt.
Qed.

Lemma shift1_length {A : Type} (series : list (option A)) :
  length (shift1 series) = length series.
Proof. unfold shift1. rewrite length_take. simpl. lia. Qed.

(** A window of the shifted series holds the values before the position. *)
Lemma window_at_shift1 {A : Type} (w p : nat) (series : list (option A)) :
  (p < length series)%nat ->
  window_at w p (shift1 series) = drop (S p - w) (None :: take p series).
Proof.
  intros Hp. unfold window_at, shift1. f_equal.
  rewrite take_take. replace (S p `min` length series)%nat with (S p) by lia. done.
Qed.

Lemma window_mean_None_cons (vals : list (option Qc)) :
  window_mean (None :: vals) = window_mean vals.
Proof. done. Qed.

Lemma window_mean_shifted (w : nat) (vals : list (option Qc)) :
  (1 <= w)%nat ->
  window_mean (drop (S (length vals) - w) (None :: vals)) = window_mean (trailing w vals).
Proof.
  intros Hw. unfold trailing.
  destruct (decide (length vals < w)%nat) as [Hlt|Hge].
  - replace (S (length vals) - w)%nat with 0%nat by lia.
    replace (length vals - w)%nat with 0%nat by lia. done.
  - replace (S (length vals) - w)%nat with (S (length vals - w)) by lia. done.
Qed.

(** The value [shift(1).rolling(w, min_periods=1).mean()] gives at a
    position is the mean of the last [w] values before it. *)
Lemma rolling_mean_shifted_lookup (w p : nat) (series : list (option Qc)) :
  (1 <= w)%nat -> (p < length series)%nat ->
  rolling_mean w (shift1 series) !! p = Some (window_mean (trailing w (take p series))).
Proof.
  intros Hw Hp.
  rewrite rolling_mean_lookup by (by rewrite shift1_length).
  rewrite window_at_shift1 by done.
  rewrite <- window_mean_shifted by done.
  by rewrite length_take_le by lia.
Qed.

(** *** Rows before an observation *)

Lemma rows_before_take (k : Z * side) (l : list LongRow) (i : nat) (r : LongRow) :
  NoDup (obs_key <$> l) -> l !! i = Some r -> obs_key r = k ->
  rows_before k l = take i l.
Proof.
  revert i. induction l as [|x l IH]; intros i Hnd Hi Hk; [done|].
  rewrite fmap_cons in Hnd. apply NoDup_cons in Hnd as [Hx Hnd].
  destruct i as [|i]; simpl in *.
  - injection Hi as ->. by rewrite decide_True.
  - rewrite decide_False.
    + f_equal. by apply IH.
    + intros E. apply Hx. rewrite E, <- Hk.
      apply list_elem_of_fmap_2. by eapply list_elem_of_lookup_2.
Qed.

Lemma rows_before_filter (P : LongRow -> Prop) `{!forall x, Decision (P x)}
    (k : Z * side) (l : list LongRow) :
  Forall (fun x => obs_key x = k -> P x) l ->
  rows_before k (filter P l) = filter P (rows_before k l).
Proof.
  induction 1 as [|x l Hx Hl IH]; [done|].
  simpl. destruct (decide (obs_key x = k)) as [E|E].
  - rewrite filter_cons_True by auto. simpl. by rewrite decide_True.
  - rewrite !filter_cons. destruct (decide (P x)); [|done].
    simpl. by rewrite decide_False, IH.
Qed.

Lemma rows_before_split (k : Z * side) (l : list LongRow) (r : LongRow) :
  r ∈ l -> obs_key r = k -> NoDup (obs_key <$> l) ->
  exists rest, l = rows_before k l ++ r :: rest.
Proof.
  induction l as [|x l IH]; intros Hr Hk Hnd; [by apply elem_of_nil in Hr|].
  rewrite fmap_cons in Hnd. apply NoDup_cons in Hnd as [Hx Hnd].
  simpl. destruct (decide (obs_key x = k)) as [E|E].
  - apply elem_of_cons in Hr as [->|Hr]; [by exists l|].
    exfalso. apply Hx. rewrite E, <- Hk. by apply list_elem_of_fmap_2.
  - apply elem_of_cons in Hr as [->|Hr]; [done|].
    destruct (IH Hr Hk Hnd) as [rest Hrest]. exists rest. simpl. by f_equal.
Qed.

Lemma rows_before_not_elem (k : Z * side) (l : list LongRow) (r : LongRow) :
  obs_key r = k -> r ∉ rows_before k l.
Proof.
  intros Hk. induction l as [|x l IH]; simpl; [apply not_elem_of_nil|].
  destruct (decide (obs_key x = k)) as [E|E]; [apply not_elem_of_nil|].
  rewrite not_elem_of_cons. split; [|done]. intros ->. done.
Qed.

(** *** The keys of the observations *)

Lemma long_rows_keys (df : list Match) :
  obs_key <$> long_rows df =
  flat_map (fun m => [(id_partida m, Home); (id_partida m, Away)]) df.
Proof.
  unfold long_rows. induction df as [|m df IH]; [done|].
  cbn [flat_map app]. by rewrite !fmap_cons, IH.
Qed.

Lemma NoDup_long_rows (df : list Match) :
  NoDup (ids df) -> NoDup (obs_key <$> long_rows df).
Proof.
  rewrite long_rows_keys. unfold ids.
  induction df as [|m df IH]; simpl; intros Hnd; [constructor|].
  apply NoDup_cons in Hnd as [Hm Hnd].
  assert (forall s, (id_partida m, s) ∉
            flat_map (fun m => [(id_partida m, Home); (id_partida m, Away)]) df) as Hs.
  { intros s Hin. apply list_elem_of_In, in_flat_map in Hin as (x & Hx & Hin).
    apply Hm. apply list_elem_of_In in Hx.
    simpl in Hin. destruct Hin as [E|[E|[]]]; injection E as E _;
      rewrite <- E; by apply list_elem_of_fmap_2. }
  constructor.
  - rewrite not_elem_of_cons. split; [done|apply Hs].
  - constructor; [apply Hs|by apply IH].
Qed.

Lemma elem_of_long_rows (df : list Match) (r : LongRow) :
  r ∈ long_rows df <-> exists m s, m ∈ df /\ r = obs s m.
Proof.
  unfold long_rows. rewrite list_elem_of_In, in_flat_map. split.
  - intros (m & Hm & Hr). apply list_elem_of_In in Hm.
    simpl in Hr. destruct Hr as [<-|[<-|[]]]; [by exists m, Home|by exists m, Away].
  - intros (m & s & Hm & ->). exists m. split; [by apply list_elem_of_In|].
    destruct s; simpl; auto.
Qed.

Lemma obs_key_obs (s : side) (m : Match) : obs_key (obs s m) = (id_partida m, s).
Proof. by destruct s. Qed.

Lemma lr_team_obs (s : side) (m : Match) : lr_team (obs s m) = team_of s m.
Proof. by destruct s. Qed.

Lemma obs_id (s : side) (m : Match) : lr_id_partida (obs s m) = id_partida m.
Proof. by destruct s. Qed.

Lemma obs_side (s : side) (m : Match) : lr_side (obs s m) = s.
Proof. by destruct s. Qed.

(** *** [transform], [with_rolls], [side_stats] and [join] *)

Lemma filter_fmap {A B : Type} (f : A -> B) (P : B -> Prop) `{!forall x, Decision (P x)}
    (l : list A) :
  filter P (f <$> l) = f <$> filter (fun x => P (f x)) l.
Proof.
  induction l as [|x l IH]; [done|].
  rewrite fmap_cons, !filter_cons, IH. by destruct (decide (P (f x))).
Qed.

Lemma key_inj (l : list LongRow) (x y : LongRow) :
  NoDup (obs_key <$> l) -> x ∈ l -> y ∈ l -> obs_key x = obs_key y -> x = y.
Proof.
  induction l as [|z l IH]; intros Hnd Hx Hy E; [by apply elem_of_nil in Hx|].
  rewrite fmap_cons in Hnd. apply NoDup_cons in Hnd as [Hz Hnd].
  apply elem_of_cons in Hx as [->|Hx]; apply elem_of_cons in Hy as [->|Hy]; auto.
  - exfalso. apply Hz. rewrite E. by apply list_elem_of_fmap_2.
  - exfalso. apply Hz. rewrite <- E. by apply list_elem_of_fmap_2.
Qed.

Lemma filter_unique_key (l : list LongRow) (x : LongRow) :
  NoDup (obs_key <$> l) -> x ∈ l -> filter (fun y => obs_key y = obs_key x) l = [x].
Proof.
  induction l as [|z l IH]; intros Hnd Hx; [by apply elem_of_nil in Hx|].
  rewrite fmap_cons in Hnd. apply NoDup_cons in Hnd as [Hz Hnd].
  rewrite filter_cons. destruct (decide (obs_key z = obs_key x)) as [E|E].
  - assert (z = x) as ->.
    { apply elem_of_cons in Hx as [->|Hx]; [done|].
      exfalso. apply Hz. rewrite E. by apply list_elem_of_fmap_2. }
    f_equal. apply filter_none. rewrite Forall_forall. intros y Hy Ey.
    apply Hz. rewrite <- Ey. by apply list_elem_of_fmap_2.
  - apply elem_of_cons in Hx as [->|Hx]; [done|]. by apply IH.
Qed.

(** The position of a row in the series of its team, and the values
    before it. *)
Lemma group_position (long_df : list LongRow) (i : nat) (r : LongRow) :
  long_df !! i = Some r ->
  let team := lr_team r in
  let group := filter (same_team team) long_df in
  let pos := length (filter (same_team team) (take i long_df)) in
  (pos < length group)%nat /\ take pos group = filter (same_team team) (take i long_df).
Proof.
  intros Hi team group pos. subst group pos.
  assert (filter (same_team team) long_df =
          filter (same_team team) (take i long_df) ++
          r :: filter (same_team team) (drop (S i) long_df)) as ->.
  { rewrite <- (take_drop_middle long_df i r Hi) at 1.
    by rewrite filter_app, filter_cons_True by (by apply same_team_iff). }
  rewrite length_app, take_app_length. simpl. split; [lia|done].
Qed.

Lemma transform_Ok (window : Z) (metric : LongRow -> option Qc) (long_df : list LongRow) :
  1 <= window -> NoDup (obs_key <$> long_df) ->
  transform (fun s => _rolling_mean_shifted s window) metric long_df =
  Ok (rolled_value long_df (Z.to_nat window) metric <$> long_df).
Proof.
  intros Hw Hnd. unfold transform.
  rewrite (mapM_Ok _ (fun ir => rolled_value long_df (Z.to_nat window) metric (snd ir))).
  - f_equal. rewrite fmap_imap. by apply imap_lookup_fmap.
  - rewrite Forall_forall. intros [i r] Hir.
    apply elem_of_lookup_imap in Hir as (j & y & E & Hj). injection E as -> ->.
    destruct (group_position long_df j y Hj) as [Hpos Htake].
    unfold _rolling_mean_shifted.
    rewrite (proj2 (Z.ltb_ge window 1)) by lia.
    cbn. f_equal.
    rewrite rolling_mean_shifted_lookup; [|lia|by rewrite length_fmap].
    simpl. unfold rolled_value, prior_mean. do 2 f_equal.
    rewrite <- fmap_take, Htake. do 2 f_equal.
    symmetry. by eapply rows_before_take.
Qed.

Lemma rolling_mean_shifted_Raise (window : Z) :
  window < 1 -> exists e, forall s, _rolling_mean_shifted s window = Raise e.
Proof.
  intros Hw. unfold _rolling_mean_shifted.
  rewrite (proj2 (Z.ltb_lt window 1)) by lia. by eexists.
Qed.

Lemma transform_Raise (window : Z) (e : exn) (metric : LongRow -> option Qc)
    (r : LongRow) (long_df : list LongRow) :
  (forall s, _rolling_mean_shifted s window = Raise e) ->
  transform (fun s => _rolling_mean_shifted s window) metric (r :: long_df) = Raise e.
Proof.
  intros He. unfold transform. rewrite imap_cons.
  apply (mapM_Raise _ e). by rewrite He.
Qed.

Lemma with_rolls_Raise (window : Z) (e : exn) (r : LongRow) (long_df : list LongRow) :
  (forall s, _rolling_mean_shifted s window = Raise e) ->
  with_rolls window (r :: long_df) = Raise e.
Proof.
  intros He. unfold with_rolls, metrics.
  rewrite (mapM_Raise _ e); [done|].
  by rewrite (transform_Raise window e).
Qed.

Lemma with_rolls_Ok (window : Z) (long_df : list LongRow) :
  1 <= window -> NoDup (obs_key <$> long_df) ->
  with_rolls window long_df =
  Ok ((fun r => (r, rolled_cells long_df window "" r)) <$> long_df).
Proof.
  intros Hw Hnd. unfold with_rolls, metrics. cbn.
  rewrite !transform_Ok by done. cbn. f_equal.
  apply imap_lookup_fmap. intros i r Hi. unfold rolled_cells, metrics.
  cbn. rewrite !list_lookup_fmap, Hi. done.
Qed.

Lemma side_stats_eq (s : side) (suffix : string) (window : Z) (long_df : list LongRow) :
  side_stats s suffix ((fun r => (r, rolled_cells long_df window "" r)) <$> long_df) =
  (fun r => (lr_id_partida r, rolled_cells long_df window suffix r))
  <$> filter (fun r => lr_side r = s) long_df.
Proof.
  unfold side_stats. rewrite filter_fmap, <- list_fmap_compose. simpl.
  erewrite list_filter_iff; [done|].
  intros r. simpl. destruct (lr_side r), s; simpl; naive_solver.
Qed.

Lemma join_unique (left : list Row) (names : list string)
    (right : list (Z * list (string * cell))) (cells : Row -> list (string * cell)) :
  Forall (fun r => filter (fun e => fst e = id_partida (base r)) right =
                   [(id_partida (base r), cells r)]) left ->
  join left names right = (fun r => add_columns r (cells r)) <$> left.
Proof.
  unfold join. induction 1 as [|r l Hr Hl IH]; [done|].
  cbn [flat_map]. rewrite Hr, IH. done.
Qed.

Lemma stats_of_match (s : side) (suffix : string) (window : Z)
    (long_df : list LongRow) (m : Match) :
  NoDup (obs_key <$> long_df) -> obs s m ∈ long_df ->
  filter (fun e : Z * list (string * cell) => fst e = id_partida m)
    ((fun r => (lr_id_partida r, rolled_cells long_df window suffix r))
     <$> filter (fun r => lr_side r = s) long_df) =
  [(id_partida m, rolled_cells long_df window suffix (obs s m))].
Proof.
  intros Hnd Hin. rewrite filter_fmap. simpl.
  rewrite list_filter_filter.
  erewrite (list_filter_iff _ (fun r => obs_key r = obs_key (obs s m))).
  - rewrite filter_unique_key by done. simpl. by destruct s.
  - intros r. rewrite obs_key_obs. unfold obs_key. simpl. split.
    + by intros [-> ->].
    + by intros [= -> ->].
Qed.

(** *** The output of the stage *)

Lemma NoDup_long_df (df : list Match) :
  NoDup (ids df) -> NoDup (obs_key <$> sort_values by_team_date (long_rows df)).
Proof. intros H. rewrite sort_values_perm. by apply NoDup_long_rows. Qed.

Lemma obs_elem_of_long_df (df : list Match) (s : side) (m : Match) :
  m ∈ df -> obs s m ∈ sort_values by_team_date (long_rows df).
Proof.
  intros Hm. rewrite sort_values_perm. apply elem_of_long_rows. by exists m, s.
Qed.

(** The rows of the team of [r] before [r] in [long_df] are its prior
    observations. *)
Lemma group_rows_before (df : list Match) (s : side) (m : Match) :
  NoDup (ids df) -> m ∈ df ->
  filter (same_team (lr_team (obs s m)))
    (rows_before (obs_key (obs s m)) (sort_values by_team_date (long_rows df))) =
  prior_observations df (obs s m).
Proof.
  intros Hnd Hm. unfold prior_observations.
  rewrite <- group_is_team_observations. symmetry. apply rows_before_filter.
  rewrite Forall_forall. intros x Hx E.
  assert (x = obs s m) as ->; [|by apply same_team_iff].
  eapply key_inj; [by apply NoDup_long_df|done|by apply obs_elem_of_long_df|done].
Qed.

Lemma rolled_cells_eq (df : list Match) (window : Z) (s : side) (m : Match) :
  NoDup (ids df) -> m ∈ df ->
  rolled_cells (sort_values by_team_date (long_rows df)) window (suffix_of window s) (obs s m) =
  roll_cells df window s m.
Proof.
  intros Hnd Hm. unfold rolled_cells, roll_cells, rolled_value.
  by rewrite group_rows_before.
Qed.

Lemma long_rows_nonempty (df : list Match) : df ≠ [] -> long_rows df ≠ [].
Proof. by destruct df. Qed.

(** The output table: one row per match, in the order of the input, with
    the four cells of each side. *)
Lemma compute_rolling_stats_Ok (df : list Match) (window : Z) :
  NoDup (ids df) -> df ≠ [] -> 1 <= window ->
  compute_rolling_stats df window =
  Ok ((fun m => {| base := m;
                   extra := roll_cells df window Home m ++ roll_cells df window Away m |})
      <$> df).
Proof.
  intros Hnd Hne Hw. unfold compute_rolling_stats.
  pose proof (long_rows_nonempty df Hne) as Hl.
  destruct (long_rows df) as [|r0 l0] eqn:El; [done|]. rewrite <- El. clear Hl El r0 l0.
  rewrite with_rolls_Ok by (done || by apply NoDup_long_df).
  rewrite bind_Ok. cbv beta zeta. f_equal. rewrite !side_stats_eq.
  set (long_df := sort_values by_team_date (long_rows df)).
  rewrite (join_unique ((fun m => {| base := m; extra := [] |}) <$> df) _ _
             (fun r => rolled_cells long_df window (suffix_of window Home) (obs Home (base r)))).
  2:{ rewrite Forall_fmap, Forall_forall. intros m Hm. simpl.
      apply stats_of_match; [by apply NoDup_long_df|by apply obs_elem_of_long_df]. }
  rewrite (join_unique _ _ _
             (fun r => rolled_cells long_df window (suffix_of window Away) (obs Away (base r)))).
  2:{ rewrite <- list_fmap_compose, Forall_fmap, Forall_forall. intros m Hm. simpl.
      apply stats_of_match; [by apply NoDup_long_df|by apply obs_elem_of_long_df]. }
  rewrite <- !list_fmap_compose. apply Forall_fmap_ext_1.
  rewrite Forall_forall. intros m Hm.
  unfold add_columns, compose. cbn [base extra app]. subst long_df.
  by rewrite !rolled_cells_eq.
Qed.

Lemma compute_rolling_stats_Raise (df : list Match) (window : Z) (e : exn) :
  df ≠ [] -> (forall s, _rolling_mean_shifted s window = Raise e) ->
  compute_rolling_stats df window = Raise e.
Proof.
  intros Hne He. unfold compute_rolling_stats.
  pose proof (long_rows_nonempty df Hne) as Hl.
  destruct (long_rows df) as [|r0 l0] eqn:El; [done|]. rewrite <- El.
  assert (sort_values by_team_date (long_rows df) ≠ []) as Hs.
  { intros E. apply Hl. rewrite <- El.
    apply Permutation_nil_r. by rewrite <- E, sort_values_perm. }
  destruct (sort_values by_team_date (long_rows df)) as [|r l]; [done|].
  by rewrite (with_rolls_Raise window e).
Qed.

Lemma rolling_row_eq (df : list Match) (window : Z) (m : Match) :
  NoDup (ids df) -> m ∈ df -> 1 <= window ->
  rolling_row df window (id_partida m) =
  Ok (Some {| base := m;
              extra := roll_cells df window Home m ++ roll_cells df window Away m |}).
Proof.
  intros Hnd Hm Hw. unfold rolling_row.
  rewrite compute_rolling_stats_Ok; [|done|by intros ->; apply elem_of_nil in Hm|done].
  rewrite bind_Ok. by rewrite (row_of_fmap _ df m).
Qed.

(** *** What the prior observations depend on *)

Lemma long_rows_dated_upto (d : Z) (df : list Match) :
  filter (fun r => lr_data r <= d) (long_rows df) = long_rows (dated_upto d df).
Proof.
  unfold long_rows, dated_upto. induction df as [|m df IH]; [done|].
  cbn [flat_map app]. rewrite !filter_cons. simpl.
  destruct (decide (data m <= d)); cbn [flat_map app]; by rewrite IH.
Qed.

Lemma team_observations_upto (team : string) (d : Z) (df : list Match) :
  sort_values by_obs_date
    (filter (fun r => lr_data r <= d) (filter (same_team team) (long_rows df))) =
  team_observations team (dated_upto d df).
Proof.
  unfold team_observations. f_equal.
  rewrite <- long_rows_dated_upto, !list_filter_filter.
  apply list_filter_iff. intros r. tauto.
Qed.

Lemma NoDup_team_observations (team : string) (df : list Match) :
  NoDup (ids df) -> NoDup (obs_key <$> team_observations team df).
Proof.
  intros Hnd. unfold team_observations. rewrite sort_values_perm.
  apply NoDup_long_rows in Hnd.
  eapply sublist_NoDup; [exact Hnd|]. apply fmap_sublist, sublist_filter.
Qed.

Lemma obs_elem_of_team_observations (df : list Match) (s : side) (m : Match) :
  m ∈ df -> obs s m ∈ team_observations (lr_team (obs s m)) df.
Proof.
  intros Hm. unfold team_observations. rewrite sort_values_perm.
  apply list_elem_of_filter. split; [by apply same_team_iff|].
  apply elem_of_long_rows. by exists m, s.
Qed.

Lemma lr_data_obs (s : side) (m : Match) : lr_data (obs s m) = data m.
Proof. by destruct s. Qed.

Lemma prior_observations_upto (t1 t2 : list Match) (s : side) (m : Match) :
  NoDup (ids t1) -> NoDup (ids t2) -> m ∈ t1 -> m ∈ t2 ->
  dated_upto (data m) t1 = dated_upto (data m) t2 ->
  prior_observations t1 (obs s m) = prior_observations t2 (obs s m).
Proof.
  intros Hnd1 Hnd2 Hm1 Hm2 Heq. unfold prior_observations.
  set (r := obs s m). set (team := lr_team r).
  assert (forall df, NoDup (ids df) -> m ∈ df -> exists rest,
    team_observations team (dated_upto (data m) df) =
    rows_before (obs_key r) (team_observations team df) ++
    r :: filter (fun x => lr_data x <= data m) rest) as Hsplit.
  { intros df Hnd Hm.
    destruct (rows_before_split (obs_key r) (team_observations team df) r)
      as [rest Hrest]; [by apply obs_elem_of_team_observations|done|
                        by apply NoDup_team_observations|].
    exists rest. rewrite <- team_observations_upto.
    apply (sort_values_filter_prefix by_obs_date by_obs_date_total by_obs_date_trans).
    - intros a b Hab Hb. unfold by_obs_date in Hab. apply Z.leb_le in Hab. lia.
    - exact Hrest.
    - subst r. rewrite lr_data_obs. lia. }
  destruct (Hsplit t1 Hnd1 Hm1) as [rest1 H1].
  destruct (Hsplit t2 Hnd2 Hm2) as [rest2 H2].
  rewrite Heq, H2 in H1.
  symmetry. eapply app_pivot_inj; [exact H1| |]; by apply rows_before_not_elem.
Qed.

Lemma roll_cells_upto (t1 t2 : list Match) (window : Z) (s : side) (m : Match) :
  NoDup (ids t1) -> NoDup (ids t2) -> m ∈ t1 -> m ∈ t2 ->
  dated_upto (data m) t1 = dated_upto (data m) t2 ->
  roll_cells t1 window s m = roll_cells t2 window s m.
Proof.
  intros Hnd1 Hnd2 Hm1 Hm2 Heq. unfold roll_cells.
  by rewrite (prior_observations_upto t1 t2 s m).
Qed.

Lemma rolling_row_upto (t1 t2 : list Match) (window : Z) (m : Match) :
  NoDup (ids t1) -> NoDup (ids t2) -> m ∈ t1 -> m ∈ t2 ->
  dated_upto (data m) t1 = dated_upto (data m) t2 ->
  rolling_row t1 window (id_partida m) = rolling_row t2 window (id_partida m).
Proof.
  intros Hnd1 Hnd2 Hm1 Hm2 Heq.
  destruct (decide (1 <= window)) as [Hw|Hw].
  - rewrite !rolling_row_eq by done.
    by rewrite (roll_cells_upto t1 t2 window Home m), (roll_cells_upto t1 t2 window Away m).
  - destruct (rolling_mean_shifted_Raise window) as [e He]; [lia|].
    unfold rolling_row.
    rewrite !(compute_rolling_stats_Raise _ window e); try done.
    + intros ->. by apply elem_of_nil in Hm2.
    + intros ->. by apply elem_of_nil in Hm1.
Qed.

Lemma team_observations_elem (team : string) (df : list Match) (r : LongRow) :
  r ∈ team_observations team df ->
  lr_team r = team /\ exists m s, m ∈ df /\ r = obs s m.
Proof.
  unfold team_observations. rewrite sort_values_perm.
  intros [Ht Hr]%list_elem_of_filter. split; [by apply same_team_iff|].
  by apply elem_of_long_rows.
Qed.

(** *** Tables in which no team has two matches on one date *)

Lemma one_match_a_day_obs (df : list Match) (r1 r2 : LongRow) :
  one_match_a_day df -> r1 ∈ long_rows df -> r2 ∈ long_rows df ->
  lr_team r1 = lr_team r2 -> lr_data r1 = lr_data r2 -> r1 = r2.
Proof.
  intros Hone H1 H2 Ht Hd.
  apply (NoDup_fmap_elem_inj (fun r => (lr_team r, lr_data r)) (long_rows df)); [done..|].
  by rewrite Ht, Hd.
Qed.

Lemma plays_side (team : string) (m : Match) :
  plays team m -> exists s, team_of s m = team.
Proof. intros [H|H]; [by exists Home|by exists Away]. Qed.

(** Two matches of a team on one date are one match. *)
Lemma one_match_a_day_match (df : list Match) (team : string) (x y : Match) :
  one_match_a_day df -> NoDup (ids df) -> x ∈ df -> y ∈ df ->
  plays team x -> plays team y -> data x = data y -> x = y.
Proof.
  intros Hone Hnd Hx Hy [sx Hsx]%plays_side [sy Hsy]%plays_side Hd.
  apply (NoDup_ids_eq df); [done..|].
  rewrite <- (obs_id sx x), <- (obs_id sy y). f_equal.
  apply (one_match_a_day_obs df); [done| | | |].
  - apply elem_of_long_rows. by exists x, sx.
  - apply elem_of_long_rows. by exists y, sy.
  - by rewrite !lr_team_obs, Hsx, Hsy.
  - by rewrite !lr_data_obs.
Qed.

Lemma flat_map_appearances_plays (team : string) (l : list Match) :
  flat_map (appearances team) l = flat_map (appearances team) (filter (plays team) l).
Proof.
  induction l as [|m l IH]; [done|].
  rewrite filter_cons. destruct (decide (plays team m)) as [Hp|Hp].
  - cbn [flat_map]. by rewrite IH.
  - cbn [flat_map]. rewrite IH. unfold appearances, plays in *.
    by rewrite !decide_False by tauto.
Qed.

Lemma long_rows_dated_before (d : Z) (df : list Match) :
  filter (fun r => lr_data r < d) (long_rows df) = long_rows (dated_before d df).
Proof.
  unfold long_rows, dated_before. induction df as [|m df IH]; [done|].
  cbn [flat_map app]. rewrite !filter_cons. simpl.
  destruct (decide (data m < d)); cbn [flat_map app]; by rewrite IH.
Qed.

Lemma team_observations_before (team : string) (d : Z) (df : list Match) :
  filter (fun r => lr_data r < d) (team_observations team df) =
  team_observations team (dated_before d df).
Proof.
  unfold team_observations.
  rewrite (filter_sort_values by_obs_date by_obs_date_total by_obs_date_trans).
  f_equal. rewrite <- long_rows_dated_before, !list_filter_filter.
  apply list_filter_iff. intros r. tauto.
Qed.

(** The observations of a team before that of a match are those of its
    matches dated before it. *)
Lemma prior_observations_before (df : list Match) (s : side) (m : Match) :
  NoDup (ids df) -> one_match_a_day df -> m ∈ df ->
  prior_observations df (obs s m) =
  team_observations (lr_team (obs s m)) (dated_before (data m) df).
Proof.
  intros Hnd Hone Hm. unfold prior_observations.
  set (r := obs s m). set (team := lr_team r).
  destruct (rows_before_split (obs_key r) (team_observations team df) r)
    as [rest Hrest]; [by apply obs_elem_of_team_observations|done|
                      by apply NoDup_team_observations|].
  destruct (team_observations_chronological team df) as [Hsorted _].
  assert (r ∉ rows_before (obs_key r) (team_observations team df)) as Hnot
    by (by apply rows_before_not_elem).
  assert (forall x, x ∈ team_observations team df ->
            lr_team x = team /\ x ∈ long_rows df) as Helem.
  { intros x Hx. destruct (team_observations_elem _ _ _ Hx) as (Ht & m' & s' & Hm' & ->).
    split; [done|]. apply elem_of_long_rows. by exists m', s'. }
  assert (lr_data r = data m) as Hr by apply lr_data_obs.
  rewrite <- team_observations_before.
  generalize dependent (rows_before (obs_key r) (team_observations team df)).
  intros before Hrest Hnot. rewrite Hrest in Hsorted, Helem |- *.
  rewrite filter_app, filter_cons_False by lia.
  apply StronglySorted_app in Hsorted as (Hle & _ & Hs).
  apply StronglySorted_inv in Hs as [_ Hge].
  rewrite (filter_none _ rest), app_nil_r.
  - symmetry. apply filter_all. rewrite Forall_forall. intros x Hx.
    specialize (Hle x r Hx ltac:(by left)).
    unfold le_of, by_obs_date in Hle. apply Z.leb_le in Hle.
    destruct (decide (lr_data x = lr_data r)) as [E|E]; [exfalso|lia].
    apply Hnot. replace r with x; [done|].
    destruct (Helem x) as [Htx Hlx]; [apply elem_of_app; by left|].
    destruct (Helem r) as [Htr Hlr]; [apply elem_of_app; right; by left|].
    apply (one_match_a_day_obs df); [done..|congruence|done].
  - eapply Forall_impl; [exact Hge|]. intros x Hx.
    unfold le_of, by_obs_date in Hx. apply Z.leb_le in Hx. lia.
Qed.

Lemma rolling_row_before (t1 t2 : list Match) (window : Z) (m : Match) :
  NoDup (ids t1) -> NoDup (ids t2) -> m ∈ t1 -> m ∈ t2 ->
  one_match_a_day t1 -> one_match_a_day t2 ->
  dated_before (data m) t1 = dated_before (data m) t2 ->
  rolling_row t1 window (id_partida m) = rolling_row t2 window (id_partida m).
Proof.
  intros Hnd1 Hnd2 Hm1 Hm2 Hone1 Hone2 Heq.
  destruct (decide (1 <= window)) as [Hw|Hw].
  - rewrite !rolling_row_eq by done. unfold roll_cells.
    by rewrite !(prior_observations_before t1), !(prior_observations_before t2), Heq.
  - destruct (rolling_mean_shifted_Raise window) as [e He]; [lia|].
    unfold rolling_row.
    rewrite !(compute_rolling_stats_Raise _ window e); try done.
    + intros ->. by apply elem_of_nil in Hm2.
    + intros ->. by apply elem_of_nil in Hm1.
Qed.

Section EarlierMatches.
Variable quicksort : list Z -> list nat.
Hypothesis quicksort_spec : argsort_spec quicksort.

(** The matches of a team dated before a date come in one order, whatever
    the tables they are sorted in hold from that date on. *)
Lemma team_scan_unique (t1 t2 : list Match) (team : string) (d : Z) :
  NoDup (ids t1) -> one_match_a_day t1 ->
  dated_before d t1 = dated_before d t2 ->
  filter (plays team) (dated_before d (sort_values_data quicksort t1)) =
  filter (plays team) (dated_before d (sort_values_data quicksort t2)).
Proof.
  intros Hnd Hone Heq.
  assert (forall t, filter (plays team) (dated_before d (sort_values_data quicksort t)) ≡ₚ
                    filter (plays team) (dated_before d t)) as Hperm.
  { intros t. unfold dated_before.
    by rewrite (sort_values_data_perm quicksort quicksort_spec). }
  apply (StronglySorted_unique_strong (le_of by_date)).
  - intros x1 x2 H1 H2 H12 H21.
    rewrite Hperm in H1. rewrite Hperm, <- Heq in H2.
    apply list_elem_of_filter in H1 as [Hp1 [_ H1]%list_elem_of_filter].
    apply list_elem_of_filter in H2 as [Hp2 [_ H2]%list_elem_of_filter].
    apply (one_match_a_day_match t1 team); [done..|].
    unfold le_of, by_date in H12, H21. rewrite Z.leb_le in H12, H21. lia.
  - do 2 apply StronglySorted_filter. by apply sort_values_data_sorted.
  - do 2 apply StronglySorted_filter. by apply sort_values_data_sorted.
  - by rewrite !Hperm, Heq.
Qed.

(** The matches of a team that the scan meets before one of its matches are
    its matches dated before it. *)
Lemma scan_of_team_before (df earlier later : list Match) (m : Match) (team : string) :
  NoDup (ids df) -> one_match_a_day df ->
  sort_values_data quicksort df = earlier ++ m :: later -> plays team m ->
  filter (plays team) earlier =
  filter (plays team) (dated_before (data m) (sort_values_data quicksort df)).
Proof.
  intros Hnd Hone Hsort Hpl.
  pose proof (sort_values_data_sorted quicksort quicksort_spec df) as Hs.
  pose proof (NoDup_ids_sorted quicksort quicksort_spec df Hnd) as Hnds.
  rewrite Hsort in Hs, Hnds |- *.
  rewrite (sorted_dated_before earlier later m Hs). unfold dated_before.
  rewrite list_filter_filter. apply filter_ext_elem. intros x Hx.
  split; [|tauto]. intros Hplx. split; [done|].
  pose proof (sorted_app_le by_date _ _ _ _ Hs Hx) as Hle.
  unfold by_date in Hle. apply Z.leb_le in Hle.
  destruct (decide (data x = data m)) as [E|E]; [exfalso|lia].
  apply (not_elem_of_earlier earlier later m Hnds).
  replace m with x; [done|].
  assert (forall y, y ∈ earlier ++ m :: later -> y ∈ df) as Hin.
  { intros y Hy. by rewrite <- (sort_values_data_perm quicksort quicksort_spec), Hsort. }
  apply (one_match_a_day_match df team); [done..| | |done|done|done].
  - apply Hin, elem_of_app. by left.
  - apply Hin, elem_of_app. right. by left.
Qed.

Lemma rest_row_before (t1 t2 : list Match) (m : Match) :
  NoDup (ids t1) -> NoDup (ids t2) -> m ∈ t1 -> m ∈ t2 ->
  one_match_a_day t1 -> one_match_a_day t2 ->
  dated_before (data m) t1 = dated_before (data m) t2 ->
  rest_row quicksort t1 (id_partida m) = rest_row quicksort t2 (id_partida m).
Proof.
  intros Hnd1 Hnd2 Hm1 Hm2 Hone1 Hone2 Heq.
  destruct (sorted_split quicksort quicksort_spec t1 m Hm1) as (e1 & l1 & Hs1).
  destruct (sorted_split quicksort quicksort_spec t2 m Hm2) as (e2 & l2 & Hs2).
  rewrite (rest_row_scan quicksort quicksort_spec t1 e1 l1),
          (rest_row_scan quicksort quicksort_spec t2 e2 l2) by done.
  assert (forall team, plays team m ->
            previous_match team e1 = previous_match team e2) as Hprev.
  { intros team Hpl. unfold previous_match.
    rewrite (scan_of_team_before t1 e1 l1 m team), (scan_of_team_before t2 e2 l2 m team)
      by done.
    by rewrite (team_scan_unique t1 t2 team (data m)). }
  unfold rest_step. cbn [fst]. rewrite !rest_of_previous.
  rewrite (Hprev (time_casa m)) by (by left).
  by rewrite (Hprev (time_fora m)) by (by right).
Qed.

Lemma key_players_row_before (t1 t2 : list Match) (ps : list PlayerStat)
    (window top_n : Z) (m : Match) :
  NoDup (ids t1) -> NoDup (ids t2) -> m ∈ t1 -> m ∈ t2 ->
  one_match_a_day t1 ->
  dated_before (data m) t1 = dated_before (data m) t2 ->
  key_players_row quicksort t1 ps window top_n (id_partida m) =
  key_players_row quicksort t2 ps window top_n (id_partida m).
Proof.
  intros Hnd1 Hnd2 Hm1 Hm2 Hone1 Heq.
  rewrite !key_players_row_eq by done.
  assert (forall team,
    history_ids (team_matches quicksort t1) (match_date_map t1) team (data m) =
    history_ids (team_matches quicksort t2) (match_date_map t2) team (data m)) as Hh.
  { intros team. rewrite !history_ids_dated_before by done.
    unfold team_history.
    rewrite (flat_map_appearances_plays team (dated_before _ (sort_values_data _ t1))),
            (flat_map_appearances_plays team (dated_before _ (sort_values_data _ t2))).
    by rewrite (team_scan_unique t1 t2 team (data m)). }
  by rewrite (key_players_of_history ps _ _ _ _ _ _ _ _ (Hh (time_casa m))),
             (key_players_of_history ps _ _ _ _ _ _ _ _ (Hh (time_fora m))).
Qed.

(** C1 (as amended).  In tables in which no team has two matches on one
    date, the features of a match are a function of the matches dated
    strictly before it: two such tables that hold the match and agree on
    the matches dated before its date give it the same rest-days,
    rolling-average and key-players cells, whatever they hold from that
    date on and whichever order [sort_values] gives to the matches of one
    date. *)
Theorem no_information_from_later_dates
    (t1 t2 : list Match) (m : Match) (player_stats_df : list PlayerStat)
    (window top_n : Z) :
  NoDup (ids t1) -> NoDup (ids t2) -> m ∈ t1 -> m ∈ t2 ->
  one_match_a_day t1 -> one_match_a_day t2 ->
  dated_before (data m) t1 = dated_before (data m) t2 ->
  rest_row quicksort t1 (id_partida m) = rest_row quicksort t2 (id_partida m) /\
  rolling_row t1 window (id_partida m) = rolling_row t2 window (id_partida m) /\
  key_players_row quicksort t1 player_stats_df window top_n (id_partida m) =
  key_players_row quicksort t2 player_stats_df window top_n (id_partida m).
Proof.
  intros Hnd1 Hnd2 Hm1 Hm2 Hone1 Hone2 Heq.
  split; [by apply rest_row_before|].
  split; [by apply rolling_row_before|by apply key_players_row_before].
Qed.
End EarlierMatches.
(** C1 (as stated) fails, whichever order the sort gives to the matches of
    one date: of two matches of one team on one date, the one that the scan
    meets second has 0 rest days, and none in the table without the other
    one, which has no match dated before it either. *)
Lemma same_date_match_changes_rest_days :
  ~ (exists quicksort : list Z -> list nat,
       argsort_spec quicksort /\
       forall (t1 t2 : list Match) (m : Match)
              (player_stats_df : list PlayerStat) (window top_n : Z),
         NoDup (ids t1) -> NoDup (ids t2) -> m ∈ t1 -> m ∈ t2 ->
         dated_before (data m) t1 = dated_before (data m) t2 ->
         rest_row quicksort t1 (id_partida m) = rest_row quicksort t2 (id_partida m) /\
         rolling_row t1 window (id_partida m) = rolling_row t2 window (id_partida m) /\
         key_players_row quicksort t1 player_stats_df window top_n (id_partida m) =
         key_players_row quicksort t2 player_stats_df window top_n (id_partida m)).
Proof.
  intros (quicksort & Hspec & H).
  set (d := 10 * ns_per_day).
  destruct (Hspec [d]) as [H1 _]. destruct (Hspec [d; d]) as [H2 _].
  symmetry in H1. apply Permutation_length_1_inv in H1.
  symmetry in H2. apply Permutation_length_2_inv in H2.
  destruct H2 as [E|E].
  - destruct (H [same_day_1; same_day_2] [same_day_2] same_day_2 [] 5 3)
      as [Hrest _].
    + apply (bool_decide_unpack _). by vm_compute.
    + apply (bool_decide_unpack _). by vm_compute.
    + repeat constructor.
    + repeat constructor.
    + reflexivity.
    + unfold rest_row, compute_rest_days, sort_values_data in Hrest.
      change (data <$> [same_day_1; same_day_2]) with [d; d] in Hrest.
      change (data <$> [same_day_2]) with [d] in Hrest.
      rewrite E, H1 in Hrest. vm_compute in Hrest. discriminate Hrest.
  - destruct (H [same_day_1; same_day_2] [same_day_1] same_day_1 [] 5 3)
      as [Hrest _].
    + apply (bool_decide_unpack _). by vm_compute.
    + apply (bool_decide_unpack _). by vm_compute.
    + repeat constructor.
    + repeat constructor.
    + reflexivity.
    + unfold rest_row, compute_rest_days, sort_values_data in Hrest.
      change (data <$> [same_day_1; same_day_2]) with [d; d] in Hrest.
      change (data <$> [same_day_1]) with [d] in Hrest.
      rewrite E, H1 in Hrest. vm_compute in Hrest. discriminate Hrest.
Qed.

Lemma no_information_from_later_dates_witness :
  rest_row stable_argsort flamengo_table 2 =
    rest_row stable_argsort [flamengo_1; flamengo_2] 2 /\
  rolling_row flamengo_table 5 2 = rolling_row [flamengo_1; flamengo_2] 5 2 /\
  key_players_row stable_argsort flamengo_table example_stats 5 3 2 =
    key_players_row stable_argsort [flamengo_1; flamengo_2] example_stats 5 3 2.
Proof.
  apply (no_information_from_later_dates stable_argsort stable_argsort_spec
           flamengo_table [flamengo_1; flamengo_2] flamengo_2 example_stats 5 3).
  - apply (bool_decide_unpack _). by vm_compute.
  - apply (bool_decide_unpack _). by vm_compute.
  - repeat constructor.
  - repeat constructor.
  - apply (bool_decide_unpack _). by vm_compute.
  - apply (bool_decide_unpack _). by vm_compute.
  - reflexivity.
Defined.

(** *** The columns by name *)

Lemma eqb_append_l (p a b : string) :
  String.eqb (p +:+ a) (p +:+ b) = String.eqb a b.
Proof.
  induction p as [|c p IH]; [done|]. simpl. by rewrite Ascii.eqb_refl.
Qed.

Lemma assoc_app {V : Type} (name : string) (l1 l2 : list (string * V)) :
  assoc name (l1 ++ l2) =
  match assoc name l1 with Some v => Some v | None => assoc name l2 end.
Proof.
  induction l1 as [|[n v] l1 IH]; [done|]. simpl.
  by destruct (String.eqb n name).
Qed.

(** The names of the columns of the two sides differ. *)
Lemma suffix_of_side (window : Z) (s s' : side) :
  String.eqb (suffix_of window s) (suffix_of window s') = true -> s = s'.
Proof.
  unfold suffix_of. change ("_last" +:+ ?x) with ("_last" +:+ x).
  rewrite (eqb_append_l "_last"), (eqb_append_l (pretty window)).
  by destruct s, s'.
Qed.

(** The cell under the name of a metric and a side. *)
Lemma roll_cells_lookup (df : list Match) (window : Z) (s s' : side) (m : Match)
    (mt : string * (LongRow -> option Qc)) :
  mt ∈ metrics ->
  assoc (fst mt +:+ "_roll" +:+ suffix_of window s) (roll_cells df window s' m) =
  if decide (s' = s)
  then Some (float_cell (prior_mean (Z.to_nat window) (snd mt)
                           (prior_observations df (obs s' m))))
  else None.
Proof.
  intros Hmt. unfold roll_cells.
  assert (String.eqb (suffix_of window s') (suffix_of window s) =
          if decide (s' = s) then true else false) as Hsuf.
  { destruct (decide (s' = s)) as [->|Hne].
    - by rewrite String.eqb_refl.
    - destruct (String.eqb _ _) eqn:E; [|done]. by apply suffix_of_side in E. }
  revert Hsuf. generalize (suffix_of window s') (suffix_of window s).
  intros suf' suf Hsuf.
  unfold metrics in *.
  repeat (apply elem_of_cons in Hmt as [->|Hmt]);
    [..|by apply elem_of_nil in Hmt];
    cbn [assoc fmap list_fmap fst snd]; cbv [String.append];
    cbn [String.eqb Ascii.eqb Bool.eqb]; rewrite ?Hsuf; by destruct (decide (s' = s)).
Qed.

Lemma rolling_cell_eq (df : list Match) (window : Z) (s : side) (m : Match)
    (mt : string * (LongRow -> option Qc)) (out : list Row) :
  NoDup (ids df) -> m ∈ df -> 1 <= window -> mt ∈ metrics ->
  compute_rolling_stats df window = Ok out ->
  rolling_cell out (id_partida m) (fst mt) window s =
  Some (float_cell (prior_mean (Z.to_nat window) (snd mt)
                      (prior_observations df (obs s m)))).
Proof.
  intros Hnd Hm Hw Hmt Hout.
  rewrite compute_rolling_stats_Ok in Hout;
    [|done|by intros ->; apply elem_of_nil in Hm|done].
  apply Ok_inj in Hout as <-. unfold rolling_cell.
  rewrite (row_of_fmap _ df m) by done.
  change (Some ?r ≫= ?f) with (f r). unfold col.
  cbn [extra]. rewrite assoc_app, !roll_cells_lookup by done.
  destruct s; by rewrite ?decide_True, ?decide_False by done.
Qed.

(** *** The first observations of a team *)

Lemma window_mean_singleton (v : option Qc) : window_mean [v] = v.
Proof.
  destruct v as [q|]; [|done]. unfold window_mean. simpl. f_equal.
  apply Qc_is_canon. simpl.
  rewrite !Qred_correct. destruct q as [q Hq]. simpl. field.
Qed.

(** C2.  A rolling cell of a match and side is the mean of the values,
    those present, of the last [window] observations of the team before
    that of the match.  So, for every team, the rolling cells of its first
    chronological observation are null, whatever the window, and with a
    window of 1 the rolling goals-for cell of its second observation is the
    goals-for value of the first. *)
Theorem rolling_mean_excludes_current
    (df : list Match) (window : Z) (team : string)
    (first : LongRow) (later : list LongRow) :
  NoDup (ids df) -> 1 <= window ->
  team_observations team df = first :: later ->
  exists out : list Row,
    compute_rolling_stats df window = Ok out /\
    (forall m s mt, m ∈ df -> mt ∈ metrics ->
       rolling_cell out (id_partida m) (fst mt) window s =
       Some (float_cell (prior_mean (Z.to_nat window) (snd mt)
                           (prior_observations df (obs s m))))) /\
    (forall mt, mt ∈ metrics ->
       rolling_cell out (lr_id_partida first) (fst mt) window (lr_side first) =
       Some CNone) /\
    (forall second rest, later = second :: rest -> window = 1 ->
       rolling_cell out (lr_id_partida second) "goals_for" 1 (lr_side second) =
       Some (float_cell (lr_goals_for first))).
Proof.
  intros Hnd Hw Hobs.
  assert (first ∈ team_observations team df) as Hfirst by (rewrite Hobs; by left).
  destruct (team_observations_elem _ _ _ Hfirst) as (Ht1 & m1 & s1 & Hm1 & ->).
  assert (df ≠ []) as Hne by (intros ->; by apply elem_of_nil in Hm1).
  eexists. split; [by apply compute_rolling_stats_Ok|].
  pose proof (compute_rolling_stats_Ok df window Hnd Hne Hw) as Hout.
  pose proof (NoDup_team_observations team df Hnd) as Hkeys.
  rewrite Hobs in Hkeys. split; [|split].
  - intros m s mt Hm Hmt. by apply rolling_cell_eq.
  - intros mt Hmt. rewrite !obs_id, !obs_side.
    rewrite (rolling_cell_eq df window s1 m1 mt) by done.
    unfold prior_observations. rewrite Ht1, Hobs. simpl.
    by rewrite decide_True.
  - intros second rest -> ->.
    assert (second ∈ team_observations team df) as Hsecond
      by (rewrite Hobs; right; by left).
    destruct (team_observations_elem _ _ _ Hsecond) as (Ht2 & m2 & s2 & Hm2 & ->).
    rewrite !obs_id, !obs_side.
    rewrite (rolling_cell_eq df 1 s2 m2 ("goals_for", lr_goals_for));
      [|done|done|done|by left|done].
    unfold prior_observations. rewrite Ht2, Hobs. simpl.
    rewrite decide_False; [rewrite decide_True by done|].
    + unfold prior_mean, trailing. simpl. by rewrite window_mean_singleton.
    + rewrite !fmap_cons in Hkeys. apply NoDup_cons in Hkeys as [Hk _].
      intros E. apply Hk. rewrite E. by left.
Qed.

Lemma rolling_mean_excludes_current_witness :
  exists out : list Row,
    compute_rolling_stats flamengo_table 1 = Ok out /\
    (forall m s mt, m ∈ flamengo_table -> mt ∈ metrics ->
       rolling_cell out (id_partida m) (fst mt) 1 s =
       Some (float_cell (prior_mean (Z.to_nat 1) (snd mt)
                           (prior_observations flamengo_table (obs s m))))) /\
    (forall mt, mt ∈ metrics -> rolling_cell out 1 (fst mt) 1 Home = Some CNone) /\
    (forall second rest,
       [home_obs flamengo_2; home_obs flamengo_3] = second :: rest -> 1 = 1 ->
       rolling_cell out (lr_id_partida second) "goals_for" 1 (lr_side second) =
       Some (float_cell (lr_goals_for (home_obs flamengo_1)))).
Proof.
  apply (rolling_mean_excludes_current flamengo_table 1 "Flamengo"
           (home_obs flamengo_1) [home_obs flamengo_2; home_obs flamengo_3]).
  - apply (bool_decide_unpack _). by vm_compute.
  - lia.
  - reflexivity.
Defined.

(** *** The columns of the stage *)

Lemma roll_cells_names (df : list Match) (window : Z) (m : Match) :
  fst <$> (roll_cells df window Home m ++ roll_cells df window Away m) =
  rolling_column_names window.
Proof. reflexivity. Qed.

(** C9 (as amended).  On a table that is not empty, with a window of at
    least 1, the stage keeps the rows and appends eight columns, named
    [<metric>_roll_last<window>_<side>], one per metric and side, whose
    cell for a match is the rolled value of the observation of that match
    and side. *)
Theorem rolling_stats_columns (df : list Match) (window : Z) :
  NoDup (ids df) -> df ≠ [] -> 1 <= window ->
  exists out : list Row,
    compute_rolling_stats df window = Ok out /\
    base <$> out = df /\
    Forall (fun r => fst <$> extra r = rolling_column_names window) out /\
    (forall m s mt, m ∈ df -> mt ∈ metrics ->
       rolling_cell out (id_partida m) (fst mt) window s =
       Some (float_cell (prior_mean (Z.to_nat window) (snd mt)
                           (prior_observations df (obs s m))))).
Proof.
  intros Hnd Hne Hw.
  pose proof (compute_rolling_stats_Ok df window Hnd Hne Hw) as Hout.
  eexists. split; [exact Hout|]. split; [|split].
  - rewrite <- list_fmap_compose. apply list_fmap_id.
  - rewrite Forall_fmap, Forall_forall. intros m _. apply roll_cells_names.
  - intros m s mt Hm Hmt. by apply rolling_cell_eq.
Qed.

Lemma rolling_stats_columns_witness :
  exists out : list Row,
    compute_rolling_stats flamengo_table 2 = Ok out /\
    base <$> out = flamengo_table /\
    Forall (fun r => fst <$> extra r = rolling_column_names 2) out /\
    (forall m s mt, m ∈ flamengo_table -> mt ∈ metrics ->
       rolling_cell out (id_partida m) (fst mt) 2 s =
       Some (float_cell (prior_mean (Z.to_nat 2) (snd mt)
                           (prior_observations flamengo_table (obs s m))))).
Proof.
  apply (rolling_stats_columns flamengo_table 2).
  - apply (bool_decide_unpack _). by vm_compute.
  - discriminate.
  - lia.
Defined.

(** C9 (as stated) fails: the names hold [_roll] before [_last]. *)
Lemma rolling_columns_are_not_the_stated_ones :
  ~ (forall (df : list Match) (window : Z) (out : list Row),
       compute_rolling_stats df window = Ok out ->
       Forall (fun r => fst <$> extra r =
                 ["goals_for_last" +:+ pretty window +:+ "_home";
                  "goals_against_last" +:+ pretty window +:+ "_home";
                  "xg_for_last" +:+ pretty window +:+ "_home";
                  "xg_against_last" +:+ pretty window +:+ "_home";
                  "goals_for_last" +:+ pretty window +:+ "_away";
                  "goals_against_last" +:+ pretty window +:+ "_away";
                  "xg_for_last" +:+ pretty window +:+ "_away";
                  "xg_against_last" +:+ pretty window +:+ "_away"]) out).
Proof.
  intros H.
  assert (NoDup (ids flamengo_table)) as Hnd
    by (apply (bool_decide_unpack _); by vm_compute).
  pose proof (compute_rolling_stats_Ok flamengo_table 5 Hnd
                ltac:(discriminate) ltac:(lia)) as Hout.
  specialize (H flamengo_table 5 _ Hout).
  rewrite Forall_fmap in H. apply Forall_cons in H as [H _].
  cbn [compose extra] in H. rewrite roll_cells_names in H.
  vm_compute in H. discriminate H.
Qed.

(** ** KeyPlayersStage: the ranked list *)

Lemma by_score_gols_desc_iff (a b : KeyPlayer) :
  by_score_gols_desc a b = true <-> ranked_before a b.
Proof.
  unfold by_score_gols_desc, ranked_before.
  rewrite orb_true_iff, andb_true_iff, Z.ltb_lt, Z.eqb_eq, Z.leb_le. tauto.
Qed.

Lemma by_score_gols_desc_total (a b : KeyPlayer) :
  by_score_gols_desc a b = true \/ by_score_gols_desc b a = true.
Proof. rewrite !by_score_gols_desc_iff. unfold ranked_before. lia. Qed.

Lemma by_score_gols_desc_trans (a b c : KeyPlayer) :
  by_score_gols_desc a b = true -> by_score_gols_desc b c = true ->
  by_score_gols_desc a c = true.
Proof. rewrite !by_score_gols_desc_iff. unfold ranked_before. lia. Qed.

Lemma StronglySorted_take {A : Type} (R : A -> A -> Prop) (n : nat) (l : list A) :
  StronglySorted R l -> StronglySorted R (take n l).
Proof.
  revert n. induction l as [|x l IH]; intros [|n] Hs; simpl; try constructor.
  - apply IH. by apply StronglySorted_inv in Hs as [? _].
  - apply StronglySorted_inv in Hs as [_ Hx].
    rewrite Forall_forall in *. intros y Hy. apply Hx.
    by eapply subseteq_take.
Qed.

Lemma StronglySorted_impl {A : Type} (R1 R2 : A -> A -> Prop) (l : list A) :
  (forall a b, R1 a b -> R2 a b) -> StronglySorted R1 l -> StronglySorted R2 l.
Proof.
  intros H. induction 1 as [|x l Hl IH Hx]; constructor; [done|].
  eapply Forall_impl; [exact Hx|]. auto.
Qed.

(** [l[-w:]] for a positive [w] is the last [w] elements. *)
Lemma slice_from_last {A : Type} (w : Z) (l : list A) :
  0 < w -> slice_from (- w) l = trailing (Z.to_nat w) l.
Proof.
  intros Hw. unfold slice_from, trailing.
  rewrite (proj2 (Z.ltb_lt (- w) 0)) by lia. f_equal. lia.
Qed.

Lemma head_n_length {A : Type} (n : Z) (l : list A) :
  0 <= n -> Z.of_nat (length (head_n n l)) <= n.
Proof.
  intros Hn. unfold head_n. rewrite (proj2 (Z.ltb_ge n 0)) by lia.
  rewrite length_take. lia.
Qed.

Lemma head_n_take {A : Type} (n : Z) (l : list A) :
  0 <= n -> head_n n l = take (Z.to_nat n) l.
Proof. intros Hn. unfold head_n. by rewrite (proj2 (Z.ltb_ge n 0)) by lia. Qed.

(** The sums of a row of [grouped]. *)
Lemma grouped_sums (recent : list PlayerStat) (e : KeyPlayer) :
  e ∈ grouped recent ->
  kp_gols e =
    sum_Z (ps_gols <$> filter (fun r => ps_id_jogador r = kp_id_jogador e) recent) /\
  kp_assistencias e =
    sum_Z (ps_assistencias <$>
           filter (fun r => ps_id_jogador r = kp_id_jogador e) recent) /\
  kp_score e = kp_gols e + kp_assistencias e.
Proof.
  unfold grouped. intros (p & -> & _)%list_elem_of_fmap. done.
Qed.

(** Every player of the rows has one row in [grouped]. *)
Lemma grouped_players (recent : list PlayerStat) :
  kp_id_jogador <$> grouped recent ≡ₚ remove_dups (ps_id_jogador <$> recent).
Proof.
  unfold grouped. rewrite <- list_fmap_compose.
  rewrite (list_fmap_ext _ id); [|by intros].
  by rewrite list_fmap_id, sort_values_perm.
Qed.

Section KeyPlayersRanked.
Variable quicksort : list Z -> list nat.
Hypothesis quicksort_spec : argsort_spec quicksort.

Lemma key_players_of_eq (df : list Match) (ps : list PlayerStat) (window top_n : Z)
    (team : string) (d : Z) :
  NoDup (ids df) -> 0 < window -> 0 <= top_n ->
  key_players_of ps (team_matches quicksort df) (match_date_map df) window top_n team d =
  let rows :=
    recent_rows ps team (trailing (Z.to_nat window) (team_history quicksort df team d)) in
  match rows with
  | [] => []
  | _ => take (Z.to_nat top_n) (sort_values by_score_gols_desc (grouped rows))
  end.
Proof.
  intros Hnd Hw Hn. unfold key_players_of, recent_ids, recent_rows.
  rewrite history_ids_dated_before, slice_from_last by done.
  cbv zeta. destruct (filter _ ps); [done|]. by rewrite head_n_take.
Qed.

(** The history of a team holds its matches of the table dated before the
    date, each once per side, by ascending date. *)
Lemma team_history_chronological (df : list Match) (team : string) (d : Z) :
  exists earlier : list Match,
    team_history quicksort df team d = flat_map (appearances team) earlier /\
    sorted_by by_date earlier /\
    earlier ≡ₚ dated_before d df.
Proof.
  exists (dated_before d (sort_values_data quicksort df)).
  split; [done|]. split.
  - apply StronglySorted_filter. by apply sort_values_data_sorted.
  - unfold dated_before. by rewrite (sort_values_data_perm quicksort quicksort_spec).
Qed.

(** C6.  For every match and side, with a window of at least 1 and a
    [top_n] that is not negative: the cell is a list of at most [top_n]
    players, ranked by score and then by goals, whose goals and assists are
    the sums over the rows of the team in the last [window] matches of its
    history, and whose score is their sum; the history holds the matches of
    the team dated before the match, by ascending date, in the order
    [sort_values] gives them, whichever it is for the matches of one date;
    the list is empty when there is no such match or no such row. *)
Theorem key_players_ranked
    (df : list Match) (player_stats_df : list PlayerStat) (window top_n : Z)
    (m : Match) (s : side) :
  NoDup (ids df) -> m ∈ df -> 0 < window -> 0 <= top_n ->
  let team := team_of s m in
  let history := team_history quicksort df team (data m) in
  let rows := recent_rows player_stats_df team (trailing (Z.to_nat window) history) in
  exists (r : Row) (players : list KeyPlayer),
    key_players_row quicksort df player_stats_df window top_n (id_partida m) = Some r /\
    base r = m /\
    col ("key_players_" +:+ side_name s) r = Some (CPlayers players) /\
    Z.of_nat (length players) <= top_n /\
    StronglySorted ranked_before players /\
    Forall (fun e =>
      kp_gols e =
        sum_Z (ps_gols <$> filter (fun x => ps_id_jogador x = kp_id_jogador e) rows) /\
      kp_assistencias e =
        sum_Z (ps_assistencias <$>
               filter (fun x => ps_id_jogador x = kp_id_jogador e) rows) /\
      kp_score e = kp_gols e + kp_assistencias e) players /\
    (exists earlier : list Match,
       history = flat_map (appearances team) earlier /\
       sorted_by by_date earlier /\
       earlier ≡ₚ dated_before (data m) df) /\
    (history = [] -> players = []) /\
    (rows = [] -> players = []).
Proof.
  intros Hnd Hm Hw Hn team history rows.
  eexists. exists (key_players_of player_stats_df (team_matches quicksort df)
                     (match_date_map df) window top_n team (data m)).
  split; [by apply key_players_row_eq|]. split; [done|].
  split; [by destruct s|].
  rewrite (key_players_of_eq df player_stats_df window top_n team (data m)) by done.
  cbv zeta. fold history. fold rows.
  assert (history = [] -> rows = []) as Hempty.
  { intros E. subst rows. rewrite E. unfold trailing, recent_rows. simpl.
    apply filter_none. rewrite Forall_forall. intros x _ [_ Hx].
    by apply elem_of_nil in Hx. }
  pose proof (team_history_chronological df team (data m)) as Hperm.
  fold history in Hperm.
  destruct rows as [|x rows'] eqn:Erows.
  { repeat split; simpl; auto; try lia; constructor. }
  split; [rewrite length_take; lia|]. split; [|split; [|split; [|split]]].
  - apply StronglySorted_take.
    eapply StronglySorted_impl; [intros a b; apply by_score_gols_desc_iff|].
    apply sort_values_sorted;
      [apply by_score_gols_desc_total|apply by_score_gols_desc_trans].
  - rewrite Forall_forall. intros e He. apply grouped_sums.
    apply subseteq_take in He. by rewrite sort_values_perm in He.
  - done.
  - intros E. by apply Hempty in E.
  - done.
Qed.
End KeyPlayersRanked.

(** ** ImportanceScoreStage *)

(** The rounded value is a nearest integer, the even one at a tie. *)
Lemma round_half_even_spec (q : Q) :
  let k := round_half_even q in
  let n := Qnum q in
  let d := Z.pos (Qden q) in
  2 * d * k - d <= 2 * n <= 2 * d * k + d /\
  (2 * n = 2 * d * k + d -> Z.even k = true) /\
  (2 * n = 2 * d * k - d -> Z.even k = true).
Proof.
  unfold round_half_even.
  set (n := Qnum q). set (d := Z.pos (Qden q)).
  assert (0 < d) as Hd by (subst d; lia).
  pose proof (Z.div_mod n d ltac:(lia)) as Hdm.
  pose proof (Z.mod_pos_bound n d Hd) as Hr.
  set (f := n `div` d) in *. set (r := n `mod` d) in *.
  destruct (Z.ltb_spec (2 * r) d) as [H1|H1].
  { cbv zeta. repeat split; nia. }
  destruct (Z.ltb_spec d (2 * r)) as [H2|H2].
  { cbv zeta. repeat split; nia. }
  assert (2 * r = d) as Hrd by lia.
  destruct (Z.even f) eqn:Hf; cbv zeta.
  - repeat split; try nia. intros _. exact Hf.
  - repeat split; try nia.
    intros _. by rewrite Z.add_1_r, Z.even_succ, <- Z.negb_even, Hf.
Qed.

Lemma round_half_even_mono (q1 q2 : Q) :
  (q1 <= q2)%Q -> round_half_even q1 <= round_half_even q2.
Proof.
  intros Hle. unfold Qle in Hle.
  destruct (round_half_even_spec q1) as ([L1 _] & _ & E1).
  destruct (round_half_even_spec q2) as ([_ U2] & E2 & _).
  set (k1 := round_half_even q1) in *. set (k2 := round_half_even q2) in *.
  set (n1 := Qnum q1) in *. set (n2 := Qnum q2) in *.
  set (d1 := Z.pos (Qden q1)) in *. set (d2 := Z.pos (Qden q2)) in *.
  assert (0 < d1) as Hd1 by (subst d1; lia).
  assert (0 < d2) as Hd2 by (subst d2; lia).
  destruct (Z.le_gt_cases k1 k2) as [|Hgt]; [done|exfalso].
  assert ((2 * k1 - 1) * (d1 * d2) <= 2 * (n1 * d2)) as A by nia.
  assert (2 * (n2 * d1) <= (2 * k2 + 1) * (d1 * d2)) as B by nia.
  assert (0 < d1 * d2) as HD by nia.
  assert (k1 = k2 + 1) as Hk by nia.
  assert (2 * n1 = 2 * d1 * k1 - d1) as T1 by nia.
  assert (2 * n2 = 2 * d2 * k2 + d2) as T2 by nia.
  specialize (E1 T1). specialize (E2 T2).
  rewrite Hk, Z.add_1_r, Z.even_succ, <- Z.negb_even, E2 in E1. done.
Qed.

Lemma this_Q2Qc (q : Q) : (this (Q2Qc q) == q)%Q.
Proof. simpl. apply Qred_correct. Qed.

(** [round] is monotone. *)
Lemma py_round_mono (x y : Qc) (ndigits : N) :
  (x <= y)%Qc -> (py_round x ndigits <= py_round y ndigits)%Qc.
Proof.
  intros Hxy. unfold py_round, Qcle. rewrite !this_Q2Qc.
  set (scale := 10 ^ Z.of_N ndigits).
  assert (0 < scale) as Hs by (subst scale; apply Z.pow_pos_nonneg; lia).
  unfold Qle. simpl.
  apply Z.mul_le_mono_nonneg_r; [lia|].
  apply round_half_even_mono.
  apply Qmult_le_compat_r; [exact Hxy|].
  unfold Qle. simpl. lia.
Qed.

Lemma max0_nonneg (x : Qc) : (0 <= max0 x)%Qc.
Proof.
  unfold max0. destruct (Qle_bool (this x) 0) eqn:E; [apply Qcle_refl|].
  apply Qcnot_lt_le. intros H. apply Qclt_le_weak in H.
  assert (Qle_bool (this x) 0 = true) as E'; [|congruence].
  apply Qle_bool_iff. exact H.
Qed.

Lemma max0_of_nonpos (x : Qc) : (x <= 0)%Qc -> max0 x = 0%Qc.
Proof.
  intros H. unfold max0.
  assert (Qle_bool (this x) 0 = true) as E; [|by rewrite E].
  apply Qle_bool_iff. exact H.
Qed.

(** The tension does not grow with the gaps. *)
Lemma tension_antitone (a b : Qc) :
  (0 <= a)%Qc -> (a <= b)%Qc -> (1 / (1 + b) <= 1 / (1 + a))%Qc.
Proof.
  intros Ha Hab.
  assert (0 < 1 + a)%Qc as Hpa.
  { apply Qclt_le_trans with 1%Qc; [done|].
    rewrite <- (Qcplus_0_r 1) at 1. apply Qcplus_le_compat; [apply Qcle_refl|done]. }
  assert (0 < 1 + b)%Qc as Hpb.
  { apply Qclt_le_trans with (1 + a)%Qc; [done|].
    apply Qcplus_le_compat; [apply Qcle_refl|done]. }
  assert (1 + a <> 0)%Qc as Hna by (apply not_eq_sym, Qclt_not_eq; exact Hpa).
  assert (1 + b <> 0)%Qc as Hnb by (apply not_eq_sym, Qclt_not_eq; exact Hpb).
  apply Qcmult_lt_0_le_reg_r with ((1 + a) * (1 + b))%Qc.
  - rewrite <- (Qcmult_0_l (1 + b)). by apply Qcmult_lt_compat_r.
  - replace (1 / (1 + b) * ((1 + a) * (1 + b)))%Qc with (1 + a)%Qc by (field; done).
    replace (1 / (1 + a) * ((1 + a) * (1 + b)))%Qc with (1 + b)%Qc by (field; done).
    apply Qcplus_le_compat; [apply Qcle_refl|done].
Qed.

Lemma stage_factor_nonneg (params : ImportanceParams) (rodada : Z) :
  (0 <= stage_factor_of params rodada)%Qc.
Proof. unfold stage_factor_of. by destruct (_ <=? _). Qed.

Lemma stage_factor_rounds_to_itself (params : ImportanceParams) (rodada : Z) :
  py_round (stage_factor_of params rodada) 3 = stage_factor_of params rodada.
Proof.
  unfold stage_factor_of. destruct (_ <=? _); apply Qc_is_canon; reflexivity.
Qed.

(** C7.  For a fixed stage factor, the importance does not grow when the sum
    of the two gaps, each clamped at 0, grows; and it is the stage factor
    itself when both clamped gaps are zero, as they are for a team that has
    the points of both cutoff rows. *)
Theorem importance_decreases_with_gaps
    (params : ImportanceParams) (rodada : Z) (pontos g4 z4 pontos' g4' z4' : Qc) :
  let stage_factor := stage_factor_of params rodada in
  ((max0 (g4 - pontos) + max0 (pontos - z4) <=
    max0 (g4' - pontos') + max0 (pontos' - z4'))%Qc ->
   (importance stage_factor pontos' g4' z4' <= importance stage_factor pontos g4 z4)%Qc) /\
  (max0 (g4 - pontos) = 0%Qc -> max0 (pontos - z4) = 0%Qc ->
   importance stage_factor pontos g4 z4 = stage_factor) /\
  importance stage_factor pontos pontos pontos = stage_factor.
Proof.
  intros stage_factor.
  assert (forall p g z, max0 (g - p) = 0%Qc -> max0 (p - z) = 0%Qc ->
                        importance stage_factor p g z = stage_factor) as Hzero.
  { intros p g z Hg Hz. unfold importance. cbv zeta. rewrite Hg, Hz.
    assert (Q2Qc 1 / (Q2Qc 1 + 0 + 0) = 1)%Qc as -> by (apply Qc_is_canon; reflexivity).
    rewrite Qcmult_1_l. apply stage_factor_rounds_to_itself. }
  split; [|split].
  - intros Hgap. unfold importance. cbv zeta. apply py_round_mono.
    apply Qcmult_le_compat_r; [|apply stage_factor_nonneg].
    change (Q2Qc 1) with 1%Qc. rewrite <- !Qcplus_assoc.
    apply tension_antitone; [|done].
    rewrite <- (Qcplus_0_r 0). apply Qcplus_le_compat; apply max0_nonneg.
  - apply Hzero.
  - apply Hzero; apply max0_of_nonpos.
    + replace (pontos - pontos)%Qc with 0%Qc by ring. apply Qcle_refl.
    + replace (pontos - pontos)%Qc with 0%Qc by ring. apply Qcle_refl.
Qed.

Lemma importance_decreases_with_gaps_witness :
  (importance (stage_factor_of default_params 30) (Q2Qc 40) (Q2Qc 50) (Q2Qc 30) <=
   importance (stage_factor_of default_params 30) (Q2Qc 50) (Q2Qc 50) (Q2Qc 50))%Qc.
Proof.
  apply (importance_decreases_with_gaps default_params 30
           (Q2Qc 50) (Q2Qc 50) (Q2Qc 50) (Q2Qc 40) (Q2Qc 50) (Q2Qc 30)).
  vm_compute. discriminate.
Defined.

(** The value [team_score] returns for a round of the standings that holds
    the team and both cutoff rows. *)
Lemma team_score_value (standings_df : list Standing) (params : ImportanceParams)
    (team : string) (rodada : Z) (t g z : Standing) (ts gs zs : list Standing) :
  let table := filter (fun s => st_rodada s = rodada) standings_df in
  filter (fun s => PyStr.lower (st_time s) = PyStr.lower team) table = t :: ts ->
  filter (fun s => st_posicao s = g4_cutoff params) table = g :: gs ->
  filter (fun s => st_posicao s = z4_cutoff params) table = z :: zs ->
  team_score standings_df params team (Some (RoundInt rodada)) =
  Ok (Some (importance (stage_factor_of params rodada)
                       (st_pontos t) (st_pontos g) (st_pontos z))).
Proof.
  intros table Ht Hg Hz. unfold team_score. cbn. fold table. clearbody table.
  rewrite Ht, Hg, Hz. by destruct table.
Qed.

(** The rows without which [team_score] is null. *)
Lemma team_score_null (standings_df : list Standing) (params : ImportanceParams)
    (team : string) (rodada : Z) :
  let table := filter (fun s => st_rodada s = rodada) standings_df in
  table = [] \/
  filter (fun s => PyStr.lower (st_time s) = PyStr.lower team) table = [] \/
  filter (fun s => st_posicao s = g4_cutoff params) table = [] \/
  filter (fun s => st_posicao s = z4_cutoff params) table = [] ->
  team_score standings_df params team (Some (RoundInt rodada)) = Ok None.
Proof.
  intros table H. unfold team_score. cbn. fold table. clearbody table.
  destruct H as [H|[H|[H|H]]]; rewrite H.
  - done.
  - by destruct table.
  - destruct table; [done|]. by repeat case_match.
  - destruct table; [done|]. by repeat case_match.
Qed.

(** A missing round, and a token without digit, give a null score. *)
Lemma team_score_unparsed (standings_df : list Standing) (params : ImportanceParams)
    (team : string) (token : string) :
  team_score standings_df params team None = Ok None /\
  (PyStr.digits token = "" ->
   team_score standings_df params team (Some (RoundStr token)) = Ok None).
Proof.
  split; [done|]. intros H. unfold team_score, parse_round. by rewrite H.
Qed.

(** Without standings the two columns are null. *)
Lemma importance_without_standings (df : list Match) (params : ImportanceParams) :
  compute_importance_score df None params = Ok (null_importance df) /\
  compute_importance_score df (Some []) params = Ok (null_importance df).
Proof. done. Qed.

(** C8 fails on a token with a digit that is not a decimal one: [isdigit]
    keeps the superscript two of "Rodada ²", [int] rejects it, and the
    stage raises instead of giving a null importance. *)
Theorem importance_raises_on_superscript_round :
  PyStr.digits "Rodada ²" = "²" /\
  team_score example_standings default_params "Flamengo" (rodada superscript_round) =
    Raise (ValueError "invalid literal for int()") /\
  compute_importance_score [superscript_round] (Some example_standings) default_params =
    Raise (ValueError "invalid literal for int()").
Proof. by vm_compute. Qed.

(** ** CoordinateResolver *)

Lemma override_row_lower (team team' : string) (teams_info : option (list TeamInfo)) :
  PyStr.lower team' = PyStr.lower team ->
  override_row team' teams_info = override_row team teams_info.
Proof. intros E. unfold override_row. by rewrite E. Qed.

Lemma resolve_team_override (team : string) (teams_info : option (list TeamInfo)) :
  _resolve_team_coords team teams_info =
  match override_row team teams_info with
  | Some r => Some (latitude r, longitude r)
  | None => assoc team TEAM_COORDINATES
  end.
Proof. unfold _resolve_team_coords, override_row. by destruct teams_info. Qed.

(** C4 (as amended).  A team resolves to the first row of the override
    table whose name is its own but for case, and otherwise to the entry of
    the built-in table under its exact name; names that differ only in case
    resolve alike as soon as the override table has a row for them; a name
    that neither table resolves gives no coordinate. *)
Theorem resolve_team_order (team : string) (teams_info : option (list TeamInfo)) :
  (forall r, override_row team teams_info = Some r ->
     _resolve_team_coords team teams_info = Some (latitude r, longitude r)) /\
  (override_row team teams_info = None ->
     _resolve_team_coords team teams_info = assoc team TEAM_COORDINATES) /\
  (forall team', PyStr.lower team' = PyStr.lower team ->
     is_Some (override_row team teams_info) ->
     _resolve_team_coords team' teams_info = _resolve_team_coords team teams_info) /\
  (_resolve_team_coords team teams_info = None <->
     override_row team teams_info = None /\ assoc team TEAM_COORDINATES = None).
Proof.
  rewrite resolve_team_override. repeat split.
  - by intros r ->.
  - by intros ->.
  - intros team' E [r Hr]. rewrite resolve_team_override.
    by rewrite (override_row_lower team team'), Hr.
  - by destruct (override_row team teams_info).
  - by destruct (override_row team teams_info).
  - intros [-> ->]. done.
Qed.

Lemma resolve_team_order_witness :
  _resolve_team_coords "FLAMENGO"
    (Some [{| nome_time := "Flamengo"; latitude := Q2Qc 1; longitude := Q2Qc 2 |}]) =
  _resolve_team_coords "flamengo"
    (Some [{| nome_time := "Flamengo"; latitude := Q2Qc 1; longitude := Q2Qc 2 |}]).
Proof.
  apply (resolve_team_order "flamengo"
           (Some [{| nome_time := "Flamengo"; latitude := Q2Qc 1; longitude := Q2Qc 2 |}])).
  - reflexivity.
  - by eexists.
Defined.

(** C4 (as stated) fails: the built-in table is looked up by the exact name,
    so a spelling in another case does not resolve. *)
Lemma static_lookup_is_case_sensitive :
  ~ (forall (a b : string) (teams_info : option (list TeamInfo)),
       PyStr.lower a = PyStr.lower b ->
       _resolve_team_coords a teams_info = _resolve_team_coords b teams_info).
Proof.
  intros H. specialize (H "flamengo" "Flamengo" None eq_refl).
  vm_compute in H. discriminate H.
Qed.

(** ** TravelDistanceStage *)

Lemma travel_row_eq (haversine : Qc -> Qc -> Qc -> Qc -> Qc)
    (teams_info_df : option (list TeamInfo))
    (city_state_map : option (gmap string string)) (m : Match) :
  travel_row haversine teams_info_df city_state_map m =
  {| base := m;
     extra :=
       [("travel_km_home",
         travel_cell haversine teams_info_df (match_coords_of city_state_map m)
           (city_hint_of city_state_map m) (time_casa m));
        ("travel_km_away",
         travel_cell haversine teams_info_df (match_coords_of city_state_map m)
           (city_hint_of city_state_map m) (time_fora m))] |}.
Proof.
  unfold travel_row, match_coords_of, city_hint_of.
  by destruct (hints city_state_map (default "" (cidade_jogo m))).
Qed.

Lemma plays_at_home_iff (team : string) (city_hint : option string) :
  plays_at_home team city_hint = true <->
  exists hint, city_hint = Some hint /\ hint ≠ "" /\
    PyStr.contains (normalize_team_name team) (normalize_team_name hint) = true.
Proof.
  unfold plays_at_home. destruct city_hint as [hint|].
  - rewrite andb_true_iff, negb_true_iff. split.
    + intros [He Hc]. exists hint. repeat split; [|done]. by intros ->.
    + intros (h & [= <-] & Hne & Hc). split; [|done]. by destruct hint.
  - split; [done|]. by intros (h & [=] & _).
Qed.

(** C5 (as amended).  For every match and side the travel cell is null when
    the team or the city of the match has no coordinate; otherwise it is 0.0
    when the city hint is not empty and holds the normalised name of the
    team, and the haversine distance of the two coordinates when it does
    not. *)
Theorem travel_distance_cases
    (haversine : Qc -> Qc -> Qc -> Qc -> Qc) (df : list Match)
    (teams_info_df : option (list TeamInfo))
    (city_state_map : option (gmap string string))
    (i : nat) (m : Match) (s : side) :
  df !! i = Some m ->
  exists r : Row,
    compute_travel_distance haversine df teams_info_df city_state_map !! i = Some r /\
    base r = m /\
    let team := team_of s m in
    let travel := col ("travel_km_" +:+ side_name s) r in
    (_resolve_team_coords team teams_info_df = None \/
     match_coords_of city_state_map m = None -> travel = Some CNone) /\
    (forall base_coords match_coords hint,
       _resolve_team_coords team teams_info_df = Some base_coords ->
       match_coords_of city_state_map m = Some match_coords ->
       city_hint_of city_state_map m = Some hint -> hint ≠ "" ->
       PyStr.contains (normalize_team_name team) (normalize_team_name hint) = true ->
       travel = Some (CFloat (Q2Qc 0))) /\
    (forall base_coords match_coords,
       _resolve_team_coords team teams_info_df = Some base_coords ->
       match_coords_of city_state_map m = Some match_coords ->
       plays_at_home team (city_hint_of city_state_map m) = false ->
       travel = Some (CFloat (haversine (fst base_coords) (snd base_coords)
                                        (fst match_coords) (snd match_coords)))).
Proof.
  intros Hi. eexists. split.
  { unfold compute_travel_distance. by rewrite list_lookup_fmap, Hi. }
  rewrite travel_row_eq. split; [done|]. cbv zeta.
  assert (col ("travel_km_" +:+ side_name s)
            {| base := m;
               extra :=
                 [("travel_km_home",
                   travel_cell haversine teams_info_df (match_coords_of city_state_map m)
                     (city_hint_of city_state_map m) (time_casa m));
                  ("travel_km_away",
                   travel_cell haversine teams_info_df (match_coords_of city_state_map m)
                     (city_hint_of city_state_map m) (time_fora m))] |} =
          Some (travel_cell haversine teams_info_df (match_coords_of city_state_map m)
                  (city_hint_of city_state_map m) (team_of s m))) as ->
    by (by destruct s).
  unfold travel_cell. repeat split.
  - intros [->| ->]; [done|]. by destruct (_resolve_team_coords _ _).
  - intros b c hint -> -> Hh Hne Hc.
    rewrite (proj2 (plays_at_home_iff _ _)); [done|]. by exists hint.
  - by intros b c -> -> ->.
Qed.

Lemma travel_distance_cases_witness :
  exists r : Row,
    compute_travel_distance (fun _ _ _ _ => Q2Qc 0) [mirassol_at_home] None None !! 0%nat =
      Some r /\
    col "travel_km_home" r = Some CNone.
Proof.
  destruct (travel_distance_cases (fun _ _ _ _ => Q2Qc 0) [mirassol_at_home] None None
              0 mirassol_at_home Home) as (r & Hr & _ & Hnull & _).
  - reflexivity.
  - exists r. split; [exact Hr|]. apply Hnull. left. reflexivity.
Defined.

(** C5 (as stated) fails: the check of the coordinates comes first, so a
    team that plays in the city of its name but has no coordinate gets a
    null distance, not 0.0. *)
Lemma home_city_without_coordinates_is_null :
  ~ (forall (haversine : Qc -> Qc -> Qc -> Qc -> Qc) (df : list Match)
            (teams_info_df : option (list TeamInfo))
            (city_state_map : option (gmap string string))
            (i : nat) (m : Match) (s : side) (hint : string) (r : Row),
       df !! i = Some m ->
       compute_travel_distance haversine df teams_info_df city_state_map !! i = Some r ->
       city_hint_of city_state_map m = Some hint ->
       PyStr.contains (normalize_team_name (team_of s m)) (normalize_team_name hint) = true ->
       col ("travel_km_" +:+ side_name s) r = Some (CFloat (Q2Qc 0))).
Proof.
  intros H.
  specialize (H (fun _ _ _ _ => Q2Qc 0) [mirassol_at_home] None None 0%nat
                mirassol_at_home Home "Mirassol" _ eq_refl eq_refl eq_refl eq_refl).
  vm_compute in H. discriminate H.
Qed.

(** ** The rows and the columns of the outputs *)

Lemma mapM_length {A B : Type} (f : A -> result B) (l : list A) (ys : list B) :
  mapM f l = Ok ys -> length ys = length l.
Proof.
  revert ys. induction l as [|x l IH]; intros ys H.
  - apply Ok_inj in H as <-. done.
  - cbn in H. destruct (f x) as [y|e]; [|done]. cbn in H.
    destruct (mapM f l) as [ys'|e] eqn:E; [|done].
    apply Ok_inj in H as <-. simpl. f_equal. by apply IH.
Qed.

Lemma base_zip_with {A : Type} (cells : Match -> A -> list (string * cell))
    (df : list Match) (l : list A) :
  length l = length df ->
  base <$> zip_with (fun m a => {| base := m; extra := cells m a |}) df l = df.
Proof.
  revert l. induction df as [|m df IH]; intros [|a l] H; simpl in *; try done.
  f_equal. apply IH. lia.
Qed.

(** C10 fails on the empty table, which RollingStatsStage does not survive:
    [pd.DataFrame([])] has no [team] column to sort by.  (The
    [ValueError] of ImportanceScoreStage on a superscript round token is
    the other input on which a stage returns no table.) *)
Theorem rolling_stats_raises_on_empty_table
    (quicksort : list Z -> list nat) (window : Z) :
  NoDup (ids []) /\
  compute_rest_days quicksort [] = [] /\
  compute_rolling_stats [] window = Raise (KeyError "team").
Proof.
  split; [constructor|]. split; [|done].
  unfold compute_rest_days. by rewrite sort_values_data_nil.
Qed.

(** On a table that is not empty every stage keeps the rows of its input,
    RestDaysStage in the order of its sort and the others in the order of
    the input. *)
Lemma stages_keep_the_rows
    (haversine : Qc -> Qc -> Qc -> Qc -> Qc) (quicksort : list Z -> list nat)
    (df : list Match)
    (teams_info_df : option (list TeamInfo))
    (city_state_map : option (gmap string string))
    (player_stats_df : list PlayerStat) (standings_df : option (list Standing))
    (params : ImportanceParams) (window top_n : Z) :
  base <$> compute_travel_distance haversine df teams_info_df city_state_map = df /\
  base <$> compute_rest_days quicksort df = sort_values_data quicksort df /\
  base <$> compute_key_players quicksort df player_stats_df window top_n = df /\
  (NoDup (ids df) -> df ≠ [] -> 1 <= window ->
   exists out, compute_rolling_stats df window = Ok out /\ base <$> out = df) /\
  (forall out, compute_importance_score df standings_df params = Ok out ->
               base <$> out = df).
Proof.
  repeat split.
  - unfold compute_travel_distance. rewrite <- list_fmap_compose.
    rewrite (list_fmap_ext _ id); [apply list_fmap_id|].
    intros i m _. simpl. by rewrite travel_row_eq.
  - apply rest_scan_base.
  - unfold compute_key_players. rewrite <- list_fmap_compose. apply list_fmap_id.
  - intros Hnd Hne Hw.
    eexists. split; [by apply compute_rolling_stats_Ok|].
    rewrite <- list_fmap_compose. apply list_fmap_id.
  - intros out. unfold compute_importance_score.
    assert (base <$> ((fun m => {| base := m;
                                   extra := [("importance_home", CNone);
                                             ("importance_away", CNone)] |}) <$> df) = df)
      as Hnull by (rewrite <- list_fmap_compose; apply list_fmap_id).
    destruct standings_df as [[|st sts]|].
    + intros H. apply Ok_inj in H as <-. exact Hnull.
    + destruct (mapM (fun m => team_score _ _ (time_casa m) _) df) as [home|e] eqn:Eh;
        [|by cbn].
      rewrite bind_Ok.
      destruct (mapM (fun m => team_score _ _ (time_fora m) _) df) as [away|e] eqn:Ea;
        [|by cbn].
      rewrite bind_Ok. intros H. apply Ok_inj in H as <-.
      apply (base_zip_with (fun m ha => [("importance_home", float_cell (fst ha));
                                         ("importance_away", float_cell (snd ha))])).
      rewrite length_zip, (mapM_length _ _ _ Eh), (mapM_length _ _ _ Ea). lia.
    + intros H. apply Ok_inj in H as <-. exact Hnull.
Qed.

(** The columns a stage appends to a row. *)
Lemma stages_append_their_columns
    (haversine : Qc -> Qc -> Qc -> Qc -> Qc) (quicksort : list Z -> list nat)
    (df : list Match)
    (teams_info_df : option (list TeamInfo))
    (city_state_map : option (gmap string string))
    (player_stats_df : list PlayerStat) (window top_n : Z) :
  Forall (fun r => fst <$> extra r = ["travel_km_home"; "travel_km_away"])
    (compute_travel_distance haversine df teams_info_df city_state_map) /\
  Forall (fun r => fst <$> extra r = ["rest_days_home"; "rest_days_away"])
    (compute_rest_days quicksort df) /\
  Forall (fun r => fst <$> extra r = ["key_players_home"; "key_players_away"])
    (compute_key_players quicksort df player_stats_df window top_n).
Proof.
  repeat split.
  - unfold compute_travel_distance. rewrite Forall_fmap, Forall_forall.
    intros m _. simpl. by rewrite travel_row_eq.
  - unfold compute_rest_days. generalize (sort_values_data quicksort df).
    generalize (∅ : gmap string Z). intros lp l. revert lp.
    induction l as [|m l IH]; intros lp; simpl; constructor; [done|apply IH].
  - unfold compute_key_players. rewrite Forall_fmap, Forall_forall. by intros m _.
Qed.

(** ** The properties on the example tables *)


Lemma key_players_ranked_witness :
  exists (r : Row) (players : list KeyPlayer),
    key_players_row stable_argsort flamengo_table example_stats 5 1 3 = Some r /\
    col "key_players_home" r = Some (CPlayers players) /\
    Z.of_nat (length players) <= 1 /\
    StronglySorted ranked_before players.
Proof.
  destruct (key_players_ranked stable_argsort stable_argsort_spec
              flamengo_table example_stats 5 1 flamengo_3 Home)
    as (r & players & Hr & _ & Hcol & Hlen & Hsorted & _).
  - apply (bool_decide_unpack _). by vm_compute.
  - repeat constructor.
  - lia.
  - lia.
  - exists r, players. repeat split; assumption.
Defined.

(** * Further properties of the stages *)

(** ** TravelDistanceStage: the hints of the match city *)

Lemma is_byte_iff (n : N) (c : ascii) :
  (n < 256)%N -> PyStr.is_byte n c = true <-> c = PyStr.chr n.
Proof.
  intros Hn. unfold PyStr.is_byte, PyStr.code, PyStr.chr. rewrite N.eqb_eq. split.
  - intros <-. by rewrite ascii_N_embedding.
  - intros ->. by apply N_ascii_embedding.
Qed.

Lemma prefix_dash (c : ascii) (r : string) :
  String.prefix "-" (String c r) = PyStr.is_byte 45 c.
Proof.
  change (String.prefix "-" (String c r))
    with (if ascii_dec "-" c then String.prefix "" r else false).
  destruct (ascii_dec "-" c) as [<-|Hne].
  - by destruct r.
  - symmetry. apply not_true_is_false. intros H.
    apply is_byte_iff in H; [|done]. by subst c.
Qed.

(** ["-" in s] fails exactly where [s.rsplit("-", 1)] has one part. *)
Lemma rsplit_dash_None (s : string) :
  PyStr.contains "-" s = false <-> PyStr.rsplit_dash s = None.
Proof.
  induction s as [|c r IH]; [done|].
  cbn [PyStr.contains PyStr.rsplit_dash]. rewrite prefix_dash, orb_false_iff, IH.
  destruct (PyStr.rsplit_dash r) as [[a b]|].
  - split; [by intros [_ ?]|done].
  - destruct (PyStr.is_byte 45 c); split; try done. by intros [? _].
Qed.

Lemma rsplit_dash_app (a b : string) :
  PyStr.contains "-" b = false ->
  PyStr.rsplit_dash (a +:+ "-" +:+ b) = Some (a, b).
Proof.
  intros Hb. apply rsplit_dash_None in Hb.
  induction a as [|c a IH].
  - change ("" +:+ "-" +:+ b) with (String "-" b).
    cbn [PyStr.rsplit_dash]. by rewrite Hb.
  - change (String c a +:+ "-" +:+ b) with (String c (a +:+ "-" +:+ b)).
    cbn [PyStr.rsplit_dash]. by rewrite IH.
Qed.

(** X1.  A city field is split at its last "-": what is before it, stripped,
    is the city hint and what is after it, stripped, is the state hint,
    whatever [city_state_map] holds; a field without "-" has no city hint,
    and the state [city_state_map] gives for the whole field, if any. *)
Theorem hints_split_at_last_dash
    (city_state_map : option (gmap string string)) (city state : string) :
  (PyStr.contains "-" state = false ->
   hints city_state_map (city +:+ "-" +:+ state) =
     (Some (PyStr.strip city), Some (PyStr.strip state))) /\
  (PyStr.contains "-" city = false ->
   hints city_state_map city = (None, city_state_map ≫= (fun d => d !! city))).
Proof.
  unfold hints. split; intros H.
  - by rewrite rsplit_dash_app.
  - apply rsplit_dash_None in H. by rewrite H.
Qed.

Lemma hints_split_at_last_dash_witness :
  hints None "Mogi-Mirim-SP" = (Some "Mogi-Mirim", Some "SP") /\
  hints (Some {[ "Santos" := "SP" ]}) "Santos" = (None, Some "SP").
Proof.
  split.
  - apply (hints_split_at_last_dash None "Mogi-Mirim" "SP"). reflexivity.
  - destruct (hints_split_at_last_dash (Some {[ "Santos" := "SP" ]}) "Santos" "")
      as [_ H].
    rewrite H; reflexivity.
Defined.

Lemma upper_empty (s : string) : PyStr.is_empty (PyStr.upper s) = PyStr.is_empty s.
Proof.
  destruct s as [|c r]; [done|]. cbn [PyStr.upper].
  destruct (PyStr.between 97 122 c); [done|].
  destruct r as [|d r']; [done|].
  repeat match goal with |- context [if ?b then _ else _] => destruct b end; done.
Qed.

Lemma match_coords_of_state (city_state_map : option (gmap string string))
    (m : Match) (city state : string) :
  cidade_jogo m = Some (city +:+ "-" +:+ state) ->
  PyStr.contains "-" state = false ->
  match_coords_of city_state_map m =
  if PyStr.is_empty (PyStr.strip state) then None
  else assoc (PyStr.upper (PyStr.strip state)) CAPITAL_COORDINATES.
Proof.
  intros Hc Hs. unfold match_coords_of, hints. rewrite Hc.
  change (default "" (Some (city +:+ "-" +:+ state))) with (city +:+ "-" +:+ state).
  by rewrite rsplit_dash_app.
Qed.

(** X2.  The coordinate of a match played in [City-XX] is read off the state
    code alone: two matches whose codes agree once stripped and upper-cased
    get the same coordinate, whatever their cities and whatever
    [city_state_map] holds. *)
Theorem match_coords_by_state
    (city_state_map city_state_map' : option (gmap string string))
    (m m' : Match) (city city' state state' : string) :
  cidade_jogo m = Some (city +:+ "-" +:+ state) ->
  cidade_jogo m' = Some (city' +:+ "-" +:+ state') ->
  PyStr.contains "-" state = false ->
  PyStr.contains "-" state' = false ->
  PyStr.upper (PyStr.strip state) = PyStr.upper (PyStr.strip state') ->
  match_coords_of city_state_map m = match_coords_of city_state_map' m'.
Proof.
  intros Hm Hm' Hs Hs' E.
  rewrite (match_coords_of_state _ m city state), (match_coords_of_state _ m' city' state')
    by done.
  rewrite <- (upper_empty (PyStr.strip state)), <- (upper_empty (PyStr.strip state')).
  by rewrite E.
Qed.

Lemma match_coords_by_state_witness :
  match_coords_of None (played_in (Some "Santos-SP") flamengo_1) =
  match_coords_of (Some {[ "Campinas" := "RJ" ]})
    (played_in (Some "Campinas - sp ") flamengo_2).
Proof.
  apply (match_coords_by_state None (Some {[ "Campinas" := "RJ" ]})
           (played_in (Some "Santos-SP") flamengo_1)
           (played_in (Some "Campinas - sp ") flamengo_2)
           "Santos" "Campinas " "SP" " sp "); reflexivity.
Defined.

(** X3.  A city field without "-" gives no city hint, so no side is taken
    to play at home: each travel cell is the haversine distance when the
    team and the match both have a coordinate and null otherwise, never the
    0.0 of a home match; and where [city_state_map] has no entry for the
    field either, both cells are null. *)
Theorem dashless_city_is_never_home
    (haversine : Qc -> Qc -> Qc -> Qc -> Qc) (df : list Match)
    (teams_info_df : option (list TeamInfo))
    (city_state_map : option (gmap string string)) (i : nat) (m : Match) :
  df !! i = Some m ->
  PyStr.contains "-" (default "" (cidade_jogo m)) = false ->
  exists r : Row,
    compute_travel_distance haversine df teams_info_df city_state_map !! i = Some r /\
    base r = m /\
    (forall s : side,
       col ("travel_km_" +:+ side_name s) r =
       Some match _resolve_team_coords (team_of s m) teams_info_df,
                  match_coords_of city_state_map m with
            | Some base_coords, Some match_coords =>
              CFloat (haversine (fst base_coords) (snd base_coords)
                                (fst match_coords) (snd match_coords))
            | _, _ => CNone
            end) /\
    (city_state_map ≫= (fun d => d !! default "" (cidade_jogo m)) = None ->
     forall s : side, col ("travel_km_" +:+ side_name s) r = Some CNone).
Proof.
  intros Hi Hd. exists (travel_row haversine teams_info_df city_state_map m).
  assert (city_hint_of city_state_map m = None) as Hh.
  { unfold city_hint_of, hints. apply rsplit_dash_None in Hd. by rewrite Hd. }
  assert (forall s : side,
            col ("travel_km_" +:+ side_name s)
                (travel_row haversine teams_info_df city_state_map m) =
            Some (travel_cell haversine teams_info_df (match_coords_of city_state_map m)
                    None (team_of s m))) as Hcol.
  { intros s. rewrite travel_row_eq, Hh. by destruct s. }
  split; [|split; [|split]].
  - unfold compute_travel_distance. by rewrite list_lookup_fmap, Hi.
  - by rewrite travel_row_eq.
  - intros s. rewrite Hcol. unfold travel_cell, plays_at_home.
    by destruct (_resolve_team_coords _ _), (match_coords_of _ _).
  - intros Hmap s. rewrite Hcol. unfold travel_cell.
    assert (match_coords_of city_state_map m = None) as ->; [|by destruct (_resolve_team_coords _ _)].
    unfold match_coords_of, hints. apply rsplit_dash_None in Hd. by rewrite Hd, Hmap.
Qed.

Lemma dashless_city_is_never_home_witness :
  exists r : Row,
    compute_travel_distance (fun _ _ _ _ => Q2Qc 1)
      [played_in (Some "Santos") flamengo_2] None (Some {[ "Santos" := "SP" ]}) !! 0%nat =
      Some r /\
    col "travel_km_away" r = Some (CFloat (Q2Qc 1)).
Proof.
  destruct (dashless_city_is_never_home (fun _ _ _ _ => Q2Qc 1)
              [played_in (Some "Santos") flamengo_2] None (Some {[ "Santos" := "SP" ]})
              0 (played_in (Some "Santos") flamengo_2)) as (r & Hr & _ & Hcell & _).
  - reflexivity.
  - reflexivity.
  - exists r. split; [exact Hr|]. exact (Hcell Away).
Defined.

(** ** RestDaysStage: the order of the rows *)

Section RestDaysOrder.
Variable quicksort : list Z -> list nat.
Hypothesis quicksort_spec : argsort_spec quicksort.

(** X4.  RestDaysStage returns the matches of its input, each as often as
    it is there, in ascending order of their dates. *)
Theorem rest_days_rows_chronological (matches_df : list Match) :
  sorted_by by_date (base <$> compute_rest_days quicksort matches_df) /\
  (base <$> compute_rest_days quicksort matches_df ≡ₚ matches_df) /\
  length (compute_rest_days quicksort matches_df) = length matches_df.
Proof.
  unfold compute_rest_days. rewrite rest_scan_base, rest_scan_length.
  split; [by apply sort_values_data_sorted|].
  split; [by apply sort_values_data_perm|]. by apply sort_values_data_length.
Qed.

(** Tables with the same rows, no two of them on one date, have one
    chronological order. *)
Lemma sort_values_by_date_perm (df df' : list Match) :
  NoDup (data <$> df) -> df ≡ₚ df' ->
  sort_values_data quicksort df = sort_values_data quicksort df'.
Proof.
  intros Hnd Hp.
  apply (StronglySorted_unique_strong (le_of by_date)).
  - intros x1 x2 H1 H2 H12 H21.
    rewrite sort_values_data_perm in H1 by done.
    rewrite sort_values_data_perm, <- Hp in H2 by done.
    apply (NoDup_fmap_elem_inj data df); [done..|].
    unfold le_of, by_date in H12, H21. rewrite Z.leb_le in H12, H21. lia.
  - by apply sort_values_data_sorted.
  - by apply sort_values_data_sorted.
  - by rewrite !sort_values_data_perm.
Qed.

(** X5.  Where no two matches have the same date, the output of
    RestDaysStage does not depend on the order of the rows of its input. *)
Theorem rest_days_row_order_irrelevant (df df' : list Match) :
  NoDup (data <$> df) -> df ≡ₚ df' ->
  compute_rest_days quicksort df = compute_rest_days quicksort df'.
Proof.
  intros Hnd Hp. unfold compute_rest_days.
  by rewrite (sort_values_by_date_perm df df').
Qed.

End RestDaysOrder.

Lemma rest_days_rows_chronological_witness :
  sorted_by by_date (base <$> compute_rest_days stable_argsort flamengo_table) /\
  (base <$> compute_rest_days stable_argsort flamengo_table ≡ₚ flamengo_table) /\
  length (compute_rest_days stable_argsort flamengo_table) = length flamengo_table.
Proof.
  exact (rest_days_rows_chronological stable_argsort stable_argsort_spec
           flamengo_table).
Defined.

Lemma rest_days_row_order_irrelevant_witness :
  compute_rest_days stable_argsort flamengo_table =
  compute_rest_days stable_argsort [flamengo_1; flamengo_2; flamengo_3].
Proof.
  apply (rest_days_row_order_irrelevant stable_argsort stable_argsort_spec).
  - apply (bool_decide_unpack _). by vm_compute.
  - unfold flamengo_table.
    eapply perm_trans; [apply perm_swap|]. apply perm_skip, perm_swap.
Defined.

(** ** RollingStatsStage: the window *)

(** X6.  On a table that is not empty, a window below 1 makes
    RollingStatsStage raise the [ValueError] of [rolling], whose
    [min_periods=1] exceeds the window: [min_periods 1 must be <= window]
    followed by the window. *)
Theorem rolling_stats_rejects_small_window (df : list Match) (window : Z) :
  df ≠ [] -> window < 1 ->
  compute_rolling_stats df window =
  Raise (ValueError ("min_periods 1 must be <= window " +:+ pretty window)).
Proof.
  intros Hne Hw. apply compute_rolling_stats_Raise; [done|].
  intros s. unfold _rolling_mean_shifted.
  by rewrite (proj2 (Z.ltb_lt window 1)) by lia.
Qed.

Lemma rolling_stats_rejects_small_window_witness :
  compute_rolling_stats flamengo_table 0 =
    Raise (ValueError "min_periods 1 must be <= window 0") /\
  compute_rolling_stats flamengo_table (-1) =
    Raise (ValueError "min_periods 1 must be <= window -1").
Proof.
  split.
  - apply (rolling_stats_rejects_small_window flamengo_table 0); [discriminate|lia].
  - apply (rolling_stats_rejects_small_window flamengo_table (-1)); [discriminate|lia].
Defined.

(** The number of elements of a list, as a rational. *)
Lemma Qc_of_length_cons {A : Type} (x : A) (l : list A) :
  Q2Qc (inject_Z (Z.of_nat (length (x :: l)))) =
  (1 + Q2Qc (inject_Z (Z.of_nat (length l))))%Qc.
Proof.
  apply Qc_is_canon. simpl length. unfold Qcplus.
  rewrite !this_Q2Qc. rewrite Nat2Z.inj_succ.
  unfold Qeq, Qplus. simpl. change (Z.pos (1 * 1)) with 1. lia.
Qed.

Lemma Qc_of_length_pos {A : Type} (x : A) (l : list A) :
  (0 < Q2Qc (inject_Z (Z.of_nat (length (x :: l)))))%Qc.
Proof.
  unfold Qclt. rewrite (this_Q2Qc (inject_Z _)). unfold Qlt. simpl. lia.
Qed.

Lemma sum_Qc_bounds (lo hi : Qc) (l : list Qc) :
  Forall (fun q => lo <= q /\ q <= hi)%Qc l ->
  (lo * Q2Qc (inject_Z (Z.of_nat (length l))) <= sum_Qc l /\
   sum_Qc l <= hi * Q2Qc (inject_Z (Z.of_nat (length l))))%Qc.
Proof.
  induction 1 as [|q l [Hlo Hhi] Hl [IHlo IHhi]].
  - simpl. rewrite !Qcmult_0_r. split; apply Qcle_refl.
  - rewrite Qc_of_length_cons. cbn [sum_Qc foldr]. fold (sum_Qc l).
    rewrite !Qcmult_plus_distr_r, !Qcmult_1_r.
    split; by apply Qcplus_le_compat.
Qed.

(** The mean of a window lies between the bounds of its values. *)
Lemma window_mean_bounds (lo hi : Qc) (vals : list (option Qc)) (q : Qc) :
  Forall (fun v => forall x, v = Some x -> lo <= x /\ x <= hi)%Qc vals ->
  window_mean vals = Some q -> (lo <= q /\ q <= hi)%Qc.
Proof.
  intros Hall. unfold window_mean.
  assert (Forall (fun x => lo <= x /\ x <= hi)%Qc (omap id vals)) as Hp.
  { rewrite Forall_forall. intros x Hx. apply list_elem_of_omap in Hx as (v & Hv & E).
    rewrite Forall_forall in Hall. by apply (Hall v Hv). }
  destruct (omap id vals) as [|x l]; [done|]. intros [= <-].
  destruct (sum_Qc_bounds lo hi (x :: l) Hp) as [Hlo Hhi].
  pose proof (Qc_of_length_pos x l) as Hpos.
  set (n := Q2Qc (inject_Z (Z.of_nat (length (x :: l))))) in *.
  assert (n <> 0)%Qc as Hn by (apply not_eq_sym, Qclt_not_eq; exact Hpos).
  assert (sum_Qc (x :: l) / n * n = sum_Qc (x :: l))%Qc as E by (field; exact Hn).
  change (lo <= sum_Qc (x :: l) / n /\ sum_Qc (x :: l) / n <= hi)%Qc.
  split; apply Qcmult_lt_0_le_reg_r with n; try exact Hpos; by rewrite E.
Qed.

Lemma trailing_subseteq {A : Type} (w : nat) (l : list A) : trailing w l ⊆ l.
Proof. unfold trailing. apply subseteq_drop. Qed.

(** X7.  A rolling cell stays within the bounds of what it averages: where
    every value of a metric over the earlier observations of the team lies
    between [lo] and [hi], the cell of a match is null or a number between
    [lo] and [hi]. *)
Theorem rolling_cell_within_bounds
    (df : list Match) (window : Z) (s : side) (m : Match)
    (mt : string * (LongRow -> option Qc)) (out : list Row) (lo hi : Qc) :
  NoDup (ids df) -> m ∈ df -> 1 <= window -> mt ∈ metrics ->
  compute_rolling_stats df window = Ok out ->
  (forall r v, r ∈ prior_observations df (obs s m) -> snd mt r = Some v ->
     (lo <= v /\ v <= hi)%Qc) ->
  rolling_cell out (id_partida m) (fst mt) window s = Some CNone \/
  exists q, rolling_cell out (id_partida m) (fst mt) window s = Some (CFloat q) /\
            (lo <= q /\ q <= hi)%Qc.
Proof.
  intros Hnd Hm Hw Hmt Hout Hb.
  rewrite (rolling_cell_eq df window s m mt out) by done.
  destruct (prior_mean _ _ _) as [q|] eqn:E; [right|by left].
  exists q. split; [done|]. unfold prior_mean in E.
  apply (window_mean_bounds lo hi _ q) in E; [done|].
  rewrite Forall_forall. intros v Hv x ->.
  apply trailing_subseteq in Hv. apply list_elem_of_fmap in Hv as (r & Hr & Hin).
  by apply (Hb r x).
Qed.

Lemma rolling_cell_within_bounds_witness :
  exists out,
    compute_rolling_stats flamengo_table 2 = Ok out /\
    (rolling_cell out 3 "goals_for" 2 Home = Some CNone \/
     exists q, rolling_cell out 3 "goals_for" 2 Home = Some (CFloat q) /\
               (Q2Qc 1 <= q /\ q <= Q2Qc 2)%Qc).
Proof.
  destruct (compute_rolling_stats flamengo_table 2) as [out|e] eqn:E;
    [|by vm_compute in E].
  exists out. split; [done|].
  apply (rolling_cell_within_bounds flamengo_table 2 Home flamengo_3
           ("goals_for", lr_goals_for) out (Q2Qc 1) (Q2Qc 2)).
  - apply (bool_decide_unpack _). by vm_compute.
  - repeat constructor.
  - lia.
  - repeat constructor.
  - exact E.
  - intros r v Hr Hv. vm_compute in Hr.
    apply elem_of_cons in Hr as [->|Hr];
      [|apply elem_of_cons in Hr as [->|Hr]; [|by apply elem_of_nil in Hr]];
      apply (inj Some) in Hv as <-; by vm_compute.
Defined.

Lemma trailing_all {A : Type} (w : nat) (l : list A) :
  (length l <= w)%nat -> trailing w l = l.
Proof. intros H. unfold trailing. by replace (length l - w)%nat with 0%nat by lia. Qed.

(** X8.  A team with no more than [window] earlier observations gets the
    mean over all of them: the window is filled as far as the history
    goes, and a longer window changes nothing. *)
Theorem rolling_window_longer_than_history
    (df : list Match) (window : Z) (s : side) (m : Match)
    (mt : string * (LongRow -> option Qc)) (out : list Row) :
  NoDup (ids df) -> m ∈ df -> 1 <= window -> mt ∈ metrics ->
  compute_rolling_stats df window = Ok out ->
  Z.of_nat (length (prior_observations df (obs s m))) <= window ->
  rolling_cell out (id_partida m) (fst mt) window s =
  Some (float_cell (window_mean (snd mt <$> prior_observations df (obs s m)))).
Proof.
  intros Hnd Hm Hw Hmt Hout Hlen.
  rewrite (rolling_cell_eq df window s m mt out) by done.
  unfold prior_mean. rewrite trailing_all; [done|]. rewrite length_fmap. lia.
Qed.

Lemma rolling_window_longer_than_history_witness :
  exists out,
    compute_rolling_stats flamengo_table 5 = Ok out /\
    rolling_cell out 3 "goals_for" 5 Home = Some (CFloat (Q2Qc (3 # 2))).
Proof.
  destruct (compute_rolling_stats flamengo_table 5) as [out|e] eqn:E;
    [|by vm_compute in E].
  exists out. split; [done|].
  eapply eq_trans.
  - apply (rolling_window_longer_than_history flamengo_table 5 Home flamengo_3
             ("goals_for", lr_goals_for) out).
    + apply (bool_decide_unpack _). by vm_compute.
    + repeat constructor.
    + lia.
    + repeat constructor.
    + exact E.
    + by vm_compute.
  - vm_compute. reflexivity.
Defined.

(** ** KeyPlayersStage: who is listed, and from which rows *)

Lemma head_n_sublist {A : Type} (n : Z) (l : list A) : head_n n l `sublist_of` l.
Proof. unfold head_n. destruct (n <? 0); apply sublist_take. Qed.

Lemma slice_from_subseteq {A : Type} (start : Z) (l : list A) : slice_from start l ⊆ l.
Proof. unfold slice_from. destruct (start <? 0); apply subseteq_drop. Qed.

(** The players of a list are distinct, and come from the rows that
    count. *)
Lemma key_players_of_players (ps : list PlayerStat) (tm : gmap string (list Z))
    (dates : gmap Z Z) (window top_n : Z) (team : string) (d : Z) :
  let players := key_players_of ps tm dates window top_n team d in
  NoDup (kp_id_jogador <$> players) /\
  forall e, e ∈ players ->
    exists x, x ∈ ps /\ ps_id_jogador x = kp_id_jogador e /\ ps_time x = team /\
              ps_id_partida x ∈ history_ids tm dates team d.
Proof.
  unfold key_players_of. cbv zeta.
  set (recent := filter _ ps).
  assert (forall x, x ∈ recent ->
            x ∈ ps /\ ps_time x = team /\ ps_id_partida x ∈ history_ids tm dates team d)
    as Hrecent.
  { intros x [[Ht Hid] Hx]%list_elem_of_filter. repeat split; [done..|].
    unfold recent_ids in Hid. by apply slice_from_subseteq in Hid. }
  clearbody recent. destruct recent as [|x0 recent0] eqn:E.
  { split; [constructor|]. by intros e He%elem_of_nil. }
  rewrite <- E in *. clear E x0 recent0.
  pose proof (head_n_sublist top_n (sort_values by_score_gols_desc (grouped recent))) as Hsub.
  split.
  - eapply sublist_NoDup; [|by apply fmap_sublist].
    rewrite sort_values_perm, grouped_players. apply NoDup_remove_dups.
  - intros e He.
    assert (e ∈ grouped recent) as Hg.
    { rewrite <- (sort_values_perm by_score_gols_desc). by eapply elem_of_sublist. }
    assert (kp_id_jogador e ∈ ps_id_jogador <$> recent) as Hp.
    { rewrite <- elem_of_remove_dups, <- grouped_players.
      by apply list_elem_of_fmap_2. }
    apply list_elem_of_fmap in Hp as (x & Hx & Hin).
    exists x. destruct (Hrecent x Hin) as (? & ? & ?). done.
Qed.

Section KeyPlayersSources.
Variable quicksort : list Z -> list nat.

Lemma team_history_elem (df : list Match) (team : string) (d mid : Z) :
  mid ∈ team_history quicksort df team d ->
  exists m, m ∈ df /\ id_partida m = mid /\ plays team m /\ data m < d.
Proof.
  unfold team_history. rewrite list_elem_of_In, in_flat_map.
  intros (m & Hm & Hmid). apply list_elem_of_In in Hm, Hmid.
  apply list_elem_of_filter in Hm as [Hd Hm].
  apply sort_values_data_subseteq in Hm.
  exists m. split; [done|]. unfold appearances in Hmid. unfold plays.
  apply elem_of_app in Hmid as [Hmid|Hmid].
  - destruct (decide (time_casa m = team)); [|by apply elem_of_nil in Hmid].
    apply list_elem_of_singleton in Hmid. auto.
  - destruct (decide (time_fora m = team)); [|by apply elem_of_nil in Hmid].
    apply list_elem_of_singleton in Hmid. auto.
Qed.

(** X9.  Whatever the window and [top_n], no player is listed twice in a
    cell of KeyPlayersStage, and every listed player has a row of
    [player_stats_df] for the team of that side, in a match of the team that
    the table dates before the match. *)
Theorem key_players_distinct_and_earlier
    (df : list Match) (player_stats_df : list PlayerStat) (window top_n : Z)
    (m : Match) (s : side) :
  NoDup (ids df) -> m ∈ df ->
  exists (r : Row) (players : list KeyPlayer),
    key_players_row quicksort df player_stats_df window top_n (id_partida m) = Some r /\
    col ("key_players_" +:+ side_name s) r = Some (CPlayers players) /\
    NoDup (kp_id_jogador <$> players) /\
    Forall (fun e =>
      exists x m', x ∈ player_stats_df /\ ps_id_jogador x = kp_id_jogador e /\
                   ps_time x = team_of s m /\
                   m' ∈ df /\ id_partida m' = ps_id_partida x /\
                   plays (team_of s m) m' /\ data m' < data m) players.
Proof.
  intros Hnd Hm. eexists.
  exists (key_players_of player_stats_df (team_matches quicksort df) (match_date_map df)
            window top_n (team_of s m) (data m)).
  split; [by apply key_players_row_eq|].
  assert (forall team,
    let players := key_players_of player_stats_df (team_matches quicksort df) (match_date_map df)
                     window top_n team (data m) in
    NoDup (kp_id_jogador <$> players) /\
    Forall (fun e =>
      exists x m', x ∈ player_stats_df /\ ps_id_jogador x = kp_id_jogador e /\
                   ps_time x = team /\
                   m' ∈ df /\ id_partida m' = ps_id_partida x /\
                   plays team m' /\ data m' < data m) players) as H.
  { intros team players.
    destruct (key_players_of_players player_stats_df (team_matches quicksort df) (match_date_map df)
                window top_n team (data m)) as [Hd He].
    split; [done|]. rewrite Forall_forall. intros e Hin.
    destruct (He e Hin) as (x & Hx & Hp & Ht & Hh).
    rewrite history_ids_dated_before in Hh by done.
    apply team_history_elem in Hh as (m' & Hm' & Hid & Hpl & Hdt).
    by exists x, m'. }
  destruct s.
  - split; [reflexivity|]. apply (H (time_casa m)).
  - split; [reflexivity|]. apply (H (time_fora m)).
Qed.


Lemma foldl_pointwise {A B : Type} (f g : A -> B -> A) (l : list B) (a : A) :
  (forall a x, f a x = g a x) -> foldl f a l = foldl g a l.
Proof.
  intros H. revert a. induction l as [|x l IH]; intros a; [done|].
  simpl. by rewrite H, IH.
Qed.

(** X10.  Rows of [player_stats_df] for a match that is not in the table,
    or for a team that is neither side of its match, never count: without
    them KeyPlayersStage returns the same table. *)
Theorem key_players_ignore_foreign_rows
    (df : list Match) (player_stats_df : list PlayerStat) (window top_n : Z) :
  compute_key_players quicksort df (filter (of_table df) player_stats_df) window top_n =
  compute_key_players quicksort df player_stats_df window top_n.
Proof.
  assert (forall team d,
    key_players_of (filter (of_table df) player_stats_df) (team_matches quicksort df)
      (match_date_map df) window top_n team d =
    key_players_of player_stats_df (team_matches quicksort df) (match_date_map df)
      window top_n team d) as Hk.
  { intros team d. unfold key_players_of. cbv zeta.
    rewrite list_filter_filter_l; [done|].
    intros x [Ht Hid]. unfold recent_ids, history_ids in Hid.
    apply slice_from_subseteq in Hid. apply list_elem_of_filter in Hid as [_ Hid].
    rewrite team_matches_lookup in Hid.
    rewrite list_elem_of_In, in_flat_map in Hid. destruct Hid as (m & Hm & Hid).
    apply list_elem_of_In in Hm, Hid. apply sort_values_data_subseteq in Hm.
    unfold of_table. rewrite Exists_exists. exists m. split; [done|].
    rewrite Ht. unfold appearances in Hid. unfold plays.
    apply elem_of_app in Hid as [Hid|Hid].
    - destruct (decide (time_casa m = team)); [|by apply elem_of_nil in Hid].
      apply list_elem_of_singleton in Hid. split; [done|auto].
    - destruct (decide (time_fora m = team)); [|by apply elem_of_nil in Hid].
      apply list_elem_of_singleton in Hid. split; [done|auto]. }
  assert (forall s,
    key_dict quicksort (filter (of_table df) player_stats_df) df window top_n s =
    key_dict quicksort player_stats_df df window top_n s) as Hd.
  { intros s. unfold key_dict. cbv zeta.
    apply foldl_pointwise. intros acc m. by rewrite Hk. }
  unfold compute_key_players. cbv zeta. by rewrite !Hd.
Qed.

Lemma length_appearances (team : string) (l : list Match) :
  (length (flat_map (appearances team) l) <= 2 * length l)%nat.
Proof.
  induction l as [|m l IH]; [done|].
  simpl. rewrite length_app. unfold appearances at 1. rewrite length_app.
  destruct (decide (time_casa m = team)), (decide (time_fora m = team)); simpl; lia.
Qed.

Hypothesis quicksort_spec : argsort_spec quicksort.

Lemma length_history_ids (df : list Match) (team : string) (d : Z) :
  (length (history_ids (team_matches quicksort df) (match_date_map df) team d) <= 2 * length df)%nat.
Proof.
  unfold history_ids. etrans; [apply length_filter|].
  rewrite team_matches_lookup. etrans; [apply length_appearances|].
  by rewrite sort_values_data_length.
Qed.

(** X11.  A window of 0 does not empty the history: [history_ids[-0:]] is
    the whole list, so KeyPlayersStage with a window of 0 returns what it
    returns with any window that covers every match of the table. *)
Theorem key_players_window_zero_is_unbounded
    (df : list Match) (player_stats_df : list PlayerStat) (window top_n : Z) :
  Z.of_nat (2 * length df) <= window ->
  compute_key_players quicksort df player_stats_df 0 top_n =
  compute_key_players quicksort df player_stats_df window top_n.
Proof.
  intros Hw.
  assert (forall team d,
    key_players_of player_stats_df (team_matches quicksort df) (match_date_map df) 0 top_n team d =
    key_players_of player_stats_df (team_matches quicksort df) (match_date_map df)
      window top_n team d) as Hk.
  { intros team d. unfold key_players_of, recent_ids. cbv zeta.
    pose proof (length_history_ids df team d) as Hlen.
    set (h := history_ids _ _ team d) in *.
    assert (slice_from (- 0) h = slice_from (- window) h) as ->; [|done].
    unfold slice_from. change (- 0 <? 0) with false. cbv iota.
    destruct (Z.ltb_spec (- window) 0) as [Hneg|Hpos].
    - by replace (Z.to_nat (Z.of_nat (length h) + - window)) with 0%nat by lia.
    - by replace (Z.to_nat (- window)) with 0%nat by lia. }
  assert (forall s,
    key_dict quicksort player_stats_df df 0 top_n s =
    key_dict quicksort player_stats_df df window top_n s) as Hd.
  { intros s. unfold key_dict. cbv zeta.
    apply foldl_pointwise. intros acc m. by rewrite Hk. }
  unfold compute_key_players. cbv zeta. by rewrite !Hd.
Qed.

End KeyPlayersSources.

Lemma key_players_distinct_and_earlier_witness :
  exists (r : Row) (players : list KeyPlayer),
    key_players_row stable_argsort flamengo_table example_stats 5 3 3 = Some r /\
    col "key_players_home" r = Some (CPlayers players) /\
    NoDup (kp_id_jogador <$> players).
Proof.
  destruct (key_players_distinct_and_earlier stable_argsort
              flamengo_table example_stats 5 3
              flamengo_3 Home) as (r & players & Hr & Hc & Hd & _).
  - apply (bool_decide_unpack _). by vm_compute.
  - repeat constructor.
  - by exists r, players.
Defined.

Lemma key_players_window_zero_is_unbounded_witness :
  compute_key_players stable_argsort flamengo_table example_stats 0 3 =
  compute_key_players stable_argsort flamengo_table example_stats 6 3.
Proof.
  apply (key_players_window_zero_is_unbounded stable_argsort stable_argsort_spec
           flamengo_table example_stats 6 3).
  simpl. lia.
Defined.

(** ** ImportanceScoreStage: the range of the score and the round tokens *)

Lemma py_round_0 : py_round 0 3 = 0%Qc.
Proof. apply Qc_is_canon. reflexivity. Qed.

Lemma Qc_one_plus_pos (a : Qc) : (0 <= a)%Qc -> (0 < 1 + a)%Qc.
Proof.
  intros Ha. apply Qclt_le_trans with 1%Qc; [done|].
  rewrite <- (Qcplus_0_r 1) at 1. apply Qcplus_le_compat; [apply Qcle_refl|done].
Qed.

(** The tension lies between 0 and 1. *)
Lemma tension_range (a : Qc) : (0 <= a)%Qc -> (0 <= 1 / (1 + a) /\ 1 / (1 + a) <= 1)%Qc.
Proof.
  intros Ha. pose proof (Qc_one_plus_pos a Ha) as Hp.
  assert (1 + a <> 0)%Qc as Hn by (apply not_eq_sym, Qclt_not_eq; exact Hp).
  split.
  - apply Qcmult_lt_0_le_reg_r with (1 + a)%Qc; [done|].
    replace (1 / (1 + a) * (1 + a))%Qc with 1%Qc by (field; done).
    by rewrite Qcmult_0_l.
  - replace 1%Qc with (1 / (1 + 0))%Qc at 3 by (apply Qc_is_canon; reflexivity).
    apply tension_antitone; [apply Qcle_refl|done].
Qed.

Lemma importance_range (params : ImportanceParams) (rodada : Z) (pontos g4 z4 : Qc) :
  (0 <= importance (stage_factor_of params rodada) pontos g4 z4 /\
   importance (stage_factor_of params rodada) pontos g4 z4 <= stage_factor_of params rodada)%Qc.
Proof.
  unfold importance. cbv zeta.
  set (a := max0 (g4 - pontos)). set (b := max0 (pontos - z4)).
  assert (0 <= a + b)%Qc as Hab.
  { rewrite <- (Qcplus_0_r 0). apply Qcplus_le_compat; apply max0_nonneg. }
  change (Q2Qc 1) with 1%Qc. rewrite <- Qcplus_assoc.
  destruct (tension_range (a + b) Hab) as [H0 H1].
  pose proof (stage_factor_nonneg params rodada) as Hs.
  split.
  - rewrite <- py_round_0. apply py_round_mono.
    rewrite <- (Qcmult_0_l (stage_factor_of params rodada)).
    by apply Qcmult_le_compat_r.
  - rewrite <- (stage_factor_rounds_to_itself params rodada) at 2.
    apply py_round_mono.
    rewrite <- (Qcmult_1_l (stage_factor_of params rodada)) at 2.
    by apply Qcmult_le_compat_r.
Qed.

Lemma stage_factor_le_1 (params : ImportanceParams) (rodada : Z) :
  (stage_factor_of params rodada <= 1)%Qc.
Proof. unfold stage_factor_of. by destruct (_ <=? _). Qed.

(** X12.  An importance that is not null lies between 0 and the stage
    factor of its round, so between 0 and 1, and is at most 0.5 before the
    round of [high_round_threshold]. *)
Theorem importance_score_range
    (standings_df : list Standing) (params : ImportanceParams)
    (team : string) (token : round_token) (q : Qc) :
  team_score standings_df params team (Some token) = Ok (Some q) ->
  exists rodada : Z,
    parse_round token = Ok (Some rodada) /\
    (0 <= q /\ q <= stage_factor_of params rodada /\ q <= 1)%Qc /\
    (rodada < high_round_threshold params -> (q <= Q2Qc (1 # 2))%Qc).
Proof.
  unfold team_score. intros H.
  destruct (parse_round token) as [[rodada|]|e]; [|done..].
  rewrite bind_Ok in H. exists rodada. split; [done|].
  destruct (filter (fun s => st_rodada s = rodada) standings_df) as [|s0 table]; [done|].
  destruct (filter _ (s0 :: table)) as [|t ?]; [done|].
  destruct (filter _ (s0 :: table)) as [|g ?]; [done|].
  destruct (filter _ (s0 :: table)) as [|z ?]; [done|].
  apply Ok_inj in H. apply (inj Some) in H as <-.
  destruct (importance_range params rodada (st_pontos t) (st_pontos g) (st_pontos z))
    as [H0 H1].
  split; [split; [done|split; [done|]]|].
  - eapply Qcle_trans; [exact H1|apply stage_factor_le_1].
  - intros Hlt. eapply Qcle_trans; [exact H1|].
    unfold stage_factor_of. rewrite (proj2 (Z.leb_gt _ _)) by done. apply Qcle_refl.
Qed.

Lemma importance_score_range_witness :
  exists rodada : Z,
    parse_round (RoundInt 2) = Ok (Some rodada) /\
    (0 <= Q2Qc (1 # 8) /\ Q2Qc (1 # 8) <= stage_factor_of default_params rodada /\
     Q2Qc (1 # 8) <= 1)%Qc /\
    (rodada < high_round_threshold default_params -> (Q2Qc (1 # 8) <= Q2Qc (1 # 2))%Qc).
Proof.
  apply (importance_score_range example_standings default_params "Flamengo" (RoundInt 2)).
  vm_compute. do 2 f_equal. apply Qc_is_canon. reflexivity.
Defined.

(** *** Round tokens *)

Lemma pretty_N_char_digit (d : N) :
  (d < 10)%N ->
  PyStr.is_decimal (pretty_N_char d) = true /\
  Z.of_N (PyStr.code (pretty_N_char d) - 48) = Z.of_N d.
Proof.
  intros Hd.
  assert (d = 0 \/ d = 1 \/ d = 2 \/ d = 3 \/ d = 4 \/ d = 5 \/ d = 6 \/ d = 7 \/
          d = 8 \/ d = 9)%N as H by lia.
  repeat (destruct H as [->|H]; [done|]). by subst d.
Qed.

(** [int] reads the digits that [pretty] writes. *)
Lemma int_from_pretty_N_go (x : N) (s : string) :
  exists k : nat, forall acc,
    PyStr.int_from acc (pretty_N_go x s) =
    PyStr.int_from (acc * 10 ^ Z.of_nat k + Z.of_N x) s.
Proof.
  revert s. induction (N.lt_wf_0 x) as [x _ IH]; intros s.
  assert (x = 0 \/ 0 < x)%N as [->|Hx] by lia.
  - exists 0%nat. intros acc. rewrite pretty_N_go_0. f_equal. simpl. lia.
  - rewrite pretty_N_go_step by done.
    destruct (IH (x `div` 10)%N (N.div_lt x 10 Hx eq_refl)
                 (String (pretty_N_char (x `mod` 10)) s)) as [k Hk].
    exists (S k). intros acc. rewrite Hk. cbn [PyStr.int_from].
    destruct (pretty_N_char_digit (x `mod` 10)%N) as [-> ->].
    { by apply N.mod_lt. }
    f_equal. rewrite Nat2Z.inj_succ, Z.pow_succ_r by lia.
    pose proof (N.div_mod x 10 ltac:(done)) as Hdm.
    rewrite N2Z.inj_mod. rewrite N2Z.inj_div.
    change (Z.of_N 10) with 10.
    pose proof (Z.div_mod (Z.of_N x) 10 ltac:(lia)). lia.
Qed.

Lemma pretty_N_go_decimal (x : N) (s : string) :
  str_forall PyStr.is_decimal s = true ->
  str_forall PyStr.is_decimal (pretty_N_go x s) = true.
Proof.
  revert s. induction (N.lt_wf_0 x) as [x _ IH]; intros s Hs.
  assert (x = 0 \/ 0 < x)%N as [->|Hx] by lia; [by rewrite pretty_N_go_0|].
  rewrite pretty_N_go_step by done. apply IH; [by apply N.div_lt|].
  cbn [str_forall]. rewrite Hs, andb_true_r.
  apply pretty_N_char_digit. by apply N.mod_lt.
Qed.

Lemma pretty_N_go_nonempty (x : N) (s : string) :
  PyStr.is_empty s = false -> PyStr.is_empty (pretty_N_go x s) = false.
Proof.
  revert s. induction (N.lt_wf_0 x) as [x _ IH]; intros s Hs.
  assert (x = 0 \/ 0 < x)%N as [->|Hx] by lia; [by rewrite pretty_N_go_0|].
  rewrite pretty_N_go_step by done. apply IH; [by apply N.div_lt|done].
Qed.

Lemma decimal_prefix_decimal (s : string) :
  str_forall PyStr.is_decimal s = true -> PyStr.decimal_prefix s = String.length s.
Proof.
  induction s as [|c s IH]; [done|].
  cbn [str_forall PyStr.decimal_prefix String.length].
  rewrite andb_true_iff. intros [-> Hs]. by rewrite IH.
Qed.

(** [int] on decimal digits, at least one and no more than the limit. *)
Lemma int_of_decimal (s : string) (z : Z) :
  str_forall PyStr.is_decimal s = true -> PyStr.is_empty s = false ->
  Z.of_nat (String.length s) <= PyStr.max_str_digits ->
  PyStr.int_from 0 s = Some z -> PyStr.int s = Ok z.
Proof.
  intros Hd He Hl Hz. unfold PyStr.int. destruct s as [|c s]; [done|].
  rewrite decimal_prefix_decimal by done.
  rewrite (proj2 (Z.ltb_ge _ _)) by lia. by rewrite Hz.
Qed.

(** [int] on more decimal digits than the limit. *)
Lemma int_over_the_limit (s : string) :
  str_forall PyStr.is_decimal s = true ->
  PyStr.max_str_digits < Z.of_nat (String.length s) ->
  PyStr.int s =
  Raise (ValueError "Exceeds the limit (4300 digits) for integer string conversion").
Proof.
  intros Hd Hl. unfold PyStr.int. destruct s as [|c s]; [done|].
  rewrite decimal_prefix_decimal by done.
  by rewrite (proj2 (Z.ltb_lt _ _)) by lia.
Qed.

(** The decimal text of a number that is not negative: digits, at least
    one, that [int] reads back where they are no more than the limit. *)
Lemma pretty_nonneg (n : Z) :
  0 <= n ->
  str_forall PyStr.is_decimal (pretty n) = true /\
  PyStr.is_empty (pretty n) = false /\
  PyStr.int_from 0 (pretty n) = Some n.
Proof.
  intros Hn. destruct n as [|p|p]; [done| |lia].
  change (pretty (Z.pos p)) with (pretty_N_go (N.pos p) "").
  assert (0 < N.pos p)%N as Hp by lia.
  split; [by apply pretty_N_go_decimal|].
  rewrite pretty_N_go_step by done.
  split; [by apply pretty_N_go_nonempty|].
  rewrite <- pretty_N_go_step by done.
  destruct (int_from_pretty_N_go (N.pos p) "") as [k Hk].
  rewrite Hk. cbn [PyStr.int_from]. by rewrite Z.mul_0_l, Z.add_0_l.
Qed.

Lemma digits_plain_cons (c : ascii) (r : string) :
  is_plain c = true -> PyStr.digits (String c r) = PyStr.digits r.
Proof.
  unfold is_plain, is_ascii. rewrite andb_true_iff, negb_true_iff, N.ltb_lt.
  intros [Hc Hd]. cbn [PyStr.digits]. rewrite Hd.
  destruct r as [|d r']; [done|].
  unfold PyStr.is_superscript, PyStr.is_byte.
  by rewrite (proj2 (N.eqb_neq (PyStr.code c) 194)) by lia.
Qed.

Lemma digits_plain_app (a b : string) :
  str_forall is_plain a = true -> PyStr.digits (a +:+ b) = PyStr.digits b.
Proof.
  induction a as [|c a IH]; [done|].
  cbn [str_forall]. rewrite andb_true_iff. intros [Hc Ha].
  change (String c a +:+ b) with (String c (a +:+ b)).
  rewrite digits_plain_cons by done. by apply IH.
Qed.

Lemma digits_plain (s : string) : str_forall is_plain s = true -> PyStr.digits s = "".
Proof.
  induction s as [|c s IH]; [done|].
  cbn [str_forall]. rewrite andb_true_iff. intros [Hc Hs].
  rewrite digits_plain_cons by done. by apply IH.
Qed.

Lemma digits_decimal_app (a b : string) :
  str_forall PyStr.is_decimal a = true -> PyStr.digits (a +:+ b) = a +:+ PyStr.digits b.
Proof.
  induction a as [|c a IH]; [done|].
  cbn [str_forall]. rewrite andb_true_iff. intros [Hc Ha].
  change (String c a +:+ b) with (String c (a +:+ b)).
  cbn [PyStr.digits]. rewrite Hc, IH by done. done.
Qed.

Lemma append_empty_r (s : string) : s +:+ "" = s.
Proof.
  induction s as [|c s IH]; [done|].
  change (String c s +:+ "") with (String c (s +:+ "")). by rewrite IH.
Qed.

Lemma parse_round_text (before after : string) (n : Z) :
  0 <= n -> Z.of_nat (String.length (pretty n)) <= PyStr.max_str_digits ->
  str_forall is_plain before = true -> str_forall is_plain after = true ->
  parse_round (RoundStr (before +:+ pretty n +:+ after)) = Ok (Some n).
Proof.
  intros Hn Hl Hb Ha. destruct (pretty_nonneg n Hn) as (Hd & He & Hi).
  unfold parse_round. cbv zeta.
  rewrite digits_plain_app, digits_decimal_app by done.
  rewrite digits_plain, append_empty_r by done.
  by rewrite He, (int_of_decimal _ n).
Qed.

Lemma parse_round_long_text (before after : string) (n : Z) :
  0 <= n -> PyStr.max_str_digits < Z.of_nat (String.length (pretty n)) ->
  str_forall is_plain before = true -> str_forall is_plain after = true ->
  parse_round (RoundStr (before +:+ pretty n +:+ after)) =
  Raise (ValueError "Exceeds the limit (4300 digits) for integer string conversion").
Proof.
  intros Hn Hl Hb Ha. destruct (pretty_nonneg n Hn) as (Hd & He & Hi).
  unfold parse_round. cbv zeta.
  rewrite digits_plain_app, digits_decimal_app by done.
  rewrite digits_plain, append_empty_r by done.
  by rewrite He, int_over_the_limit.
Qed.

(** X13.  A text round made of the decimal digits of a number [n] that is
    not negative, no more of them than the 4300 that [int] converts, between
    ASCII text without digits, is read as the round [n]:
    "Regular Season - 5" gives the importance of round 5. *)
Theorem text_round_reads_as_number
    (standings_df : list Standing) (params : ImportanceParams) (team : string)
    (before after : string) (n : Z) :
  0 <= n -> Z.of_nat (String.length (pretty n)) <= PyStr.max_str_digits ->
  str_forall is_plain before = true -> str_forall is_plain after = true ->
  parse_round (RoundStr (before +:+ pretty n +:+ after)) = Ok (Some n) /\
  team_score standings_df params team (Some (RoundStr (before +:+ pretty n +:+ after))) =
  team_score standings_df params team (Some (RoundInt n)).
Proof.
  intros Hn Hl Hb Ha. pose proof (parse_round_text before after n Hn Hl Hb Ha) as H.
  split; [done|]. unfold team_score. by rewrite H.
Qed.

Lemma text_round_reads_as_number_witness :
  parse_round (RoundStr "Regular Season - 2") = Ok (Some 2) /\
  team_score example_standings default_params "Flamengo"
    (Some (RoundStr "Regular Season - 2")) =
  team_score example_standings default_params "Flamengo" (Some (RoundInt 2)).
Proof.
  apply (text_round_reads_as_number example_standings default_params "Flamengo"
           "Regular Season - " "" 2); [lia|by vm_compute|reflexivity|reflexivity].
Defined.

Lemma digits_ascii (s : string) :
  str_forall is_ascii s = true -> str_forall PyStr.is_decimal (PyStr.digits s) = true.
Proof.
  induction s as [|c r IH]; [done|].
  cbn [str_forall]. rewrite andb_true_iff. intros [Hc Hr].
  destruct (PyStr.is_decimal c) eqn:Hd.
  - cbn [PyStr.digits]. rewrite Hd. cbn [str_forall]. by rewrite Hd, IH.
  - rewrite digits_plain_cons; [by apply IH|]. unfold is_plain. by rewrite Hc, Hd.
Qed.

Lemma int_from_decimal (s : string) (acc : Z) :
  str_forall PyStr.is_decimal s = true -> is_Some (PyStr.int_from acc s).
Proof.
  revert acc. induction s as [|c r IH]; intros acc; [by eexists|].
  cbn [str_forall PyStr.int_from]. rewrite andb_true_iff. intros [-> Hr]. by apply IH.
Qed.

Lemma parse_round_ascii (s : string) :
  short_round s -> exists v, parse_round (RoundStr s) = Ok v.
Proof.
  intros [Hs Hl]. unfold parse_round. cbv zeta.
  destruct (PyStr.is_empty (PyStr.digits s)) eqn:He; [by eexists|].
  destruct (int_from_decimal (PyStr.digits s) 0 (digits_ascii s Hs)) as [z Hz].
  rewrite (int_of_decimal _ z) by (done || by apply digits_ascii). by eexists.
Qed.

Lemma team_score_Ok (standings_df : list Standing) (params : ImportanceParams)
    (team : string) (rodada : option round_token) :
  (forall s, rodada = Some (RoundStr s) -> short_round s) ->
  exists v, team_score standings_df params team rodada = Ok v.
Proof.
  intros H. unfold team_score. destruct rodada as [token|]; [|by eexists].
  assert (exists v, parse_round token = Ok v) as [v ->].
  { destruct token as [n|s]; [by eexists|]. by apply parse_round_ascii, H. }
  rewrite bind_Ok. destruct v as [n|]; [|by eexists].
  repeat case_match; by eexists.
Qed.

Lemma Forall_zip_with_intro {A B C : Type} (P : C -> Prop) (f : A -> B -> C)
    (l : list A) (k : list B) :
  (forall x y, P (f x y)) -> Forall P (zip_with f l k).
Proof.
  intros H. revert k. induction l as [|x l IH]; intros [|y k]; simpl; constructor; auto.
Qed.

(** X14.  ImportanceScoreStage raises on no table whose text rounds are
    ASCII and hold no more digits than the 4300 that [int] converts: it
    returns the rows of its input, in their order, each with the two
    importance columns. *)
Theorem importance_total_on_ascii_rounds
    (df : list Match) (standings_df : option (list Standing)) (params : ImportanceParams) :
  (forall m s, m ∈ df -> rodada m = Some (RoundStr s) ->
     str_forall is_ascii s = true /\
     Z.of_nat (String.length (PyStr.digits s)) <= PyStr.max_str_digits) ->
  exists out : list Row,
    compute_importance_score df standings_df params = Ok out /\
    base <$> out = df /\
    Forall (fun r => fst <$> extra r = ["importance_home"; "importance_away"]) out.
Proof.
  intros Hascii. unfold compute_importance_score. cbv zeta.
  assert (exists out : list Row,
    Ok ((fun m => {| base := m;
                     extra := [("importance_home", CNone); ("importance_away", CNone)] |})
        <$> df) = Ok out /\
    base <$> out = df /\
    Forall (fun r => fst <$> extra r = ["importance_home"; "importance_away"]) out) as Hnull.
  { eexists. split; [done|]. split.
    - rewrite <- list_fmap_compose. rewrite (list_fmap_ext _ id); [apply list_fmap_id|done].
    - by rewrite Forall_fmap, Forall_forall. }
  destruct standings_df as [[|s0 standings]|]; [done| |done].
  set (st := s0 :: standings).
  assert (forall team : Match -> string,
    mapM (fun m => team_score st params (team m) (rodada m)) df =
    Ok ((fun m => match team_score st params (team m) (rodada m) with
                  | Ok v => v
                  | Raise _ => None
                  end) <$> df)) as Hmap.
  { intros team. apply mapM_Ok. rewrite Forall_forall. intros m Hm.
    destruct (team_score_Ok st params (team m) (rodada m)) as [v ->]; [|done].
    intros s. by apply Hascii. }
  rewrite (Hmap time_casa), bind_Ok, (Hmap time_fora), bind_Ok.
  eexists. split; [done|]. split.
  - apply (base_zip_with
             (fun _ ha => [("importance_home", float_cell (fst ha));
                           ("importance_away", float_cell (snd ha))])).
    rewrite length_zip, !length_fmap. lia.
  - by apply Forall_zip_with_intro.
Qed.

Lemma importance_total_on_ascii_rounds_witness :
  exists out : list Row,
    compute_importance_score [mirassol_at_home] (Some example_standings) default_params =
      Ok out /\
    base <$> out = [mirassol_at_home] /\
    Forall (fun r => fst <$> extra r = ["importance_home"; "importance_away"]) out.
Proof.
  apply (importance_total_on_ascii_rounds [mirassol_at_home] (Some example_standings)
           default_params).
  intros m s Hm. apply list_elem_of_singleton in Hm as ->.
  intros [= <-]. split; [reflexivity|by vm_compute].
Defined.

(** ** normalize_team_name *)

Lemma str_forall_app (P : ascii -> bool) (a b : string) :
  str_forall P (a +:+ b) = str_forall P a && str_forall P b.
Proof.
  induction a as [|c a IH]; [done|].
  change (String c a +:+ b) with (String c (a +:+ b)).
  cbn [str_forall]. by rewrite IH, andb_assoc.
Qed.

Lemma prefix_char (n : N) (c : ascii) (r : string) :
  (n < 256)%N -> String.prefix (String (PyStr.chr n) "") (String c r) = PyStr.is_byte n c.
Proof.
  intros Hn.
  change (String.prefix (String (PyStr.chr n) "") (String c r))
    with (if ascii_dec (PyStr.chr n) c then String.prefix "" r else false).
  destruct (ascii_dec (PyStr.chr n) c) as [<-|Hne].
  - destruct r; symmetry; by apply is_byte_iff.
  - symmetry. apply not_true_is_false. intros H.
    apply is_byte_iff in H; [|done]. by subst c.
Qed.

(** What [replace] writes is made of the text and of the replacement. *)
Lemma replace_from_forall (P : ascii -> bool) (old new : string) (skip : nat) (s : string) :
  str_forall P new = true -> str_forall P s = true ->
  str_forall P (PyStr.replace_from old new skip s) = true.
Proof.
  intros Hnew. revert skip. induction s as [|c r IH]; intros skip; [done|].
  cbn [str_forall PyStr.replace_from]. rewrite andb_true_iff. intros [Hc Hr].
  destruct skip as [|k]; [|by apply IH].
  destruct (String.prefix old (String c r)).
  - rewrite str_forall_app, Hnew. by apply IH.
  - cbn [str_forall]. rewrite Hc. by apply IH.
Qed.

(** Replacing a character leaves none of it, when the replacement has
    none. *)
Lemma replace_char_gone (n : N) (new s : string) :
  (n < 256)%N ->
  str_forall (fun c => negb (PyStr.is_byte n c)) new = true ->
  str_forall (fun c => negb (PyStr.is_byte n c))
    (PyStr.replace (String (PyStr.chr n) "") new s) = true.
Proof.
  intros Hn Hnew. unfold PyStr.replace. induction s as [|c r IH]; [done|].
  cbn [PyStr.replace_from]. rewrite prefix_char by done.
  destruct (PyStr.is_byte n c) eqn:E.
  - rewrite str_forall_app, Hnew. exact IH.
  - cbn [str_forall]. by rewrite E, IH.
Qed.

Lemma lstrip_forall (P : ascii -> bool) (s : string) :
  str_forall P s = true -> str_forall P (PyStr.lstrip s) = true.
Proof.
  remember (String.length s) as n eqn:Hlen. revert s Hlen.
  induction n as [n IH] using lt_wf_ind. intros s Hlen.
  destruct s as [|c r]; [done|].
  cbn [str_forall PyStr.lstrip]. rewrite andb_true_iff. intros [Hc Hr].
  destruct (PyStr.is_space c).
  { apply (IH (String.length r)); [simpl in Hlen; lia|done..]. }
  destruct r as [|d r']; [by cbn; rewrite Hc|].
  destruct (PyStr.is_space2 c d).
  - apply (IH (String.length r')); [simpl in Hlen; lia|done|].
    cbn [str_forall] in Hr. by apply andb_true_iff in Hr as [_ ?].
  - cbn [str_forall]. cbn [str_forall] in Hr. by rewrite Hc, Hr.
Qed.

Lemma rstrip_forall (P : ascii -> bool) (s : string) :
  str_forall P s = true -> str_forall P (PyStr.rstrip s) = true.
Proof.
  induction s as [|c r IH]; [done|].
  cbn [str_forall PyStr.rstrip]. rewrite andb_true_iff. intros [Hc Hr].
  destruct (PyStr.is_space c && PyStr.is_empty (PyStr.rstrip r)); [done|].
  destruct r as [|d r']; [by cbn; rewrite Hc|].
  destruct (PyStr.is_space2 c d && PyStr.is_empty (PyStr.rstrip r')); [done|].
  cbn [str_forall]. rewrite Hc. by apply IH.
Qed.

Lemma strip_forall (P : ascii -> bool) (s : string) :
  str_forall P s = true -> str_forall P (PyStr.strip s) = true.
Proof. intros H. unfold PyStr.strip. by apply rstrip_forall, lstrip_forall. Qed.

Lemma code_chr (n : N) : (n < 256)%N -> PyStr.code (PyStr.chr n) = n.
Proof. apply N_ascii_embedding. Qed.

Lemma code_bound (c : ascii) : (PyStr.code c < 256)%N.
Proof. apply N_ascii_bounded. Qed.

Lemma is_normal_code (c : ascii) :
  PyStr.code c <> 45%N -> PyStr.code c <> 46%N ->
  (PyStr.code c < 65 \/ 90 < PyStr.code c)%N -> is_normal c = true.
Proof.
  intros H45 H46 Hr. unfold is_normal, PyStr.is_byte, PyStr.between.
  rewrite !andb_true_iff, !negb_true_iff, !N.eqb_neq, andb_false_iff, !N.leb_gt. lia.
Qed.

(** [lower] writes no "-" and no "." of its own, and no ASCII capital. *)
Lemma lower_byte_normal (after_c3 : bool) (c : ascii) :
  negb (PyStr.is_byte 45 c) && negb (PyStr.is_byte 46 c) = true ->
  is_normal (PyStr.lower_byte after_c3 c) = true.
Proof.
  unfold PyStr.is_byte. rewrite !andb_true_iff, !negb_true_iff, !N.eqb_neq.
  intros [H45 H46]. pose proof (code_bound c) as Hb.
  unfold PyStr.lower_byte, PyStr.between, PyStr.is_byte.
  destruct (N.leb_spec 65 (PyStr.code c)), (N.leb_spec (PyStr.code c) 90); cbn [andb].
  1: apply is_normal_code; rewrite code_chr by lia; lia.
  all: destruct after_c3; cbn [andb]; try (apply is_normal_code; lia).
  all: destruct (N.leb_spec 128 (PyStr.code c)), (N.leb_spec (PyStr.code c) 158),
                (N.eqb_spec (PyStr.code c) 151); cbn [andb negb];
       apply is_normal_code; rewrite ?code_chr by lia; lia.
Qed.

Lemma lower_from_normal (after_c3 : bool) (s : string) :
  str_forall (fun c => negb (PyStr.is_byte 45 c) && negb (PyStr.is_byte 46 c)) s = true ->
  str_forall is_normal (PyStr.lower_from after_c3 s) = true.
Proof.
  revert after_c3. induction s as [|c r IH]; intros after_c3; [done|].
  cbn [str_forall PyStr.lower_from]. rewrite andb_true_iff. intros [Hc Hr].
  by rewrite lower_byte_normal, IH.
Qed.

Lemma replace_drop_forall (P : ascii -> bool) (old s : string) :
  str_forall P s = true -> str_forall P (PyStr.replace old "" s) = true.
Proof. by apply replace_from_forall. Qed.

Lemma str_forall_and (P Q : ascii -> bool) (s : string) :
  str_forall P s = true -> str_forall Q s = true ->
  str_forall (fun c => P c && Q c) s = true.
Proof.
  induction s as [|c r IH]; [done|].
  cbn [str_forall]. rewrite !andb_true_iff. intros [-> Hp] [-> Hq]. auto.
Qed.

(** After the first two replacements a name has neither "-" nor ".". *)
Lemma no_dash_no_dot (name : string) :
  str_forall (fun c => negb (PyStr.is_byte 45 c) && negb (PyStr.is_byte 46 c))
    (PyStr.replace "." "" (PyStr.replace "-" " " name)) = true.
Proof.
  apply str_forall_and.
  - apply replace_drop_forall. by apply (replace_char_gone 45 " " name).
  - by apply (replace_char_gone 46 "" (PyStr.replace "-" " " name)).
Qed.

(** X15.  A normalised team name holds no "-", no "." and no ASCII
    capital letter, whatever the name. *)
Theorem normalized_name_is_normal (name : string) :
  str_forall is_normal (normalize_team_name name) = true.
Proof.
  unfold normalize_team_name, PyStr.lower. apply lower_from_normal, strip_forall.
  do 2 apply replace_drop_forall. apply no_dash_no_dot.
Qed.

(** A text without "." has no occurrence of "F.C." to replace. *)
Lemma replace_fc_dots_absent (s : string) :
  str_forall (fun c => negb (PyStr.is_byte 46 c)) s = true ->
  PyStr.replace "F.C." "" s = s.
Proof.
  unfold PyStr.replace. induction s as [|c r IH]; [done|].
  cbn [str_forall]. rewrite andb_true_iff. intros [Hc Hr].
  cbn [PyStr.replace_from].
  assert (String.prefix "F.C." (String c r) = false) as ->; [|by rewrite IH].
  change (String.prefix "F.C." (String c r))
    with (if ascii_dec "F" c then String.prefix ".C." r else false).
  destruct (ascii_dec "F" c); [|done].
  destruct r as [|d r']; [done|].
  change (String.prefix ".C." (String d r'))
    with (if ascii_dec "." d then String.prefix "C." r' else false).
  destruct (ascii_dec "." d) as [<-|]; [|done].
  cbn [str_forall] in Hr. by apply andb_true_iff in Hr as [Hd _].
Qed.

(** X16.  The replacement of "F.C." in [normalize_team_name] never
    changes anything: the dots are gone when it runs, so a name is
    normalised by the three other replacements, [strip] and [lower]. *)
Theorem normalize_fc_dots_step_is_dead (name : string) :
  normalize_team_name name =
  PyStr.lower
    (PyStr.strip
       (PyStr.replace "FC" "" (PyStr.replace "." "" (PyStr.replace "-" " " name)))).
Proof.
  unfold normalize_team_name. rewrite replace_fc_dots_absent; [done|].
  apply replace_drop_forall.
  by apply (replace_char_gone 46 "" (PyStr.replace "-" " " name)).
Qed.

(** ** The harvester: the rounds of the Copa do Brasil *)

(** X17.  A round of the Copa do Brasil is kept exactly when its text, in
    lower case, holds neither "1st" nor "2nd" and holds one of the later
    labels: the first label of [CUP_PHASE_ORDER] found decides, so the first
    leg of a final ("1st") is dropped, and so is a text with no label. *)
Theorem allowed_copa_round_iff (round_str : string) :
  let text := PyStr.lower round_str in
  allowed_copa_round round_str = true <->
  PyStr.contains "1st" text = false /\
  PyStr.contains "2nd" text = false /\
  (PyStr.contains "3rd" text = true \/
   PyStr.contains "round of 32" text = true \/
   PyStr.contains "round of 16" text = true \/
   PyStr.contains "quarter" text = true \/
   PyStr.contains "semi" text = true \/
   PyStr.contains "final" text = true).
Proof.
  intros text. unfold allowed_copa_round. fold text.
  unfold CUP_PHASE_ORDER. cbn [first_phase].
  change (PyStr.lower "1st") with "1st". change (PyStr.lower "2nd") with "2nd".
  change (PyStr.lower "3rd") with "3rd".
  change (PyStr.lower "Round of 32") with "round of 32".
  change (PyStr.lower "Round of 16") with "round of 16".
  change (PyStr.lower "Quarter") with "quarter".
  change (PyStr.lower "Semi") with "semi".
  change (PyStr.lower "Final") with "final".
  destruct (PyStr.contains "1st" text); [split; [done|by intros [? _]]|].
  destruct (PyStr.contains "2nd" text); [split; [done|by intros (_ & ? & _)]|].
  destruct (PyStr.contains "3rd" text); [split; [auto|done]|].
  destruct (PyStr.contains "round of 32" text); [split; [auto 6|done]|].
  destruct (PyStr.contains "round of 16" text); [split; [auto 6|done]|].
  destruct (PyStr.contains "quarter" text); [split; [auto 8|done]|].
  destruct (PyStr.contains "semi" text); [split; [auto 8|done]|].
  destruct (PyStr.contains "final" text); [split; [auto 10|done]|].
  split; [done|]. intros (_ & _ & H). by repeat destruct H as [H|H].
Qed.

Lemma allowed_copa_round_iff_witness :
  allowed_copa_round "Semi-finals" = true /\ allowed_copa_round "Final - 1st Leg" = false.
Proof.
  split.
  - apply (allowed_copa_round_iff "Semi-finals"). vm_compute. auto 10.
  - apply not_true_is_false. intros H.
    apply (allowed_copa_round_iff "Final - 1st Leg") in H as [H _]. by vm_compute in H.
Defined.

(** The first two labels end the search with a refusal. *)
Lemma copa_round_early (round_str : string) :
  PyStr.contains "1st" (PyStr.lower round_str) = true \/
  PyStr.contains "2nd" (PyStr.lower round_str) = true ->
  allowed_copa_round round_str = false.
Proof.
  intros H. unfold allowed_copa_round, CUP_PHASE_ORDER. cbv zeta. cbn [first_phase].
  change (PyStr.lower "1st") with "1st". change (PyStr.lower "2nd") with "2nd".
  destruct (PyStr.contains "1st" (PyStr.lower round_str)); [done|].
  destruct H as [H|H]; [done|]. by rewrite H.
Qed.

(** X18.  A fixture of the Copa do Brasil whose round text holds "1st" or
    "2nd", or has no round, is dropped whichever teams play; one of the
    Série A is kept whatever it holds; one of a competition that is none of
    the three is dropped. *)
Theorem allowed_competition_rounds
    (is_serie_a_team : string -> bool) (campeonato : string) (fixture : Fixture) :
  (campeonato = "Série A" -> allowed_competition is_serie_a_team campeonato fixture = true) /\
  (campeonato = "Copa do Brasil" ->
   PyStr.contains "1st" (PyStr.lower (default "" (fx_round fixture))) = true \/
   PyStr.contains "2nd" (PyStr.lower (default "" (fx_round fixture))) = true \/
   fx_round fixture = None ->
   allowed_competition is_serie_a_team campeonato fixture = false) /\
  (campeonato <> "Série A" -> campeonato <> "Copa do Brasil" ->
   campeonato <> "Libertadores" ->
   allowed_competition is_serie_a_team campeonato fixture = false).
Proof.
  unfold allowed_competition. cbv zeta. split; [|split].
  - by intros ->.
  - intros -> H.
    change (String.eqb "Copa do Brasil" "Série A") with false.
    change (String.eqb "Copa do Brasil" "Copa do Brasil") with true. cbv iota.
    assert (allowed_copa_round (default "" (fx_round fixture)) = false) as ->; [|done].
    destruct H as [H|[H|H]]; [apply copa_round_early; auto..|].
    by rewrite H.
  - intros H1 H2 H3.
    rewrite (proj2 (String.eqb_neq _ _) H1), (proj2 (String.eqb_neq _ _) H2),
            (proj2 (String.eqb_neq _ _) H3). done.
Qed.

Lemma allowed_competition_rounds_witness :
  allowed_competition (fun _ => true) "Copa do Brasil"
    {| fx_round := Some "1st Round"; fx_home_name := "Flamengo"; fx_away_name := "Santos" |}
  = false.
Proof.
  destruct (allowed_competition_rounds (fun _ => true) "Copa do Brasil"
              {| fx_round := Some "1st Round"; fx_home_name := "Flamengo";
                 fx_away_name := "Santos" |}) as (_ & H & _).
  apply H; [reflexivity|]. left. reflexivity.
Defined.

(** ** The harvester: the daily quota of requests *)

Lemma consume_all_snoc (amounts : list Z) (a : Z) (q : RequestQuota) :
  consume_all (amounts ++ [a]) q = snd (consume a (consume_all amounts q)).
Proof. unfold consume_all. by rewrite foldl_app. Qed.

(** What a call of [consume] keeps: the limit and the day; and the file
    mirrors the state once it did. *)
Lemma consume_keeps (a : Z) (q : RequestQuota) :
  daily_limit (snd (consume a q)) = daily_limit q /\
  state_date (snd (consume a q)) = state_date q /\
  (log q = Saved (state_date q) (state_count q) ->
   log (snd (consume a q)) =
   Saved (state_date (snd (consume a q))) (state_count (snd (consume a q)))).
Proof. unfold consume. by destruct (remaining q <? a). Qed.

Lemma consume_all_keeps (amounts : list Z) (q : RequestQuota) :
  daily_limit (consume_all amounts q) = daily_limit q /\
  state_date (consume_all amounts q) = state_date q /\
  (log q = Saved (state_date q) (state_count q) ->
   log (consume_all amounts q) =
   Saved (state_date (consume_all amounts q)) (state_count (consume_all amounts q))).
Proof.
  induction amounts as [|a amounts IH] using rev_ind; [done|].
  rewrite consume_all_snoc. destruct IH as (IH1 & IH2 & IH3).
  destruct (consume_keeps a (consume_all amounts q)) as (H1 & H2 & H3).
  split; [by rewrite H1|]. split; [by rewrite H2|].
  intros Hlog. by apply H3, IH3.
Qed.

(** X19.  Calls of [consume] with amounts that are not negative never take
    the count of the day above the limit, and never lower it. *)
Theorem quota_never_exceeded (amounts : list Z) (q : RequestQuota) :
  Forall (fun a => 0 <= a) amounts ->
  used_today q <= daily_limit q ->
  used_today q <= used_today (consume_all amounts q) /\
  used_today (consume_all amounts q) <= daily_limit q.
Proof.
  intros Hpos Hq. induction amounts as [|a amounts IH] using rev_ind; [by split|].
  apply Forall_app in Hpos as [Hpos Ha]. rewrite Forall_singleton in Ha.
  destruct (IH Hpos) as [IH1 IH2]. rewrite consume_all_snoc.
  destruct (consume_all_keeps amounts q) as (Hlim & _ & _).
  set (q' := consume_all amounts q) in *.
  unfold consume, remaining, used_today in *.
  destruct (Z.ltb_spec (Z.max (daily_limit q' - state_count q') 0) a); simpl; lia.
Qed.

Lemma quota_never_exceeded_witness :
  used_today (new_quota "2024-05-01" NoFile 2) <=
    used_today (consume_all [1; 1; 1] (new_quota "2024-05-01" NoFile 2)) /\
  used_today (consume_all [1; 1; 1] (new_quota "2024-05-01" NoFile 2)) <= 2.
Proof.
  apply (quota_never_exceeded [1; 1; 1] (new_quota "2024-05-01" NoFile 2)).
  - repeat constructor; lia.
  - simpl. lia.
Defined.

(** A new quota on a day the file is not of. *)
Lemma new_quota_fresh (today : string) (file : log_file) (limit : Z) :
  (forall count, file <> Saved today count) ->
  new_quota today file limit =
  {| daily_limit := limit; state_date := today; state_count := 0;
     log := Saved today 0 |}.
Proof.
  intros Hfile. unfold new_quota, _load. simpl.
  destruct file as [| |date count]; [done..|].
  destruct (String.eqb date today) eqn:E; [|done].
  apply String.eqb_eq in E as ->. by destruct (Hfile count).
Qed.

(** X20.  On a day the log file is not of, requests pass until
    [daily_limit] of them did, and none after: the call of [consume()] that
    follows [n] others answers True exactly when [n] is below the limit,
    and the count of the day is [n] or the limit, whichever is less. *)
Theorem quota_counts_requests (today : string) (file : log_file) (limit : Z) (n : nat) :
  0 <= limit ->
  (forall count, file <> Saved today count) ->
  let q := consume_all (replicate n 1) (new_quota today file limit) in
  used_today q = Z.min (Z.of_nat n) limit /\
  fst (consume 1 q) = bool_decide (Z.of_nat n < limit).
Proof.
  intros Hlimit Hfile. cbv zeta. rewrite new_quota_fresh by done.
  set (q0 := {| daily_limit := limit; state_date := today; state_count := 0;
                log := Saved today 0 |}).
  assert (forall k, used_today (consume_all (replicate k 1) q0) = Z.min (Z.of_nat k) limit)
    as Hused.
  { intros k. induction k as [|k IH]; [simpl; unfold used_today; simpl; lia|].
    replace (replicate (S k) 1) with (replicate k 1 ++ [1])
      by (by rewrite <- replicate_cons_app).
    rewrite consume_all_snoc.
    destruct (consume_all_keeps (replicate k 1) q0) as (Hlim & _ & _).
    set (q := consume_all (replicate k 1) q0) in *.
    unfold consume, remaining, used_today in *. simpl in Hlim.
    destruct (Z.ltb_spec (Z.max (daily_limit q - state_count q) 0) 1); simpl; lia. }
  split; [apply Hused|].
  specialize (Hused n).
  destruct (consume_all_keeps (replicate n 1) q0) as (Hlim & _ & _).
  set (q := consume_all (replicate n 1) q0) in *.
  unfold consume, remaining, used_today in *. simpl in Hlim.
  destruct (Z.ltb_spec (Z.max (daily_limit q - state_count q) 0) 1); simpl.
  - rewrite bool_decide_eq_false_2; [done|lia].
  - rewrite bool_decide_eq_true_2; [done|lia].
Qed.

Lemma quota_counts_requests_witness :
  used_today (consume_all (replicate 5 1) (new_quota "2024-05-02" (Saved "2024-05-01" 3) 2))
    = Z.min 5 2 /\
  fst (consume 1 (consume_all (replicate 5 1)
                    (new_quota "2024-05-02" (Saved "2024-05-01" 3) 2))) =
    bool_decide (5 < 2).
Proof.
  apply (quota_counts_requests "2024-05-02" (Saved "2024-05-01" 3) 2 5); [lia|].
  intros count H. discriminate H.
Defined.

(** X21.  The count survives a restart on the same day and starts again
    at 0 on another: a quota made from the file that a quota of the day
    [today] left, after any calls of [consume], has its count when the day
    is still [today], and 0 when it is not. *)
Theorem quota_survives_restart
    (today today' : string) (file : log_file) (limit limit' : Z) (amounts : list Z) :
  let q := consume_all amounts (new_quota today file limit) in
  used_today (new_quota today' (log q) limit') =
    (if String.eqb today today' then used_today q else 0) /\
  log (new_quota today' (log q) limit') =
    Saved today' (if String.eqb today today' then used_today q else 0).
Proof.
  cbv zeta.
  assert (state_date (new_quota today file limit) = today /\
          log (new_quota today file limit) =
          Saved (state_date (new_quota today file limit))
                (state_count (new_quota today file limit))) as [Hd Hl].
  { unfold new_quota, _load. simpl. destruct file as [| |date count]; [done..|].
    destruct (String.eqb date today) eqn:E; [|done]. by apply String.eqb_eq in E as ->. }
  destruct (consume_all_keeps amounts (new_quota today file limit)) as (_ & Hdate & Hlog).
  specialize (Hlog Hl). rewrite Hd in Hdate.
  set (q := consume_all amounts (new_quota today file limit)) in *.
  unfold new_quota, _load, used_today. simpl. rewrite Hlog, Hdate.
  destruct (String.eqb today today') eqn:E; [|done].
  by apply String.eqb_eq in E as ->.
Qed.

(** ** RollingStatsStage: rows that share an id *)

Lemma mapM_total {A B : Type} (f : A -> result B) (l : list A) :
  (forall x, exists y, f x = Ok y) -> exists ys, mapM f l = Ok ys.
Proof.
  intros H. induction l as [|x l [ys IH]]; [by eexists|].
  destruct (H x) as [y Hy]. exists (y :: ys).
  cbn. rewrite Hy. cbn. unfold fmap in IH |- *. by rewrite IH.
Qed.

Lemma transform_total (window : Z) (metric : LongRow -> option Qc) (long_df : list LongRow) :
  1 <= window ->
  exists vals, transform (fun s => _rolling_mean_shifted s window) metric long_df = Ok vals.
Proof.
  intros Hw. unfold transform. apply mapM_total. intros [i r].
  unfold _rolling_mean_shifted.
  rewrite (proj2 (Z.ltb_ge window 1)) by lia.
  by eexists.
Qed.

(** With a window of at least 1, [long_df] gets its four columns whatever
    its rows. *)
Lemma with_rolls_total (window : Z) (long_df : list LongRow) :
  1 <= window ->
  exists rolled, with_rolls window long_df = Ok rolled /\ fst <$> rolled = long_df.
Proof.
  intros Hw. unfold with_rolls.
  destruct (mapM_total
    (fun m : string * (LongRow -> option Qc) =>
       vals ← transform (fun s => _rolling_mean_shifted s window) (snd m) long_df;
       Ok (fst m +:+ "_roll", vals)) metrics) as [cols Hcols].
  { intros m. destruct (transform_total window (snd m) long_df Hw) as [vals ->].
    by eexists. }
  rewrite Hcols, bind_Ok. eexists. split; [done|].
  rewrite fmap_imap. rewrite (imap_lookup_fmap _ id); [apply list_fmap_id|done].
Qed.

Lemma side_stats_ids (s : side) (suffix : string)
    (rolled : list (LongRow * list (string * cell))) :
  fst <$> side_stats s suffix rolled =
  lr_id_partida <$> filter (fun r => lr_side r = s) (fst <$> rolled).
Proof.
  unfold side_stats. rewrite <- list_fmap_compose, filter_fmap, <- list_fmap_compose.
  erewrite list_filter_iff; [done|].
  intros rc. simpl. destruct (lr_side rc.1), s; simpl; naive_solver.
Qed.

(** The number of rows of an id in the statistics of a side is the number
    of rows of that id in the table. *)
Lemma long_rows_count (df : list Match) (s : side) (k : Z) :
  length (filter (fun r => lr_id_partida r = k /\ lr_side r = s) (long_rows df)) =
  length (filter (fun m => id_partida m = k) df).
Proof.
  induction df as [|m df IH]; [done|].
  change (long_rows (m :: df)) with (home_obs m :: away_obs m :: long_rows df).
  rewrite !filter_cons. cbn [lr_id_partida lr_side home_obs away_obs].
  destruct (decide (id_partida m = k)) as [E|E].
  - destruct s.
    + rewrite decide_True by done. rewrite decide_False by (by intros [_ ?]).
      simpl. by rewrite IH.
    + rewrite decide_False by (by intros [_ ?]). rewrite decide_True by done.
      simpl. by rewrite IH.
  - by rewrite !decide_False by (by intros [? _]).
Qed.

Lemma side_stats_count (s : side) (suffix : string) (df : list Match)
    (rolled : list (LongRow * list (string * cell))) (k : Z) :
  fst <$> rolled = sort_values by_team_date (long_rows df) ->
  length (filter (fun e : Z * list (string * cell) => fst e = k)
            (side_stats s suffix rolled)) =
  length (filter (fun m => id_partida m = k) df).
Proof.
  intros Hrolled.
  transitivity (length (filter (fun i => i = k) (fst <$> side_stats s suffix rolled))).
  { by rewrite filter_fmap, length_fmap. }
  rewrite side_stats_ids, Hrolled.
  rewrite filter_fmap, length_fmap.
  rewrite list_filter_filter, sort_values_perm. apply long_rows_count.
Qed.

(** The rows of a join: a left row once for every right row of its id,
    and once when there is none. *)
Lemma join_bases (left : list Row) (names : list string)
    (right : list (Z * list (string * cell))) :
  base <$> join left names right =
  flat_map (fun r =>
    replicate (Nat.max 1 (length (filter (fun e => fst e = id_partida (base r)) right)))
              (base r)) left.
Proof.
  unfold join. induction left as [|r left IH]; [done|].
  cbn [flat_map]. rewrite fmap_app, IH. f_equal.
  destruct (filter _ right) as [|e found]; [done|].
  rewrite <- list_fmap_compose.
  replace (Nat.max 1 (length (e :: found))) with (length (e :: found)) by (simpl; lia).
  generalize (e :: found). intros l. induction l as [|x l IHl]; [done|].
  simpl in *. by f_equal.
Qed.

Lemma flat_map_fmap {A B C : Type} (f : A -> B) (g : B -> list C) (l : list A) :
  flat_map g (f <$> l) = flat_map (fun x => g (f x)) l.
Proof.
  induction l as [|x l IH]; [done|].
  rewrite fmap_cons. cbn [flat_map]. by rewrite IH.
Qed.

Lemma join_rows (left : list Row) (names : list string)
    (right : list (Z * list (string * cell))) :
  base <$> join left names right =
  flat_map (fun m =>
    replicate (Nat.max 1 (length (filter (fun e => fst e = id_partida m) right))) m)
    (base <$> left).
Proof. rewrite flat_map_fmap. apply join_bases. Qed.

Lemma flat_map_flat_map {A B C : Type} (f : A -> list B) (g : B -> list C) (l : list A) :
  flat_map g (flat_map f l) = flat_map (fun x => flat_map g (f x)) l.
Proof.
  induction l as [|x l IH]; [done|]. cbn [flat_map]. by rewrite flat_map_app, IH.
Qed.

Lemma flat_map_ext_elem {A B : Type} (f g : A -> list B) (l : list A) :
  (forall x, x ∈ l -> f x = g x) -> flat_map f l = flat_map g l.
Proof.
  induction l as [|x l IH]; intros H; [done|]. cbn [flat_map].
  rewrite (H x) by (by left). rewrite IH; [done|]. intros y Hy. apply H. by right.
Qed.

Lemma flat_map_replicate {A B : Type} (g : A -> list B) (n : nat) (x : A) (k : nat) (y : B) :
  g x = replicate k y -> flat_map g (replicate n x) = replicate (n * k) y.
Proof.
  intros H. induction n as [|n IH]; [done|].
  cbn [replicate flat_map]. rewrite H, IH. change (S n * k)%nat with (k + n * k)%nat.
  by rewrite replicate_add.
Qed.

Lemma copies_pos (df : list Match) (m : Match) : m ∈ df -> (1 <= copies df m)%nat.
Proof.
  intros Hm. unfold copies.
  assert (m ∈ filter (fun x => id_partida x = id_partida m) df) as H
    by (by apply list_elem_of_filter).
  destruct (filter _ df); [by apply elem_of_nil in H|simpl; lia].
Qed.

(** The ids of a table are distinct exactly when every row is the only
    one of its id. *)
Lemma copies_NoDup (df : list Match) :
  NoDup (ids df) <-> Forall (fun m => copies df m = 1%nat) df.
Proof.
  unfold ids, copies. induction df as [|x l IH].
  - split; constructor.
  - rewrite fmap_cons, NoDup_cons, Forall_cons, IH, filter_cons_True by done.
    assert (id_partida x ∉ id_partida <$> l <->
            filter (fun y => id_partida y = id_partida x) l = []) as Hx.
    { split.
      - intros Hn. apply filter_none. rewrite Forall_forall. intros y Hy E.
        apply Hn. rewrite <- E. by apply list_elem_of_fmap_2.
      - intros Hf (y & E & Hy)%list_elem_of_fmap.
        assert (y ∈ filter (fun y => id_partida y = id_partida x) l) as H
          by (by apply list_elem_of_filter).
        rewrite Hf in H. by apply elem_of_nil in H. }
    rewrite Hx, !Forall_forall. split.
    + intros [Hf Hl]. split; [by rewrite Hf|].
      intros y Hy. rewrite filter_cons.
      destruct (decide (id_partida x = id_partida y)) as [E|E]; [|by apply Hl].
      assert (y ∈ filter (fun z => id_partida z = id_partida x) l) as H
        by (by apply list_elem_of_filter).
      rewrite Hf in H. by apply elem_of_nil in H.
    + intros [Hone Hl].
      assert (filter (fun y => id_partida y = id_partida x) l = []) as Hf.
      { destruct (filter _ l); [done|]. simpl in Hone. lia. }
      split; [done|]. intros y Hy. specialize (Hl y Hy).
      rewrite filter_cons in Hl.
      destruct (decide (id_partida x = id_partida y)) as [E|E]; [|done].
      assert (y ∈ filter (fun z => id_partida z = id_partida x) l) as H
        by (by apply list_elem_of_filter).
      rewrite Hf in H. by apply elem_of_nil in H.
Qed.

Lemma length_squares (f : Match -> nat) (l : list Match) :
  Forall (fun m => 1 <= f m)%nat l ->
  (length l <= length (flat_map (fun m => replicate (f m * f m) m) l))%nat /\
  (length (flat_map (fun m => replicate (f m * f m) m) l) = length l <->
   Forall (fun m => f m = 1%nat) l).
Proof.
  induction 1 as [|m l Hm Hl [IHle IHeq]].
  - split; [done|]. split; [constructor|done].
  - cbn [flat_map]. rewrite length_app, length_replicate, Forall_cons. simpl length.
    split; [nia|]. split.
    + intros H. assert (f m = 1)%nat by nia. split; [done|]. apply IHeq. nia.
    + intros [E Hall]. apply IHeq in Hall. rewrite E. simpl. lia.
Qed.

(** X22.  On a table that is not empty, with a window of at least 1,
    RollingStatsStage returns every row of its input once for every pair of
    rows that have its id: the two joins on [id_partida] repeat it.  So
    the stage keeps the number of rows exactly when the ids are distinct. *)
Theorem rolling_stats_repeats_shared_ids (df : list Match) (window : Z) :
  df ≠ [] -> 1 <= window ->
  exists out : list Row,
    compute_rolling_stats df window = Ok out /\
    base <$> out = flat_map (fun m => replicate (copies df m * copies df m) m) df /\
    (length df <= length out)%nat /\
    (length out = length df <-> NoDup (ids df)).
Proof.
  intros Hne Hw. unfold compute_rolling_stats.
  pose proof (long_rows_nonempty df Hne) as Hl.
  destruct (long_rows df) as [|r0 l0] eqn:El; [done|]. rewrite <- El. clear Hl El r0 l0.
  destruct (with_rolls_total window (sort_values by_team_date (long_rows df)) Hw)
    as (rolled & -> & Hrolled).
  rewrite bind_Ok. cbv beta zeta. eexists. split; [done|].
  assert (base <$>
          join (join ((fun m => {| base := m; extra := [] |}) <$> df)
                  ((fun c => c +:+ suffix_of window Home) <$> roll_columns)
                  (side_stats Home (suffix_of window Home) rolled))
               ((fun c => c +:+ suffix_of window Away) <$> roll_columns)
               (side_stats Away (suffix_of window Away) rolled) =
          flat_map (fun m => replicate (copies df m * copies df m) m) df) as Hbase.
  { rewrite !join_rows, <- list_fmap_compose.
    rewrite (list_fmap_ext _ id) by done. rewrite list_fmap_id.
    rewrite flat_map_flat_map. apply flat_map_ext_elem. intros m Hm.
    pose proof (copies_pos df m Hm) as Hpos.
    rewrite (side_stats_count _ _ df) by done. fold (copies df m).
    rewrite Nat.max_r by done.
    apply flat_map_replicate.
    rewrite (side_stats_count _ _ df) by done. fold (copies df m).
    by rewrite Nat.max_r by done. }
  split; [exact Hbase|].
  destruct (length_squares (copies df) df) as [Hle Heq].
  { rewrite Forall_forall. intros m Hm. by apply copies_pos. }
  rewrite <- (length_fmap base), Hbase. split; [done|].
  by rewrite Heq, copies_NoDup.
Qed.

Lemma rolling_stats_repeats_shared_ids_witness :
  exists out : list Row,
    compute_rolling_stats [same_day_1; same_day_1] 3 = Ok out /\
    length out = 8%nat.
Proof.
  destruct (rolling_stats_repeats_shared_ids [same_day_1; same_day_1] 3)
    as (out & Hout & Hbase & _); [discriminate|lia|].
  exists out. split; [exact Hout|].
  rewrite <- (length_fmap base), Hbase. reflexivity.
Defined.
